(** * Container / box / cylinder selection: hierarchy, constraint model,
      solution validator and alternative-solution search.

    A shallow embedding of the notebook's cells.  Python objects that are
    mutated after they are shared (containers, boxes) live in stores keyed by
    their identifier; cylinders never change once constructed and are kept
    by value.  The linear-programming library is represented by the data it
    is handed (affine expressions, constraints) and the solver by a
    function from the current model to a status and an assignment. *)

From Stdlib Require Import QArith Ascii String.
From stdpp Require Import base list strings gmap pretty sorting.

Local Open Scope string_scope.
Local Open Scope list_scope.

Set Warnings "-clear-no-such-hyp".

(** ** Python strings *)

Module Str.

(** [s.split(sep)] for a one-character separator. *)
Fixpoint split (sep : ascii) (s : string) : list string :=
  match s with
  | EmptyString => [EmptyString]
  | String c s' =>
      if Ascii.eqb c sep then EmptyString :: split sep s'
      else match split sep s' with
           | [] => [String c EmptyString]
           | w :: ws => String c w :: ws
           end
  end.

(** [sep.join(l)]. *)
Definition join (sep : string) (l : list string) : string :=
  String.concat sep l.

(** The separator does not occur in the string. *)
Fixpoint free_of (sep : ascii) (s : string) : bool :=
  match s with
  | EmptyString => true
  | String c s' => negb (Ascii.eqb c sep) && free_of sep s'
  end.

(** Python's [str.__lt__] on byte strings: code-point order. *)
Definition le (a b : string) : bool := String.leb a b.

End Str.

Definition pipe : ascii := "|"%char.

(** ** Python dictionaries (insertion ordered) *)

Module Dict.

Section Dict.
Context {V : Type}.

Definition t := list (string * V).

Definition empty : t := [].

(** [d.get(k)]; [d[k]] raises [KeyError] where this is [None]. *)
Fixpoint get (d : t) (k : string) : option V :=
  match d with
  | [] => None
  | (k', v) :: d' => if String.eqb k' k then Some v else get d' k
  end.

(** [k in d] *)
Definition mem (d : t) (k : string) : bool :=
  match get d k with Some _ => true | None => false end.

(** [d[k] = v]: an existing key keeps its position, a new key goes
    last. *)
Fixpoint set (d : t) (k : string) (v : V) : t :=
  match d with
  | [] => [(k, v)]
  | (k', v') :: d' =>
      if String.eqb k' k then (k', v) :: d' else (k', v') :: set d' k v
  end.

(** In-place mutation of the object stored under [k]. *)
Fixpoint alter (f : V -> V) (d : t) (k : string) : t :=
  match d with
  | [] => []
  | (k', v') :: d' =>
      if String.eqb k' k then (k', f v') :: d' else (k', v') :: alter f d' k
  end.

Definition keys (d : t) : list string := map fst d.
Definition values (d : t) : list V := map snd d.
End Dict.

Arguments t : clear implicits.

End Dict.

(** ** Numbers

    Weights and volumes are machine numbers read from the sheet.  Only the
    operations the notebook applies to them are required; nothing is assumed
    of their algebra, so every statement below holds for binary floating
    point as well as for exact arithmetic. *)

Class PyNum (num : Type) := {
  num_add : num -> num -> num;          (* x + y *)
  num_round : nat -> num -> num;        (* round(x, ndigits) *)
  num_eqb : num -> num -> bool;         (* x == y *)
  num_of_Q : Q -> num;                  (* the literal / conversion *)
  num_to_Q : num -> Q                   (* exact value *)
}.

(** Exact rationals, rounding half to even: an implementation on which the
    definitions can be run.  It is not the arithmetic of the notebook,
    whose numbers are binary floating point; the statements about the
    notebook are made for every implementation of the class. *)
Module QNum.

Definition round_half_even (x : Q) : Z :=
  let n := Qnum x in
  let d := Zpos (Qden x) in
  let q := (n / d)%Z in
  let r := (n mod d)%Z in
  match (2 * r ?= d)%Z with
  | Lt => q
  | Gt => (q + 1)%Z
  | Eq => if Z.even q then q else (q + 1)%Z
  end.

Definition round (ndigits : nat) (x : Q) : Q :=
  let p := (10 ^ Z.of_nat ndigits)%Z in
  Qred (Qmake (round_half_even (x * inject_Z p)) (Z.to_pos p)).

#[global] Instance Q_PyNum : PyNum Q := {|
  num_add := fun x y => Qred (Qplus x y);
  num_round := round;
  num_eqb := Qeq_bool;
  num_of_Q := fun q => q;
  num_to_Q := fun q => q
|}.

End QNum.

(** ** Outcomes of a Python call *)

Inductive exn := KeyError | IndexError | TypeError.

Inductive result (A : Type) :=
| Ok (a : A)
| Raise (e : exn).
Arguments Ok {A} a.
Arguments Raise {A} e.

#[global] Instance result_ret : MRet result := fun _ a => Ok a.
#[global] Instance result_bind : MBind result := fun _ _ k m =>
  match m with
  | Ok a => k a
  | Raise e => Raise e
  end.

(** [d[k]] *)
Definition subscript {V} (d : Dict.t V) (k : string) : result V :=
  match Dict.get d k with
  | Some v => Ok v
  | None => Raise KeyError
  end.

(** ** Entities *)

Section Entities.
Context {num : Type}.

(** A cylinder; [box] is the identifier of the box object it points back
    to.  Its decision variable is named after [cyl_identifier]. *)
Record Cylinder := {
  cyl_identifier : string;
  weight : num;
  volume : num;
  density : num;
  box : string
}.

(** A box carries no variable; [container] is the identifier of the
    container object it points back to. *)
Record Box := {
  box_identifier : string;
  box_cylinders : list Cylinder;
  container : string
}.

(** A container; [cont_boxes] lists its box objects by identifier.  Its
    decision variable is named after [cont_identifier]. *)
Record Container := {
  cont_identifier : string;
  cont_boxes : list string
}.

(** One line of the data frame; [row_Cylinder] is [str(row['Cylinder'])]. *)
Record Row := {
  row_Container : string;
  row_Box : string;
  row_Cylinder : string;
  row_weight : num;
  row_volume : num;
  row_density : num
}.

(** The three dictionaries of the notebook. *)
Record Hierarchy := {
  containers : Dict.t Container;
  boxes : Dict.t Box;
  cylinders : Dict.t Cylinder
}.

Definition no_items : Hierarchy :=
  {| containers := Dict.empty; boxes := Dict.empty; cylinders := Dict.empty |}.

(** [self.cylinders.append(c)] on a box *)
Definition box_append (c : Cylinder) (b : Box) : Box :=
  {| box_identifier := box_identifier b;
     box_cylinders := box_cylinders b ++ [c];
     container := container b |}.

(** [self.boxes.append(b)] on a container *)
Definition cont_append (b : string) (c : Container) : Container :=
  {| cont_identifier := cont_identifier c;
     cont_boxes := cont_boxes c ++ [b] |}.

Definition container_id (r : Row) : string := row_Container r.
Definition box_id (r : Row) : string :=
  container_id r +:+ "|" +:+ row_Box r.
Definition cylinder_id (r : Row) : string :=
  box_id r +:+ "|" +:+ row_Cylinder r.

(** [Cylinder(identifier=cylinder_id, weight=..., volume=...,
    density=..., box=box)], the object itself. *)
Definition row_cylinder (r : Row) : Cylinder :=
  {| cyl_identifier := cylinder_id r; weight := row_weight r;
     volume := row_volume r; density := row_density r;
     box := box_id r |}.

(** The body of the loop over the data frame. *)
Definition construct_row (h : Hierarchy) (r : Row) : Hierarchy :=
  let cs :=
    if Dict.mem (containers h) (container_id r) then containers h
    else Dict.set (containers h) (container_id r)
           {| cont_identifier := container_id r; cont_boxes := [] |} in
  let '(cs, bs) :=
    if Dict.mem (boxes h) (box_id r) then (cs, boxes h)
    else (Dict.alter (cont_append (box_id r)) cs (container_id r),
          Dict.set (boxes h) (box_id r)
            {| box_identifier := box_id r; box_cylinders := [];
               container := container_id r |}) in
  let cylinder := row_cylinder r in
  {| containers := cs;
     boxes := Dict.alter (box_append cylinder) bs (box_id r);
     cylinders := Dict.set (cylinders h) (cylinder_id r) cylinder |}.

Definition construct_from (h : Hierarchy) (rows : list Row) : Hierarchy :=
  fold_left construct_row rows h.

Definition construct (rows : list Row) : Hierarchy :=
  construct_from no_items rows.

End Entities.

Arguments Cylinder : clear implicits.
Arguments Box : clear implicits.
Arguments Container : clear implicits.
Arguments Row : clear implicits.
Arguments Hierarchy : clear implicits.

(** ** The optimisation model

    What the notebook relies on from numpy and from the modelling library,
    as far as the cells below exercise it:
    - the sum of an array of variables is an affine expression, the sum of
      an empty array is the number [0.0], and the column sums of an empty
      array cannot be indexed;
    - comparing an expression with anything yields a constraint, comparing
      two numbers yields a boolean;
    - [problem += c, name] appends the constraint [c], and raises
      [TypeError] for a numpy boolean;
    - a variable is known by its name, and [problem.variables()] lists
      the variables of the objective and of the constraints once each,
      sorted by name;
    - the solver leaves a value in every variable and returns a status.

    Names are carried as the notebook gives them.  The library stores a
    name with some characters replaced, keeps no empty name, and refuses
    a constraint whose stored name is taken; the definitions coincide
    with it for sheets whose labels it stores unchanged, which the
    statements about built models assume through [labels_kept],
    [names_kept] and [plain] (see "Names inside the library"). *)

(** A raw assignment: the [varValue] of the variable with a given name. *)
Definition assignment := string -> Z.

Definition TOTAL_CONTAINERS : nat := 35.
Definition TOTAL_WEIGHT : Z := 18844.
Definition DIGITS_PRECISION : nat := 2.
Definition MAX_DIFFERENT_SOLUTIONS : nat := 100.
Definition LpStatusOptimal : Z := 1.

Section Model.
Context {num : Type} `{!PyNum num}.

Definition TOTAL_VOLUME : num := num_of_Q (516369 # 100).

(** A coefficient or constant is a Python integer or a machine number. *)
Inductive coef :=
| IntCoef (z : Z)
| NumCoef (x : num).

(** Terms [coefficient * variable], in the order they were added. *)
Definition LpAffineExpression := list (coef * string).

(** What a sum built by numpy is: an expression over variables, or, for
    an empty array, a plain number. *)
Inductive operand :=
| Scalar (c : coef)
| Expr (e : LpAffineExpression).

Inductive sense := LE | EQ | GE.

Record LpConstraint := {
  lhs : operand;
  c_sense : sense;
  rhs : operand
}.

(** The value of [a <= b], [a == b], [a >= b]: a constraint as soon as
    one side mentions a variable, a numpy boolean between two numbers. *)
Inductive compared :=
| NumpyBool
| Constraint (c : LpConstraint).

Definition compare (l : operand) (s : sense) (r : operand) : compared :=
  match l, r with
  | Scalar _, Scalar _ => NumpyBool
  | _, _ => Constraint {| lhs := l; c_sense := s; rhs := r |}
  end.

Record LpProblem := {
  objective : operand;
  constraints : list (string * LpConstraint)
}.

(** [problem += x, name]: only a constraint can be added. *)
Definition add (p : LpProblem) (x : compared) (name : string)
  : result LpProblem :=
  match x with
  | NumpyBool => Raise TypeError
  | Constraint c =>
      Ok {| objective := objective p;
            constraints := constraints p ++ [(name, c)] |}
  end.

(** [Item.sum_variables], on the names of the items' variables. *)
Definition sum_variables (names : list string) : operand :=
  match names with
  | [] => Scalar (NumCoef (num_of_Q 0))
  | _ => Expr (map (fun n => (IntCoef 1, n)) names)
  end.

(** [Item.volume_weight_times_cylinders_vars]; indexing the sum of an
    empty array fails. *)
Definition volume_weight_times_cylinders_vars
    (list_of_cylinders : list (Cylinder num)) : result (operand * operand) :=
  match list_of_cylinders with
  | [] => Raise IndexError
  | _ =>
      Ok (Expr (map (fun c => (NumCoef (volume c), cyl_identifier c))
                  list_of_cylinders),
          Expr (map (fun c => (NumCoef (weight c), cyl_identifier c))
                  list_of_cylinders))
  end.

(** [0 * s] and [a + b] as used for the objective. *)
Definition times_zero (s : operand) : operand :=
  match s with
  | Scalar _ => Scalar (NumCoef (num_of_Q 0))
  | Expr _ => Expr []
  end.

Definition plus (a b : operand) : operand :=
  match a, b with
  | Expr e1, Expr e2 => Expr (e1 ++ e2)
  | Expr e, Scalar _ | Scalar _, Expr e => Expr e
  | Scalar _, Scalar _ => Scalar (NumCoef (num_of_Q 0))
  end.

(** [variable] and [n * variable] *)
Definition var (name : string) : operand := Expr [(IntCoef 1, name)].

Definition times (n : nat) (name : string) : operand :=
  match n with
  | O => Expr []
  | _ => Expr [(IntCoef (Z.of_nat n), name)]
  end.

(** The three constraints of one box, as the inner loop body adds them. *)
Definition link_box (c : Container) (b : Box num) (problem : LpProblem)
  : result LpProblem :=
  let sum_cylinders_of_box_vars :=
    sum_variables (map cyl_identifier (box_cylinders b)) in
  problem ← add problem
    (compare (var (cont_identifier c)) LE sum_cylinders_of_box_vars)
    ("When a container is chosen, at least one of its boxes must be used "
       +:+ box_identifier b +:+ ".");
  problem ← add problem
    (compare (times (length (box_cylinders b)) (cont_identifier c)) GE
       sum_cylinders_of_box_vars)
    ("When a box is used, its container must be chosen "
       +:+ box_identifier b +:+ ".");
  add problem
    (compare sum_cylinders_of_box_vars LE (Scalar (IntCoef 1)))
    ("Choosing at maximum one cylinder per box " +:+ box_identifier b +:+ ".").

(** [for box in container.boxes: ...]; a box is reached through the
    store. *)
Fixpoint link_boxes (h : Hierarchy num) (c : Container)
    (bs : list string) (problem : LpProblem) : result LpProblem :=
  match bs with
  | [] => Ok problem
  | b :: bs' =>
      bx ← subscript (boxes h) b;
      problem ← link_box c bx problem;
      link_boxes h c bs' problem
  end.

(** [for container in containers.values(): ...] *)
Fixpoint link_containers (h : Hierarchy num) (cs : list Container)
    (problem : LpProblem) : result LpProblem :=
  match cs with
  | [] => Ok problem
  | c :: cs' =>
      problem ← link_boxes h c (cont_boxes c) problem;
      link_containers h cs' problem
  end.

(** The cell "Building the optimization model". *)
Definition build_model (h : Hierarchy num) : result LpProblem :=
  let sum_all_containers_vars :=
    sum_variables (map cont_identifier (Dict.values (containers h))) in
  let sum_all_cylinders_vars :=
    sum_variables (map cyl_identifier (Dict.values (cylinders h))) in
  let problem :=
    {| objective := plus (times_zero sum_all_containers_vars)
                         (times_zero sum_all_cylinders_vars);
       constraints := [] |} in
  problem ← add problem
    (compare sum_all_containers_vars EQ
       (Scalar (IntCoef (Z.of_nat TOTAL_CONTAINERS))))
    "Choosing exactly 35 containers.";
  '(sum_volume_cylinders_vars, sum_weight_cylinders_vars) ←
    volume_weight_times_cylinders_vars (Dict.values (cylinders h));
  problem ← add problem
    (compare sum_volume_cylinders_vars EQ (Scalar (NumCoef TOTAL_VOLUME)))
    "The selected cylinders' volume must sum to this value.";
  problem ← add problem
    (compare sum_weight_cylinders_vars EQ (Scalar (IntCoef TOTAL_WEIGHT)))
    "The selected cylinders together must weigh this much.";
  link_containers h (Dict.values (containers h)) problem.

(** *** Variables of a problem *)

Definition operand_vars (o : operand) : list string :=
  match o with
  | Scalar _ => []
  | Expr e => map snd e
  end.

Definition constraint_vars (c : LpConstraint) : list string :=
  operand_vars (lhs c) ++ operand_vars (rhs c).

Fixpoint insert_by_name (x : string) (l : list string) : list string :=
  match l with
  | [] => [x]
  | y :: l' => if Str.le x y then x :: l else y :: insert_by_name x l'
  end.

Definition sort_by_name (l : list string) : list string :=
  foldr insert_by_name [] l.

(** [problem.variables()]: every variable the objective or a constraint
    mentions, once, sorted by name. *)
Definition variables (p : LpProblem) : list string :=
  sort_by_name
    (remove_dups (operand_vars (objective p)
                    ++ concat (map (fun nc => constraint_vars (snd nc))
                                 (constraints p)))).

(** *** Meaning of a constraint under an assignment *)

Definition coef_value (c : coef) : Q :=
  match c with
  | IntCoef z => inject_Z z
  | NumCoef x => num_to_Q x
  end.

Definition expr_value (a : assignment) (e : LpAffineExpression) : Q :=
  foldr (fun t acc => (coef_value (fst t) * inject_Z (a (snd t)) + acc)%Q)
    0%Q e.

Definition operand_value (a : assignment) (o : operand) : Q :=
  match o with
  | Scalar c => coef_value c
  | Expr e => expr_value a e
  end.

Definition holds (a : assignment) (c : LpConstraint) : Prop :=
  match c_sense c with
  | LE => (operand_value a (lhs c) <= operand_value a (rhs c))%Q
  | EQ => (operand_value a (lhs c) == operand_value a (rhs c))%Q
  | GE => (operand_value a (rhs c) <= operand_value a (lhs c))%Q
  end.

(** Binary variables. *)
Definition binary (a : assignment) : Prop :=
  forall x, a x = 0%Z \/ a x = 1%Z.

Definition feasible (a : assignment) (p : LpProblem) : Prop :=
  binary a /\ Forall (fun nc => holds a (snd nc)) (constraints p).

End Model.

Arguments coef : clear implicits.
Arguments LpAffineExpression : clear implicits.
Arguments operand : clear implicits.
Arguments LpConstraint : clear implicits.
Arguments compared : clear implicits.
Arguments LpProblem : clear implicits.

(** ** The solution validator *)

Section Validator.
Context {num : Type} `{!PyNum num}.

(** The locals of [evaluate_solution]. *)
Record Locals := {
  used_containers : gset string;
  sum_volumes : num;
  sum_weights : num;
  used_boxes : gset string;
  chosen_cylinders_ids : list string;
  chosen_cylinders : list (Cylinder num)
}.

Definition initial_locals : Locals :=
  {| used_containers := ∅;
     sum_volumes := num_of_Q 0;
     sum_weights := num_of_Q 0;
     used_boxes := ∅;
     chosen_cylinders_ids := [];
     chosen_cylinders := [] |}.

(** [variable.varValue == 1] *)
Definition is_one (a : assignment) (name : string) : bool :=
  Z.eqb (a name) 1.

(** The inner loop over the cylinders of one box; [break] leaves it. *)
Fixpoint scan_cylinders (a : assignment) (cs : list (Cylinder num))
    (has_chosen_cylinder : bool) : bool :=
  match cs with
  | [] => has_chosen_cylinder
  | cylinder_from_box :: cs' =>
      if is_one a (cyl_identifier cylinder_from_box) then true
      else scan_cylinders a cs' has_chosen_cylinder
  end.

(** The outer loop over the boxes of one container. *)
Fixpoint scan_boxes (h : Hierarchy num) (a : assignment) (bs : list string)
    (has_chosen_cylinder : bool) : result bool :=
  match bs with
  | [] => Ok has_chosen_cylinder
  | b :: bs' =>
      box_from_container ← subscript (boxes h) b;
      scan_boxes h a bs'
        (scan_cylinders a (box_cylinders box_from_container)
           has_chosen_cylinder)
  end.

(** One iteration of the loop over [problem.variables()].  [Ok None] is
    the early [return None]. *)
Definition visit (h : Hierarchy num) (a : assignment) (st : Locals)
    (name : string) : result (option Locals) :=
  if is_one a name then
    let split_variable_name := Str.split pipe name in
    if Nat.eqb (length split_variable_name) 1 then
      let st :=
        {| used_containers := {[name]} ∪ used_containers st;
           sum_volumes := sum_volumes st;
           sum_weights := sum_weights st;
           used_boxes := used_boxes st;
           chosen_cylinders_ids := chosen_cylinders_ids st;
           chosen_cylinders := chosen_cylinders st |} in
      c ← subscript (containers h) name;
      has_chosen_cylinder ← scan_boxes h a (cont_boxes c) false;
      if negb has_chosen_cylinder then Ok None else Ok (Some st)
    else
      cylinder ← subscript (cylinders h) name;
      let st :=
        {| used_containers := used_containers st;
           sum_volumes := num_add (sum_volumes st) (volume cylinder);
           sum_weights := num_add (sum_weights st) (weight cylinder);
           used_boxes := used_boxes st;
           chosen_cylinders_ids :=
             chosen_cylinders_ids st ++ [cyl_identifier cylinder];
           chosen_cylinders := chosen_cylinders st ++ [cylinder] |} in
      container_box_identifier ←
        match split_variable_name with
        | s0 :: s1 :: _ => Ok (s0 +:+ "|" +:+ s1)
        | _ => Raise IndexError
        end;
      (* cylinder.box.container.variable.varValue *)
      bx ← subscript (boxes h) (box cylinder);
      if negb (is_one a (container bx)) then Ok None
      else if bool_decide (container_box_identifier ∉ used_boxes st) then
        Ok (Some
          {| used_containers := used_containers st;
             sum_volumes := sum_volumes st;
             sum_weights := sum_weights st;
             used_boxes := {[container_box_identifier]} ∪ used_boxes st;
             chosen_cylinders_ids := chosen_cylinders_ids st;
             chosen_cylinders := chosen_cylinders st |})
      else Ok None
  else Ok (Some st).

Fixpoint visit_all (h : Hierarchy num) (a : assignment)
    (vars : list string) (st : Locals) : result (option Locals) :=
  match vars with
  | [] => Ok (Some st)
  | name :: vars' =>
      r ← visit h a st name;
      match r with
      | None => Ok None
      | Some st' => visit_all h a vars' st'
      end
  end.

Definition solution : Type := list string * list (Cylinder num).

(** [evaluate_solution(problem)]: the value returned ([None] or the
    pair) and the global set [all_optimal_solutions] afterwards. *)
Definition evaluate_solution (h : Hierarchy num) (problem : LpProblem num)
    (a : assignment) (all_optimal_solutions : gset string)
  : result (option solution) * gset string :=
  match visit_all h a (variables problem) initial_locals with
  | Raise e => (Raise e, all_optimal_solutions)
  | Ok None => (Ok None, all_optimal_solutions)
  | Ok (Some st) =>
      let solution_string := Str.join "," (chosen_cylinders_ids st) in
      if bool_decide (solution_string ∈ all_optimal_solutions) then
        (Ok None, all_optimal_solutions)
      else
        let all_optimal_solutions :=
          {[solution_string]} ∪ all_optimal_solutions in
        let sum_volumes := num_round DIGITS_PRECISION (sum_volumes st) in
        let sum_weights := num_round DIGITS_PRECISION (sum_weights st) in
        if Nat.eqb (size (used_containers st)) TOTAL_CONTAINERS
           && num_eqb sum_volumes TOTAL_VOLUME
           && num_eqb sum_weights (num_of_Q (inject_Z TOTAL_WEIGHT))
        then (Ok (Some (chosen_cylinders_ids st, chosen_cylinders st)),
              all_optimal_solutions)
        else (Ok None, all_optimal_solutions)
  end.

End Validator.

(** ** The search for different solutions *)

Section Search.
Context {num : Type} `{!PyNum num}.

(** [problem.solve(solver_object)]: the status and the values the solver
    leaves in the variables. *)
Variable solve : LpProblem num -> Z * assignment.

Variable h : Hierarchy num.

Record Notebook := {
  problem : LpProblem num;
  pulp_status_solve : Z;
  values : assignment;
  counter_different_solutions : nat;
  all_optimal_solutions : gset string;
  (** what [write_optimal_solution] has written, latest last *)
  files : list (nat * list string)
}.

(** The body of the [while]: the state after it and whether the loop
    goes on ([false] after [break]). *)
Definition loop_body (st : Notebook) : result (Notebook * bool) :=
  let '(solution_return, seen) :=
    evaluate_solution h (problem st) (values st)
      (all_optimal_solutions st) in
  solution_return ← solution_return;
  match solution_return with
  | Some (optimal_solution, optimal_cylinder_objects) =>
      let written :=
        files st
          ++ [(counter_different_solutions st + 1, optimal_solution)] in
      problem' ← add (problem st)
        (compare
           (sum_variables (map cyl_identifier optimal_cylinder_objects)) LE
           (Scalar (IntCoef (Z.of_nat (length optimal_cylinder_objects) - 1))))
        ("Generating different solution "
           +:+ pretty (counter_different_solutions st));
      let '(status, vals) := solve problem' in
      Ok ({| problem := problem';
             pulp_status_solve := status;
             values := vals;
             counter_different_solutions :=
               counter_different_solutions st + 1;
             all_optimal_solutions := seen;
             files := written |}, true)
  | None =>
      Ok ({| problem := problem st;
             pulp_status_solve := pulp_status_solve st;
             values := values st;
             counter_different_solutions := counter_different_solutions st;
             all_optimal_solutions := seen;
             files := files st |}, false)
  end.

(** The [while] loop, unrolled at most [fuel] times; [None] when the
    fuel does not reach its end. *)
Fixpoint search_loop (fuel : nat) (max : nat) (st : Notebook)
  : option (result Notebook) :=
  if Z.eqb (pulp_status_solve st) LpStatusOptimal
     && Nat.leb (counter_different_solutions st) max
  then
    match fuel with
    | O => None
    | S fuel' =>
        match loop_body st with
        | Raise e => Some (Raise e)
        | Ok (st', true) => search_loop fuel' max st'
        | Ok (st', false) => Some (Ok st')
        end
    end
  else Some (Ok st).

(** The state in which the search cell starts: the model has been solved
    once. *)
Definition start (p : LpProblem num) (seen : gset string) : Notebook :=
  let '(status, vals) := solve p in
  {| problem := p;
     pulp_status_solve := status;
     values := vals;
     counter_different_solutions := 0;
     all_optimal_solutions := seen;
     files := [] |}.

(** The last cell: nothing is done when the file of solution
    [max + 1] exists already. *)
Definition search (last_file_is_file : bool) (max : nat) (st : Notebook)
  : option (result Notebook) :=
  if negb last_file_is_file then search_loop (S max) max st
  else Some (Ok st).

(** The last cell with the notebook's cap. *)
Definition search_cell (last_file_is_file : bool) (st : Notebook)
  : option (result Notebook) :=
  search last_file_is_file MAX_DIFFERENT_SOLUTIONS st.

End Search.

(** ** Lines of text

    Strings are sequences of code points below 256. *)

Definition newline : string := String "010" EmptyString.

(** The characters at which [str.splitlines] ends a line. *)
Definition is_line_boundary (c : ascii) : bool :=
  existsb (Ascii.eqb c)
    ["010"; "011"; "012"; "013"; "028"; "029"; "030"; "133"]%char.

(** [s.splitlines()]: a carriage return followed by a line feed ends one
    line, and a line end at the end of the text opens no further line. *)
Fixpoint splitlines (s : string) : list string :=
  match s with
  | EmptyString => []
  | String c s' =>
      if is_line_boundary c then
        EmptyString ::
          match s' with
          | String c' s'' =>
              if Ascii.eqb c "013" && Ascii.eqb c' "010" then splitlines s''
              else splitlines s'
          | EmptyString => []
          end
      else
        match splitlines s' with
        | [] => [String c EmptyString]
        | w :: ws => String c w :: ws
        end
  end.

(** What [file.read()] returns for a file opened in text mode: the text
    with every line ending turned into a line feed. *)
Fixpoint universal_newlines (s : string) : string :=
  match s with
  | EmptyString => EmptyString
  | String c s' =>
      if Ascii.eqb c "013" then
        String "010"
          match s' with
          | String c' s'' =>
              if Ascii.eqb c' "010" then universal_newlines s''
              else universal_newlines s'
          | EmptyString => EmptyString
          end
      else String c (universal_newlines s')
  end.

(** No character of the string ends a line. *)
Fixpoint single_line (s : string) : bool :=
  match s with
  | EmptyString => true
  | String c s' => negb (is_line_boundary c) && single_line s'
  end.

(** ** Solution files

    The regular files of the working directory, by relative path, with the
    text they hold.  Folders are not represented: creating [Solutions] has
    no effect that the notebook observes. *)

Abbreviation disk := (gmap string string).

Definition folder_path : string := "Solutions".

(** [folder / name] *)
Definition joinpath (folder name : string) : string :=
  folder +:+ "/" +:+ name.

(** [write_optimal_solution(optimal_solution, counter_solution)] *)
Definition write_optimal_solution (optimal_solution : list string)
    (counter_solution : nat) (d : disk) : disk :=
  let file_name := joinpath folder_path (pretty counter_solution +:+ ".txt") in
  <[file_name := Str.join newline optimal_solution]> d.

(** [path.is_file()] and [os.path.exists(path)] *)
Definition is_file (d : disk) (path : string) : bool :=
  bool_decide (is_Some (d !! path)).

(** The first half of the last cell: the lines of solution file
    [file_to_read], or [None] when there is no such file. *)
Definition read_solution (d : disk) (file_to_read : nat)
  : option (list string) :=
  let file_name := "Solutions/" +:+ pretty file_to_read +:+ ".txt" in
  if is_file d file_name then
    text ← d !! file_name;
    Some (splitlines (universal_newlines text))
  else None.

(** ** The data frame *)

Module Frame.

Inductive exn := ValueError | KeyError.

Inductive result (A : Type) :=
| Ok (a : A)
| Raise (e : exn).
Arguments Ok {A} a.
Arguments Raise {A} e.

(** A frame with an index: every row with its label. *)
Abbreviation t num := (list (string * Row num)).

Section Frame.
Context {num : Type}.

(** [df['identifier'] = values] followed by
    [df.set_index('identifier')]: the column must be as long as the
    frame. *)
Definition set_index (df : list (Row num)) (values : list string)
  : result (t num) :=
  if Nat.eqb (length values) (length df) then Ok (zip values df)
  else Raise ValueError.

(** [df.loc[labels]]: for each label in turn the rows that carry it; a
    label that no row carries raises [KeyError]. *)
Fixpoint loc (df : t num) (labels : list string) : result (t num) :=
  match labels with
  | [] => Ok []
  | l :: labels' =>
      match filter (fun lr => fst lr = l) df with
      | [] => Raise KeyError
      | found =>
          match loc df labels' with
          | Ok rest => Ok (found ++ rest)
          | Raise e => Raise e
          end
      end
  end.

End Frame.

End Frame.

Section Cells.
Context {num : Type} `{!PyNum num}.

(** The end of the construction cell: the frame is indexed by the
    identifiers of the cylinders of the dictionary. *)
Definition index_frame (data_frame : list (Row num)) (h : Hierarchy num)
  : Frame.result (Frame.t num) :=
  Frame.set_index data_frame
    (map cyl_identifier (Dict.values (cylinders h))).

(** The last cell: the rows of the solution in file [file_to_read], or
    [None] for the message that the file was not found. *)
Definition print_solution (d : disk) (data_frame : Frame.t num)
    (file_to_read : nat) : Frame.result (option (Frame.t num)) :=
  match read_solution d file_to_read with
  | Some optimal_solution =>
      match Frame.loc data_frame optimal_solution with
      | Frame.Ok shown => Frame.Ok (Some shown)
      | Frame.Raise e => Frame.Raise e
      end
  | None => Frame.Ok None
  end.

Variable solve : LpProblem num → Z * assignment.
Variable h : Hierarchy num.

(** The globals of the notebook as a new execution of the search cell
    finds them: the counter starts at zero. *)
Definition restart (st : Notebook (num := num)) : Notebook :=
  {| problem := problem st;
     pulp_status_solve := pulp_status_solve st;
     values := values st;
     counter_different_solutions := 0;
     all_optimal_solutions := all_optimal_solutions st;
     files := [] |}.

(** The files written in a run, on the disk. *)
Definition write_all (written : list (nat * list string)) (d : disk) : disk :=
  foldl (fun d f => write_optimal_solution (snd f) (fst f) d) d written.

(** One execution of the search cell on a disk: nothing happens when the
    file of solution [max + 1] is there. *)
Definition search_on_disk (max : nat) (d : disk) (st : Notebook (num := num))
  : option (result (disk * Notebook (num := num))) :=
  let last_file := joinpath folder_path (pretty (max + 1) +:+ ".txt") in
  if negb (is_file d last_file) then
    match search_loop solve h (S max) max (restart st) with
    | Some (Ok st') => Some (Ok (write_all (files st') d, st'))
    | Some (Raise e) => Some (Raise e)
    | None => None
    end
  else Some (Ok (d, st)).

End Cells.

(** ** A data set with thirty-five containers

    Containers [K1] .. [K34] hold one box with one cylinder; [K35] holds
    one box with five cylinders of equal weight and volume, so that five
    selections meet the targets. *)

Module Sheet.
Import QNum.

Definition single (i : nat) : Row Q :=
  {| row_Container := "K" +:+ pretty i; row_Box := "LB_1";
     row_Cylinder := "1"; row_weight := 538%Q;
     row_volume := (14753 # 100)%Q; row_density := 1%Q |}.

Definition last (j : nat) : Row Q :=
  {| row_Container := "K35"; row_Box := "LB_1";
     row_Cylinder := pretty j; row_weight := 552%Q;
     row_volume := (14767 # 100)%Q; row_density := 1%Q |}.

Definition rows : list (Row Q) :=
  map single (seq 1 34) ++ map last (seq 1 5).

Definition items : Hierarchy Q := construct rows.

(** All containers, the only cylinder of [K1] .. [K34], and cylinder
    [j] of [K35]. *)
Definition pick (j : nat) : assignment := fun name =>
  if bool_decide (name ∈ map (fun r : Row Q => container_id r) rows) then 1%Z
  else if bool_decide (name ∈ map (fun r : Row Q => cylinder_id r)
                                (map single (seq 1 34) ++ [last j]))
  then 1%Z else 0%Z.

(** The model of this data set. *)
Definition model : LpProblem Q :=
  match build_model items with
  | Ok p => p
  | Raise _ => {| objective := Expr []; constraints := [] |}
  end.

(** What the validator is expected to return for [pick j]: the chosen
    cylinders in the order of the sorted variable names. *)
Definition answer (j : nat) : list string * list (Cylinder Q) :=
  let chosen :=
    filter (fun r : Row Q => pick j (cylinder_id r) = 1%Z) rows in
  let ids := sort_by_name (map (fun r : Row Q => cylinder_id r) chosen) in
  (ids, omap (Dict.get (cylinders items)) ids).




(** [K1] .. [K34] with their cylinders, and nothing of [K35]: a consistent
    selection of thirty-four containers. *)
Definition short : assignment := fun name =>
  if bool_decide (name ∈ map (fun r : Row Q => container_id r)
                           (map single (seq 1 34))) then 1%Z
  else if bool_decide (name ∈ map (fun r : Row Q => cylinder_id r)
                                (map single (seq 1 34)))
  then 1%Z else 0%Z.

(** A solver that answers with [pick 1], [pick 2], ... as exclusion
    constraints accumulate, and reports infeasibility after the fifth. *)
Definition solver (p : LpProblem Q) : Z * assignment :=
  let k := length (constraints p) - length (constraints model) in
  if Nat.ltb k 5 then (LpStatusOptimal, pick (S k)) else ((-1)%Z, pick 0).

(** The state in which the search cell starts on this data set. *)
Definition initial : Notebook (num := Q) := start solver model ∅.

End Sheet.

(** * Vocabulary of the statements *)

(** The identifier of a box as the validator reads it off a name. *)
Definition name_box (name : string) : option string :=
  match Str.split pipe name with
  | s0 :: s1 :: _ => Some (s0 +:+ "|" +:+ s1)
  | _ => None
  end.

(** The elements of a list in the order of their first occurrence. *)
Fixpoint first_seen (l : list string) : list string :=
  match l with
  | [] => []
  | x :: l' => x :: filter (fun y => y ≠ x) (first_seen l')
  end.

(** The boxes hanging under the containers of a dictionary. *)
Definition all_boxes (d : Dict.t Container) : list string :=
  concat (map cont_boxes (Dict.values d)).

(** A name without separator is read as a container. *)
Definition is_container_name (name : string) : bool :=
  Nat.eqb (length (Str.split pipe name)) 1.

(** The variables at one that are read as containers, and those read as
    cylinders, in the order of [variables]. *)
Definition selected_containers (a : assignment) (vars : list string)
  : list string :=
  filter (fun n => is_one a n = true ∧ is_container_name n = true) vars.

Definition selected_cylinders (a : assignment) (vars : list string)
  : list string :=
  filter (fun n => is_one a n = true ∧ is_container_name n = false) vars.

Section Vocabulary.
Context {num : Type} `{!PyNum num}.
Implicit Types (h : Hierarchy num) (p : LpProblem num) (a : assignment)
  (st : Locals (num := num)).

(** The sum of the variables with the given names. *)
Definition unit_sum (names : list string) : operand num :=
  Expr (map (fun n => (IntCoef 1, n)) names).

(** The three equalities over the whole hierarchy. *)
Definition global_constraints h : list (string * LpConstraint num) :=
  let ys := Dict.values (cylinders h) in
  [ ("Choosing exactly 35 containers.",
     {| lhs := unit_sum (map cont_identifier (Dict.values (containers h)));
        c_sense := EQ;
        rhs := Scalar (IntCoef 35) |});
    ("The selected cylinders' volume must sum to this value.",
     {| lhs := Expr (map (fun c => (NumCoef (volume c), cyl_identifier c)) ys);
        c_sense := EQ;
        rhs := Scalar (NumCoef TOTAL_VOLUME) |});
    ("The selected cylinders together must weigh this much.",
     {| lhs := Expr (map (fun c => (NumCoef (weight c), cyl_identifier c)) ys);
        c_sense := EQ;
        rhs := Scalar (IntCoef 18844) |}) ].

(** The three inequalities tying a box to its container: [c <= S],
    [|box.cylinders| * c >= S] and [S <= 1]. *)
Definition box_links (c : Container) (b : Box num)
  : list (string * LpConstraint num) :=
  let S := unit_sum (map cyl_identifier (box_cylinders b)) in
  [ ("When a container is chosen, at least one of its boxes must be used "
       +:+ box_identifier b +:+ ".",
     {| lhs := Expr [(IntCoef 1, cont_identifier c)];
        c_sense := LE; rhs := S |});
    ("When a box is used, its container must be chosen "
       +:+ box_identifier b +:+ ".",
     {| lhs := Expr [(IntCoef (Z.of_nat (length (box_cylinders b))),
                      cont_identifier c)];
        c_sense := GE; rhs := S |});
    ("Choosing at maximum one cylinder per box " +:+ box_identifier b +:+ ".",
     {| lhs := S; c_sense := LE; rhs := Scalar (IntCoef 1) |}) ].

(** The boxes of a container, as objects. *)
Definition boxes_of h (c : Container) : list (Box num) :=
  omap (Dict.get (boxes h)) (cont_boxes c).

(** Every box with its container, in the order the builder meets them. *)
Definition linked_boxes h : list (Container * Box num) :=
  flat_map (fun c => map (fun b => (c, b)) (boxes_of h c))
    (Dict.values (containers h)).

(** The model after further constraints were added to it. *)
Definition extend p (extra : list (string * LpConstraint num)) : LpProblem num :=
  {| objective := objective p; constraints := constraints p ++ extra |}.

(** The names mentioned by a list of constraints. *)
Definition mentioned (cs : list (string * LpConstraint num)) : list string :=
  concat (map (fun nc => constraint_vars (snd nc)) cs).

(** The constraint that excludes the cylinders with the given names. *)
Definition exclusion (ids : list string) : LpConstraint num :=
  {| lhs := unit_sum ids; c_sense := LE;
     rhs := Scalar (IntCoef (Z.of_nat (length ids) - 1)) |}.

(** The numeric test at the end of [evaluate_solution]. *)
Definition targets_met (st : Locals (num := num)) : bool :=
  Nat.eqb (size (used_containers st)) TOTAL_CONTAINERS
  && num_eqb (num_round DIGITS_PRECISION (sum_volumes st)) TOTAL_VOLUME
  && num_eqb (num_round DIGITS_PRECISION (sum_weights st))
       (num_of_Q (inject_Z TOTAL_WEIGHT)).

(** The three ways an iteration can go on. *)
Inductive visited h a st (name : string) : Locals (num := num) → Prop :=
| visited_skip :
    is_one a name = false → visited h a st name st
| visited_container c :
    is_one a name = true → is_container_name name = true →
    Dict.get (containers h) name = Some c →
    scan_boxes h a (cont_boxes c) false = Ok true →
    visited h a st name
      {| used_containers := {[name]} ∪ used_containers st;
         sum_volumes := sum_volumes st;
         sum_weights := sum_weights st;
         used_boxes := used_boxes st;
         chosen_cylinders_ids := chosen_cylinders_ids st;
         chosen_cylinders := chosen_cylinders st |}
| visited_cylinder y bx s :
    is_one a name = true → is_container_name name = false →
    Dict.get (cylinders h) name = Some y →
    name_box name = Some s →
    Dict.get (boxes h) (box y) = Some bx →
    is_one a (container bx) = true →
    s ∉ used_boxes st →
    visited h a st name
      {| used_containers := used_containers st;
         sum_volumes := num_add (sum_volumes st) (volume y);
         sum_weights := num_add (sum_weights st) (weight y);
         used_boxes := {[s]} ∪ used_boxes st;
         chosen_cylinders_ids := chosen_cylinders_ids st ++ [cyl_identifier y];
         chosen_cylinders := chosen_cylinders st ++ [y] |}.

End Vocabulary.

Section RunVocabulary.
Context {num : Type} `{!PyNum num}.
Variable solve : LpProblem num → Z * assignment.
Variable h : Hierarchy num.
Implicit Types (st : Notebook (num := num)).

(** The state after one more iteration (unchanged if it raises). *)
Definition advance st : Notebook :=
  match loop_body solve h st with
  | Ok (st', _) => st'
  | Raise _ => st
  end.

(** The solver reported an optimum and the validator accepts it. *)
Definition accepted_at st : bool :=
  Z.eqb (pulp_status_solve st) LpStatusOptimal
  && match fst (evaluate_solution h (problem st) (values st)
                  (all_optimal_solutions st)) with
     | Ok (Some _) => true
     | _ => false
     end.

(** The two ways an iteration can end without raising. *)
Inductive iterated st : Notebook (num := num) → bool → Prop :=
| iterated_break seen' :
    evaluate_solution h (problem st) (values st) (all_optimal_solutions st)
    = (Ok None, seen') →
    iterated st
      {| problem := problem st;
         pulp_status_solve := pulp_status_solve st;
         values := values st;
         counter_different_solutions := counter_different_solutions st;
         all_optimal_solutions := seen';
         files := files st |} false
| iterated_accept ids ys seen' :
    evaluate_solution h (problem st) (values st) (all_optimal_solutions st)
    = (Ok (Some (ids, ys)), seen') →
    ys ≠ [] →
    let problem' :=
      extend (problem st)
        [("Generating different solution "
            +:+ pretty (counter_different_solutions st),
          exclusion (map cyl_identifier ys))] in
    iterated st
      {| problem := problem';
         pulp_status_solve := fst (solve problem');
         values := snd (solve problem');
         counter_different_solutions := counter_different_solutions st + 1;
         all_optimal_solutions := seen';
         files := files st ++ [(counter_different_solutions st + 1, ids)] |}
      true.

End RunVocabulary.

(** The model of a state is the model [p0] followed by constraints over
    the variables of [p0]. *)
Definition within {num : Type} (p0 : LpProblem num)
    (st : Notebook (num := num)) : Prop :=
  ∃ extra, problem st = extend p0 extra
           ∧ ∀ x, x ∈ mentioned extra → x ∈ variables p0.

(** The state a finished run returned, and the locals a finished loop
    returned (a default otherwise). *)
Definition state_or {A} (d : A) (x : option (result A)) : A :=
  match x with Some (Ok s) => s | _ => d end.

Definition locals_or {A} (d : A) (x : result (option A)) : A :=
  match x with Ok (Some s) => s | _ => d end.

Abbreviation sheet_final :=
  (state_or Sheet.initial
     (search_loop Sheet.solver Sheet.items 3 2 Sheet.initial)).

Abbreviation sheet_short_locals :=
  (locals_or initial_locals
     (visit_all Sheet.items Sheet.short (variables Sheet.model)
        initial_locals)).

Abbreviation sheet_extra :=
  [("Generating different solution 0",
    exclusion (num := Q) (fst (Sheet.answer 1)))].

(** ** Further vocabulary *)

(** The number of variables at one among [names] under a binary
    assignment: the sum of their values. *)
Definition total (a : assignment) (names : list string) : Z :=
  foldr (fun n acc => (a n + acc)%Z) 0%Z names.

Section Weighted.
Context {num : Type} `{!PyNum num}.

(** The sum over the cylinders of a quantity times the variable. *)
Definition weighted (f : Cylinder num → num) (a : assignment)
    (ys : list (Cylinder num)) : Q :=
  foldr (fun y acc =>
           (num_to_Q (f y) * inject_Z (a (cyl_identifier y)) + acc)%Q)
    0%Q ys.

End Weighted.

Section Checker.
Context {num : Type} `{!PyNum num}.

(** Whether a constraint holds under an assignment, decided. *)
Definition holdsb (a : assignment) (c : LpConstraint num) : bool :=
  match c_sense c with
  | LE => Qle_bool (operand_value a (lhs c)) (operand_value a (rhs c))
  | EQ => Qeq_bool (operand_value a (lhs c)) (operand_value a (rhs c))
  | GE => Qle_bool (operand_value a (rhs c)) (operand_value a (lhs c))
  end.

Definition all_hold (a : assignment) (p : LpProblem num) : bool :=
  forallb (fun nc => holdsb a (snd nc)) (constraints p).

End Checker.

(** The path of the file of solution [n]. *)
Definition solution_file (n : nat) : string :=
  joinpath folder_path (pretty n +:+ ".txt").

Section SoundRuns.
Context {num : Type} `{!PyNum num}.

(** A solver is sound when every assignment it reports as optimal is
    feasible for the model it was given. *)
Definition sound (solve : LpProblem num → Z * assignment) : Prop :=
  ∀ p, fst (solve p) = LpStatusOptimal → feasible (snd (solve p)) p.

(** A solver whose answer is checked against the constraints before it is
    reported as optimal. *)
Definition checked (solve : LpProblem num → Z * assignment)
    (p : LpProblem num) : Z * assignment :=
  let '(status, a) := solve p in
  if all_hold a p then (status, a) else ((-1)%Z, a).

(** A consistent selection over the hierarchy of a sheet: every variable
    is at zero or one, thirty-five containers are at one, a container at
    one has exactly one cylinder at one in each of its boxes, and a
    container at zero has none. *)
Definition consistent (rows : list (Row num)) (a : assignment) : Prop :=
  binary a
  ∧ total a (Dict.keys (containers (construct rows)))
    = Z.of_nat TOTAL_CONTAINERS
  ∧ ∀ k (b : Box num), Dict.get (boxes (construct rows)) k = Some b →
      total a (map cyl_identifier (box_cylinders b)) = a (container b).

(** What the search needs of a solver's answers: whenever the solver
    reports an optimum for the model [p0] followed by exclusion
    constraints, its assignment is a consistent selection and satisfies
    these exclusions.  (Nothing is asked of the two equalities over
    volumes and weights, which a solver meets up to its tolerance; see
    [on_target].) *)
Definition sound_on (rows : list (Row num)) (p0 : LpProblem num)
    (solve : LpProblem num → Z * assignment) : Prop :=
  ∀ extra,
    Forall (fun nc => ∃ ids, snd nc = exclusion ids) extra →
    fst (solve (extend p0 extra)) = LpStatusOptimal →
    consistent rows (snd (solve (extend p0 extra)))
    ∧ Forall (fun nc => holds (snd (solve (extend p0 extra))) (snd nc)) extra.

(** The answers of a solver meet the targets in the arithmetic of the
    notebook: whenever it reports an optimum for the model [p0] followed
    by constraints over its variables, the volumes and the weights of the
    cylinders of the variables at one, added in the order of the
    variables and rounded, equal the two targets. *)
Definition on_target (h : Hierarchy num) (p0 : LpProblem num)
    (solve : LpProblem num → Z * assignment) : Prop :=
  ∀ extra ys,
    (∀ x, x ∈ mentioned extra → x ∈ variables p0) →
    fst (solve (extend p0 extra)) = LpStatusOptimal →
    Forall2 (fun n y => Dict.get (cylinders h) n = Some y)
      (selected_cylinders (snd (solve (extend p0 extra)))
         (variables (extend p0 extra))) ys →
    num_eqb (num_round 2 (foldl num_add (num_of_Q 0) (map volume ys)))
      TOTAL_VOLUME = true
    ∧ num_eqb (num_round 2 (foldl num_add (num_of_Q 0) (map weight ys)))
        (num_of_Q (inject_Z TOTAL_WEIGHT)) = true.

(** The states of a search over the model [p0] of the rows: the model is
    [p0] followed by the exclusion of every written solution, the status
    and the values are the solver's answer for this model, the set of seen
    solutions holds the strings of the written solutions, and every
    written solution lists the cylinders at one of a consistent
    selection. *)
Definition sound_state (solve : LpProblem num → Z * assignment)
    (rows : list (Row num)) (p0 : LpProblem num)
    (s : Notebook (num := num)) : Prop :=
  ∃ extra,
    problem s = extend p0 extra
    ∧ (∀ x, x ∈ mentioned extra → x ∈ variables p0)
    ∧ Forall2 (fun f c => snd c = exclusion (snd f)) (files s) extra
    ∧ all_optimal_solutions s
      = list_to_set (map (fun f => Str.join "," (snd f)) (files s))
    ∧ pulp_status_solve s = fst (solve (problem s))
    ∧ values s = snd (solve (problem s))
    ∧ Forall (fun f =>
        ∃ a, consistent rows a
             ∧ snd f = selected_cylinders a (variables p0)) (files s)
    ∧ length (files s) = counter_different_solutions s.

End SoundRuns.

(** ** Names inside the library

    [LpVariable] and [LpConstraint] store a name with
    [str(name).translate(trans)], where [trans] sends each character of
    ["-+[] ->/"] to an underscore.  The models above carry the names as
    the notebook gives them, which is what the library stores for names
    free of these characters. *)
Definition illegal_chars : list ascii :=
  ["-"; "+"; "["; "]"; " "; "-"; ">"; "/"]%char.

Definition illegal (c : ascii) : bool := existsb (Ascii.eqb c) illegal_chars.

Fixpoint translate (s : string) : string :=
  match s with
  | EmptyString => EmptyString
  | String c s' => String (if illegal c then "_"%char else c) (translate s')
  end.

(** No character of the string is replaced. *)
Fixpoint plain (s : string) : bool :=
  match s with
  | EmptyString => true
  | String c s' => negb (illegal c) && plain s'
  end.

(** The three labels of a row are stored as they are. *)
Definition plain_labels {num : Type} (r : Row num) : bool :=
  plain (row_Container r) && plain (row_Box r) && plain (row_Cylinder r).

(** The library stores the name as it is given: the name is not empty (of
    an empty name nothing is stored) and none of its characters is
    replaced. *)
Definition kept (s : string) : bool := negb (String.eqb s "") && plain s.

(** The variables of a model are stored under the names the model has. *)
Definition names_kept {num : Type} `{!PyNum num} (p : LpProblem num) : Prop :=
  Forall (fun x => kept x = true) (variables p).

(** The identifiers made from the rows of a sheet are stored unchanged as
    names: the container label is [kept], and the box and cylinder
    labels, which follow a separator, are [plain]. *)
Definition labels_kept {num : Type} (rows : list (Row num)) : Prop :=
  Forall (fun r => kept (row_Container r) = true
                   ∧ plain (row_Box r) = true
                   ∧ plain (row_Cylinder r) = true) rows.

(** The names the notebook gives to constraints: those of the three
    equalities, the three of a box whose identifier is [s], and the one of
    the [k]-th exclusion. *)
Definition notebook_name (x : string) : Prop :=
  x ∈ [ "Choosing exactly 35 containers.";
        "The selected cylinders' volume must sum to this value.";
        "The selected cylinders together must weigh this much." ]
  ∨ (∃ s, plain s = true
       ∧ x ∈ [ "When a container is chosen, at least one of its boxes must be used "
                 +:+ s +:+ ".";
               "When a box is used, its container must be chosen "
                 +:+ s +:+ ".";
               "Choosing at maximum one cylinder per box " +:+ s +:+ "." ])
  ∨ ∃ k : nat, x = "Generating different solution " +:+ pretty k.

Abbreviation sheet_later := (extend Sheet.model sheet_extra).
Abbreviation sheet_cell :=
  (state_or (∅ : disk, Sheet.initial)
     (search_on_disk Sheet.solver Sheet.items 2 ∅ Sheet.initial)).
Abbreviation sheet_shown :=
  (state_or (∅ : disk, Sheet.initial)
     (search_on_disk Sheet.solver (construct Sheet.rows) 2 ∅ Sheet.initial)).

(** * Properties *)

(** ** Strings *)

Lemma split_nonempty sep s : Str.split sep s ≠ [].
Proof.
  destruct s as [|c s]; simpl; [done|].
  destruct (Ascii.eqb c sep); [done|].
  by destruct (Str.split sep s).
Qed.

(** Splitting distributes over a separator placed between two strings. *)
Lemma split_app sep s t :
  Str.split sep (s +:+ String sep t) = Str.split sep s ++ Str.split sep t.
Proof.
  induction s as [|c s IH]; simpl.
  - by rewrite Ascii.eqb_refl.
  - destruct (Ascii.eqb c sep); [by rewrite IH|].
    rewrite IH. destruct (Str.split sep s) eqn:E; [|done].
    by destruct (split_nonempty sep s).
Qed.

Lemma split_free sep s : Str.free_of sep s = true → Str.split sep s = [s].
Proof.
  induction s as [|c s IH]; simpl; [done|].
  destruct (Ascii.eqb c sep); simpl; [done|].
  intros Hs. by rewrite (IH Hs).
Qed.

Lemma split_length_app (sep : ascii) (s t : string) :
  (2 ≤ length (Str.split sep (s +:+ String sep t)))%nat.
Proof.
  rewrite split_app, length_app.
  pose proof (split_nonempty sep s). pose proof (split_nonempty sep t).
  destruct (Str.split sep s), (Str.split sep t); simpl; (done || lia).
Qed.

(** Two names that extend the same prefix, itself holding a separator,
    are read as the same box. *)
Lemma name_box_prefix a b t :
  name_box ((a +:+ String pipe b) +:+ String pipe t)
  = name_box (a +:+ String pipe b).
Proof.
  unfold name_box. rewrite (split_app pipe (a +:+ String pipe b) t).
  pose proof (split_length_app pipe a b) as Hlen.
  destruct (Str.split pipe (a +:+ String pipe b)) as [|s0 [|s1 l]];
    simpl in *; (done || lia).
Qed.

(** ** Dictionaries *)

Section DictFacts.
Context {V : Type}.
Implicit Types (d : Dict.t V) (k : string) (v : V).

Lemma mem_get d k : Dict.mem d k = true ↔ is_Some (Dict.get d k).
Proof.
  unfold Dict.mem. destruct (Dict.get d k); split; intros Hm;
    (done || by destruct Hm).
Qed.

Lemma get_keys d k : is_Some (Dict.get d k) ↔ k ∈ Dict.keys d.
Proof.
  induction d as [|[k' v'] d IH]; simpl.
  - split; [by intros [? ?]|]. by intros ?%elem_of_nil.
  - destruct (String.eqb_spec k' k) as [->|Hne].
    + split; [intros _; left|by eauto].
    + rewrite IH. split; [by right|].
      intros [->|?]%elem_of_cons; done.
Qed.

Lemma get_set d k v k' :
  Dict.get (Dict.set d k v) k'
  = if decide (k = k') then Some v else Dict.get d k'.
Proof.
  induction d as [|[k0 v0] d IH]; simpl.
  - destruct (String.eqb_spec k k'); by case_decide.
  - destruct (String.eqb_spec k0 k) as [->|Hne]; simpl.
    + destruct (String.eqb_spec k k'); by case_decide.
    + destruct (String.eqb_spec k0 k') as [->|Hne'].
      * by case_decide; [congruence|].
      * apply IH.
Qed.

Lemma get_alter (f : V → V) d k k' :
  Dict.get (Dict.alter f d k) k'
  = if decide (k = k') then f <$> Dict.get d k' else Dict.get d k'.
Proof.
  induction d as [|[k0 v0] d IH]; simpl.
  - by case_decide.
  - destruct (String.eqb_spec k0 k) as [->|Hne]; simpl.
    + destruct (String.eqb_spec k k'); by case_decide.
    + destruct (String.eqb_spec k0 k') as [->|Hne'].
      * by case_decide; [congruence|].
      * apply IH.
Qed.

Lemma keys_set d k v :
  Dict.keys (Dict.set d k v)
  = if Dict.mem d k then Dict.keys d else Dict.keys d ++ [k].
Proof.
  unfold Dict.mem. induction d as [|[k0 v0] d IH]; simpl; [done|].
  destruct (String.eqb_spec k0 k) as [->|Hne]; simpl; [done|].
  rewrite IH. by destruct (Dict.get d k).
Qed.

Lemma keys_alter (f : V → V) d k : Dict.keys (Dict.alter f d k) = Dict.keys d.
Proof.
  induction d as [|[k0 v0] d IH]; simpl; [done|].
  destruct (String.eqb k0 k); simpl; by rewrite ?IH.
Qed.

Lemma values_get d v : v ∈ Dict.values d → ∃ k, k ∈ Dict.keys d ∧
  (NoDup (Dict.keys d) → Dict.get d k = Some v).
Proof.
  induction d as [|[k0 v0] d IH]; simpl; [by intros ?%elem_of_nil|].
  intros [->|Hin]%elem_of_cons.
  - exists k0. split; [left|]. intros _. by rewrite String.eqb_refl.
  - destruct (IH Hin) as (k & Hk & Hget). exists k. split; [by right|].
    intros [Hnot Hnd]%NoDup_cons.
    destruct (String.eqb_spec k0 k) as [->|_]; [done|]. by apply Hget.
Qed.

End DictFacts.

(** ** First-seen order *)

Lemma elem_of_first_seen x l : x ∈ first_seen l ↔ x ∈ l.
Proof.
  induction l as [|a l IH]; simpl; [done|].
  rewrite !elem_of_cons, list_elem_of_filter, IH.
  destruct (decide (x = a)) as [->|Hne]; [split; by eauto|].
  split; [intros [?|[_ ?]]; by eauto|]. intros [?|?]; by eauto.
Qed.

Lemma first_seen_snoc l x :
  first_seen (l ++ [x])
  = if decide (x ∈ l) then first_seen l else first_seen l ++ [x].
Proof.
  induction l as [|a l IH]; simpl.
  - destruct (decide (x ∈ [])) as [Hx|_]; [by apply elem_of_nil in Hx|done].
  - rewrite IH. destruct (decide (x ∈ l)) as [Hin|Hnin].
    + rewrite decide_True; [done|by right].
    + rewrite filter_app. destruct (decide (x = a)) as [->|Hne].
      * rewrite decide_True; [|left].
        rewrite filter_cons_False, filter_nil, app_nil_r; [done|]. by intros ?.
      * rewrite decide_False; [|by intros [?|?]%elem_of_cons].
        by rewrite filter_cons_True, filter_nil.
Qed.

Lemma first_seen_NoDup l : NoDup (first_seen l).
Proof.
  induction l as [|a l IH]; simpl; [constructor|].
  constructor; [|by apply NoDup_filter].
  rewrite list_elem_of_filter. by intros [Hne _].
Qed.

(** ** The hierarchy built from the rows *)

Section ConstructionFacts.
Context {num : Type}.
Implicit Types (h : Hierarchy num) (r : Row num) (rows : list (Row num)).

(** What one row does to each dictionary, seen through lookups. *)
Lemma construct_row_containers h r k :
  Dict.get (containers (construct_row h r)) k
  = if decide (container_id r = k) then
      let old := default {| cont_identifier := container_id r;
                            cont_boxes := [] |}
                   (Dict.get (containers h) k) in
      Some (if Dict.mem (boxes h) (box_id r) then old
            else cont_append (box_id r) old)
    else Dict.get (containers h) k.
Proof.
  unfold construct_row.
  destruct (Dict.mem (containers h) (container_id r)) eqn:Hc;
    destruct (Dict.mem (boxes h) (box_id r)) eqn:Hb; simpl;
    rewrite ?get_alter, ?get_set; case_decide as Hk; subst; simpl; try done.
  - apply mem_get in Hc as [c Hc]. by rewrite Hc.
  - apply mem_get in Hc as [c Hc]. by rewrite Hc.
  - destruct (Dict.get (containers h) (container_id r)) eqn:E; [|done].
    assert (Dict.mem (containers h) (container_id r) = true) as Hm
      by (apply mem_get; eauto). congruence.
  - destruct (Dict.get (containers h) (container_id r)) eqn:E; [|done].
    assert (Dict.mem (containers h) (container_id r) = true) as Hm
      by (apply mem_get; eauto). congruence.
Qed.

Lemma construct_row_boxes h r k :
  Dict.get (boxes (construct_row h r)) k
  = if decide (box_id r = k) then
      Some (box_append (row_cylinder r)
              (default {| box_identifier := box_id r; box_cylinders := [];
                          container := container_id r |}
                 (Dict.get (boxes h) k)))
    else Dict.get (boxes h) k.
Proof.
  unfold construct_row.
  destruct (Dict.mem (boxes h) (box_id r)) eqn:Hb; simpl;
    rewrite ?get_alter, ?get_set; case_decide as Hk; subst; simpl; try done.
  - apply mem_get in Hb as [b Hb]. by rewrite Hb.
  - destruct (Dict.get (boxes h) (box_id r)) eqn:E; [|done].
    assert (Dict.mem (boxes h) (box_id r) = true) as Hm
      by (apply mem_get; eauto). congruence.
Qed.

Lemma construct_row_cylinders h r k :
  Dict.get (cylinders (construct_row h r)) k
  = if decide (cylinder_id r = k) then Some (row_cylinder r)
    else Dict.get (cylinders h) k.
Proof.
  unfold construct_row.
  destruct (Dict.mem (boxes h) (box_id r)); simpl; apply get_set.
Qed.

Lemma construct_snoc rows r :
  construct (rows ++ [r]) = construct_row (construct rows) r.
Proof. unfold construct, construct_from. by rewrite fold_left_app. Qed.

(** Keys appear in first-seen order. *)
Lemma construct_row_container_keys h r :
  Dict.keys (containers (construct_row h r))
  = if Dict.mem (containers h) (container_id r) then Dict.keys (containers h)
    else Dict.keys (containers h) ++ [container_id r].
Proof.
  unfold construct_row.
  destruct (Dict.mem (containers h) (container_id r)) eqn:Hc;
    destruct (Dict.mem (boxes h) (box_id r)); simpl;
    rewrite ?keys_alter, ?keys_set, ?Hc; done.
Qed.

Lemma construct_row_box_keys h r :
  Dict.keys (boxes (construct_row h r))
  = if Dict.mem (boxes h) (box_id r) then Dict.keys (boxes h)
    else Dict.keys (boxes h) ++ [box_id r].
Proof.
  unfold construct_row.
  destruct (Dict.mem (boxes h) (box_id r)) eqn:Hb; simpl;
    rewrite ?keys_alter, ?keys_set, ?Hb; done.
Qed.

Lemma construct_row_cylinder_keys h r :
  Dict.keys (cylinders (construct_row h r))
  = if Dict.mem (cylinders h) (cylinder_id r) then Dict.keys (cylinders h)
    else Dict.keys (cylinders h) ++ [cylinder_id r].
Proof.
  unfold construct_row.
  destruct (Dict.mem (boxes h) (box_id r)); simpl; apply keys_set.
Qed.

Lemma keys_first_seen {V} (d : Dict.t V) (l : list string) (x : string) :
  Dict.keys d = first_seen l →
  (if Dict.mem d x then Dict.keys d else Dict.keys d ++ [x])
  = first_seen (l ++ [x]).
Proof.
  intros Hk. rewrite first_seen_snoc.
  destruct (Dict.mem d x) eqn:Hm.
  - rewrite decide_True; [done|].
    apply elem_of_first_seen. rewrite <- Hk. by apply get_keys, mem_get.
  - rewrite decide_False; [by rewrite Hk|].
    intros Hin%elem_of_first_seen. rewrite <- Hk in Hin.
    apply get_keys, mem_get in Hin. congruence.
Qed.

Lemma construct_keys rows :
  Dict.keys (containers (construct rows))
    = first_seen (map container_id rows)
  ∧ Dict.keys (boxes (construct rows)) = first_seen (map box_id rows)
  ∧ Dict.keys (cylinders (construct rows))
    = first_seen (map cylinder_id rows).
Proof.
  induction rows as [|r rows IH] using rev_ind; [done|].
  destruct IH as (IHc & IHb & IHy).
  rewrite construct_snoc, !map_app. simpl.
  rewrite construct_row_container_keys, construct_row_box_keys,
    construct_row_cylinder_keys.
  by rewrite (keys_first_seen _ _ _ IHc), (keys_first_seen _ _ _ IHb),
    (keys_first_seen _ _ _ IHy).
Qed.

End ConstructionFacts.

Section ConstructionInvariants.
Context {num : Type}.
Implicit Types (h : Hierarchy num) (r : Row num) (rows : list (Row num)).

Lemma get_None_filter rows k :
  Dict.get (boxes (construct rows)) k = None →
  filter (fun r => box_id r = k) rows = [].
Proof.
  intros Hget.
  destruct (filter (fun r => box_id r = k) rows) as [|r l] eqn:E; [done|].
  assert (r ∈ filter (fun r => box_id r = k) rows) as Hin
    by (rewrite E; left).
  apply list_elem_of_filter in Hin as [Heq Hr].
  assert (k ∈ Dict.keys (boxes (construct rows))) as Hk.
  { destruct (construct_keys rows) as (_ & -> & _).
    apply elem_of_first_seen, list_elem_of_fmap. by exists r. }
  apply get_keys in Hk as [b Hb]. congruence.
Qed.

(** A box object: its identifier is its key, and its cylinders are the
    rows of that box, in input order, one cylinder per row. *)
Lemma construct_boxes rows k (b : Box num) :
  Dict.get (boxes (construct rows)) k = Some b →
  box_identifier b = k
  ∧ box_cylinders b = map row_cylinder (filter (fun r => box_id r = k) rows)
  ∧ container b ∈ map container_id rows.
Proof.
  revert b. induction rows as [|r rows IH] using rev_ind; intros b; [done|].
  rewrite construct_snoc, construct_row_boxes, filter_app, !map_app.
  case_decide as Hk.
  - intros [= <-]. subst k.
    rewrite filter_cons_True, filter_nil by done.
    destruct (Dict.get (boxes (construct rows)) (box_id r)) as [b0|] eqn:E;
      simpl.
    + destruct (IH b0 eq_refl) as (Hid & Hcyl & Hcont).
      split_and!; [done|by rewrite Hcyl|]. apply elem_of_app. by left.
    + rewrite (get_None_filter _ _ E). split_and!; [done..|].
      apply elem_of_app. right. simpl. left.
  - intros Hget. destruct (IH b Hget) as (Hid & Hcyl & Hcont).
    rewrite filter_cons_False, filter_nil, app_nil_r by done.
    split_and!; [done..|]. apply elem_of_app. by left.
Qed.

(** A cylinder object is the cylinder of one of the rows. *)
Lemma construct_cylinders rows k (c : Cylinder num) :
  Dict.get (cylinders (construct rows)) k = Some c →
  ∃ r, r ∈ rows ∧ c = row_cylinder r ∧ cylinder_id r = k.
Proof.
  induction rows as [|r rows IH] using rev_ind; [done|].
  rewrite construct_snoc, construct_row_cylinders.
  case_decide as Hk.
  - intros [= <-]. exists r. split_and!; [|done..].
    apply elem_of_app. right. left.
  - intros (r' & Hr' & Hc & Hid)%IH. exists r'. split_and!; [|done..].
    apply elem_of_app. by left.
Qed.

(** A container object: its identifier is its key, and each of its boxes
    is a box object that points back to it. *)
Lemma construct_containers rows k (c : Container) :
  Dict.get (containers (construct rows)) k = Some c →
  cont_identifier c = k
  ∧ ∀ b, b ∈ cont_boxes c →
      ∃ bx : Box num,
        Dict.get (boxes (construct rows)) b = Some bx ∧ container bx = k.
Proof.
  revert k c. induction rows as [|r rows IH] using rev_ind; intros k c;
    [done|].
  rewrite construct_snoc, construct_row_containers.
  assert (∀ k0 (c0 : Container) b,
    (cont_identifier c0 = k0 ∧ ∀ b, b ∈ cont_boxes c0 →
      ∃ bx : Box num,
        Dict.get (boxes (construct rows)) b = Some bx ∧ container bx = k0) →
    b ∈ cont_boxes c0 →
    ∃ bx : Box num,
      Dict.get (boxes (construct_row (construct rows) r)) b = Some bx
      ∧ container bx = k0) as Hkeep.
  { intros k0 c0 b [_ Hold] (bx & Hbx & Hcont)%Hold.
    rewrite construct_row_boxes. case_decide; [|by eauto].
    rewrite Hbx. simpl. by eauto. }
  set (fresh := {| cont_identifier := container_id r; cont_boxes := [] |}).
  assert (∀ old : Container,
    old = default fresh (Dict.get (containers (construct rows)) k) →
    container_id r = k →
    cont_identifier old = k ∧ ∀ b, b ∈ cont_boxes old →
      ∃ bx : Box num,
        Dict.get (boxes (construct rows)) b = Some bx ∧ container bx = k)
    as Hold.
  { intros old -> <-.
    destruct (Dict.get (containers (construct rows)) (container_id r))
      as [c0|] eqn:E; simpl; [by apply IH|].
    split; [done|]. by intros b ?%elem_of_nil. }
  case_decide as Hk.
  - intros [= <-]. specialize (Hold _ eq_refl Hk).
    destruct (Dict.mem (boxes (construct rows)) (box_id r)) eqn:Hb.
    + split; [by apply Hold|]. intros b Hin. by eapply Hkeep.
    + split; [by apply Hold|]. simpl. intros b [Hin| ->%list_elem_of_singleton]%elem_of_app.
      * by eapply Hkeep.
      * rewrite construct_row_boxes, decide_True by done.
        eexists. split; [done|]. simpl.
        destruct (Dict.get (boxes (construct rows)) (box_id r)) eqn:E;
          [|done].
        assert (Dict.mem (boxes (construct rows)) (box_id r) = true)
          by (apply mem_get; eauto). congruence.
  - intros Hget. split; [by apply (IH k c)|].
    intros b Hin. eapply Hkeep; [by apply IH|done].
Qed.

Lemma all_boxes_set (d : Dict.t Container) k v :
  Dict.mem d k = false → all_boxes (Dict.set d k v) = all_boxes d ++ cont_boxes v.
Proof.
  unfold Dict.mem, all_boxes. induction d as [|[k0 v0] d IH]; simpl.
  - intros _. by rewrite app_nil_r.
  - destruct (String.eqb k0 k); [done|]. simpl. intros Hm.
    by rewrite IH, app_assoc.
Qed.

Lemma all_boxes_alter (d : Dict.t Container) k b :
  Dict.mem d k = true →
  all_boxes (Dict.alter (cont_append b) d k) ≡ₚ b :: all_boxes d.
Proof.
  unfold Dict.mem, all_boxes. induction d as [|[k0 v0] d IH]; simpl; [done|].
  destruct (String.eqb k0 k); simpl.
  - intros _. rewrite <- app_assoc. simpl.
    by rewrite <- Permutation_middle.
  - intros Hm. rewrite (IH Hm). by rewrite <- Permutation_middle.
Qed.

(** Every box object hangs under exactly one container. *)
Lemma construct_boxes_perm rows :
  all_boxes (containers (construct rows))
  ≡ₚ Dict.keys (boxes (construct (num := num) rows)).
Proof.
  induction rows as [|r rows IH] using rev_ind; [done|].
  rewrite construct_snoc. set (h := construct rows) in *.
  rewrite construct_row_box_keys. unfold construct_row.
  destruct (Dict.mem (boxes h) (box_id r)) eqn:Hb; simpl.
  - destruct (Dict.mem (containers h) (container_id r)) eqn:Hc; [done|].
    rewrite all_boxes_set by done. simpl. by rewrite app_nil_r.
  - rewrite <- Permutation_cons_append.
    destruct (Dict.mem (containers h) (container_id r)) eqn:Hc.
    + rewrite all_boxes_alter by done. by rewrite IH.
    + rewrite all_boxes_alter.
      * rewrite all_boxes_set by done. simpl. by rewrite app_nil_r, IH.
      * apply mem_get. rewrite get_set, decide_True by done. by eauto.
Qed.

End ConstructionInvariants.

(** ** The constraints of the model *)

Section ModelFacts.
Context {num : Type} `{!PyNum num}.
Implicit Types (h : Hierarchy num) (p : LpProblem num).

Lemma extend_nil p : extend p [] = p.
Proof. destruct p. unfold extend. simpl. by rewrite app_nil_r. Qed.

Lemma extend_extend p e1 e2 : extend (extend p e1) e2 = extend p (e1 ++ e2).
Proof. unfold extend. simpl. by rewrite app_assoc. Qed.

Lemma add_constraint p c name :
  add p (Constraint c) name = Ok (extend p [(name, c)]).
Proof. done. Qed.

Lemma sum_variables_cons n names :
  sum_variables (n :: names) = unit_sum (n :: names).
Proof. done. Qed.

Lemma link_box_ok (c : Container) (b : Box num) p :
  box_cylinders b ≠ [] → link_box c b p = Ok (extend p (box_links c b)).
Proof.
  intros Hne. unfold link_box, box_links.
  destruct (box_cylinders b) as [|y ys] eqn:E; [done|].
  cbn [map length]. rewrite sum_variables_cons. cbn [mbind result_bind].
  unfold extend. simpl. by rewrite <- !app_assoc.
Qed.


Lemma link_boxes_ok h (c : Container) bs p :
  Forall (fun k => ∃ b, Dict.get (boxes h) k = Some b ∧ box_cylinders b ≠ [])
    bs →
  link_boxes h c bs p
  = Ok (extend p (flat_map (box_links c) (omap (Dict.get (boxes h)) bs))).
Proof.
  intros Hbs. revert p. induction Hbs as [|k bs (b & Hb & Hne) _ IH]; intros p.
  - simpl. by rewrite extend_nil.
  - simpl. unfold subscript. rewrite Hb. cbn [mbind result_bind].
    rewrite (link_box_ok _ _ _ Hne). cbn [mbind result_bind].
    by rewrite IH, extend_extend.
Qed.

Lemma link_containers_ok h (cs : list Container) p :
  Forall (fun c => Forall (fun k =>
    ∃ b, Dict.get (boxes h) k = Some b ∧ box_cylinders b ≠ [])
    (cont_boxes c)) cs →
  link_containers h cs p
  = Ok (extend p (flat_map (fun c => flat_map (box_links c) (boxes_of h c)) cs)).
Proof.
  intros Hcs. revert p. induction Hcs as [|c cs Hc _ IH]; intros p.
  - simpl. by rewrite extend_nil.
  - simpl. rewrite (link_boxes_ok _ _ _ _ Hc). cbn [mbind result_bind].
    by rewrite IH, extend_extend.
Qed.

Lemma flat_map_linked h :
  flat_map (fun c => flat_map (box_links c) (boxes_of h c))
    (Dict.values (containers h))
  = flat_map (fun cb => box_links (fst cb) (snd cb)) (linked_boxes h).
Proof.
  unfold linked_boxes.
  induction (Dict.values (containers h)) as [|c cs IH]; simpl; [done|].
  rewrite flat_map_app, IH. f_equal.
  induction (boxes_of h c) as [|b bs IHb]; simpl; [done|]. by rewrite IHb.
Qed.

End ModelFacts.

Section VariablesFacts.
Context {num : Type} `{!PyNum num}.
Implicit Types (h : Hierarchy num) (p : LpProblem num)
  (rows : list (Row num)).

Lemma elem_of_insert_by_name x y l : x ∈ insert_by_name y l ↔ x = y ∨ x ∈ l.
Proof.
  induction l as [|z l IH]; simpl.
  - rewrite list_elem_of_singleton, elem_of_nil. tauto.
  - destruct (Str.le y z); rewrite !elem_of_cons, ?IH; tauto.
Qed.

Lemma elem_of_sort_by_name x l : x ∈ sort_by_name l ↔ x ∈ l.
Proof.
  induction l as [|y l IH]; simpl; [done|].
  by rewrite elem_of_insert_by_name, elem_of_cons, IH.
Qed.

Lemma elem_of_variables x p :
  x ∈ variables p
  ↔ x ∈ operand_vars (objective p) ∨ x ∈ mentioned (constraints p).
Proof.
  unfold variables.
  by rewrite elem_of_sort_by_name, elem_of_remove_dups, elem_of_app.
Qed.

Lemma mentioned_app (cs1 cs2 : list (string * LpConstraint num)) :
  mentioned (cs1 ++ cs2) = mentioned cs1 ++ mentioned cs2.
Proof. unfold mentioned. by rewrite map_app, concat_app. Qed.

Lemma elem_of_variables_extend x p extra :
  x ∈ variables (extend p extra) ↔ x ∈ variables p ∨ x ∈ mentioned extra.
Proof.
  rewrite !elem_of_variables. unfold extend. simpl.
  rewrite mentioned_app, elem_of_app. tauto.
Qed.

Lemma unit_sum_vars names :
  operand_vars (unit_sum (num := num) names) = names.
Proof.
  unfold unit_sum. simpl. rewrite map_map. simpl. apply map_id.
Qed.

Lemma mentioned_box_links x (c : Container) (b : Box num) :
  x ∈ mentioned (box_links c b)
  ↔ x = cont_identifier c ∨ x ∈ map cyl_identifier (box_cylinders b).
Proof.
  unfold mentioned, box_links, constraint_vars. cbn [map concat snd lhs rhs].
  rewrite !unit_sum_vars. simpl. rewrite !app_nil_r.
  rewrite !elem_of_cons, !elem_of_app, !elem_of_cons, ?elem_of_app. tauto.
Qed.

Lemma mentioned_flat_map {A} (f : A → list (string * LpConstraint num)) l x :
  x ∈ mentioned (flat_map f l) ↔ ∃ y, y ∈ l ∧ x ∈ mentioned (f y).
Proof.
  induction l as [|y l IH]; simpl.
  - split; [by intros ?%elem_of_nil|]. by intros (? & ?%elem_of_nil & _).
  - rewrite mentioned_app, elem_of_app, IH. split.
    + intros [Hx|(z & Hz & Hx)]; [exists y|exists z];
        (split; [|done]); [left|by right].
    + intros (z & [->|Hz]%elem_of_cons & Hx); [by left|]. right. by exists z.
Qed.

Lemma mentioned_global x h :
  x ∈ mentioned (global_constraints h)
  ↔ x ∈ map cont_identifier (Dict.values (containers h))
    ∨ x ∈ map cyl_identifier (Dict.values (cylinders h)).
Proof.
  unfold mentioned, global_constraints, constraint_vars.
  cbn [map concat snd lhs rhs]. rewrite unit_sum_vars. simpl.
  rewrite !map_map. simpl. rewrite !app_nil_r, !elem_of_app. tauto.
Qed.

End VariablesFacts.

Section BuiltModel.
Context {num : Type} `{!PyNum num}.
Implicit Types (rows : list (Row num)).

Lemma values_keys {V} (f : V → string) (d : Dict.t V) :
  (∀ k v, Dict.get d k = Some v → f v = k) → NoDup (Dict.keys d) →
  map f (Dict.values d) = Dict.keys d.
Proof.
  induction d as [|[k0 v0] d IH]; simpl; [done|].
  intros Hf [Hnot Hnd]%NoDup_cons. f_equal.
  - apply Hf. by rewrite String.eqb_refl.
  - apply IH; [|done]. intros k v Hget. apply Hf.
    destruct (String.eqb_spec k0 k) as [->|_]; [|done].
    destruct Hnot. apply get_keys. by eauto.
Qed.

Lemma construct_NoDup rows :
  NoDup (Dict.keys (containers (construct rows)))
  ∧ NoDup (Dict.keys (boxes (construct rows)))
  ∧ NoDup (Dict.keys (cylinders (construct rows))).
Proof.
  destruct (construct_keys rows) as (-> & -> & ->).
  split_and!; apply first_seen_NoDup.
Qed.

Lemma container_names rows :
  map cont_identifier (Dict.values (containers (construct rows)))
  = Dict.keys (containers (construct rows)).
Proof.
  apply values_keys; [|apply construct_NoDup].
  intros k v Hget. by apply (construct_containers rows k v).
Qed.

Lemma cylinder_names rows :
  map cyl_identifier (Dict.values (cylinders (construct rows)))
  = Dict.keys (cylinders (construct rows)).
Proof.
  apply values_keys; [|apply construct_NoDup].
  intros k v (r & _ & -> & <-)%construct_cylinders. done.
Qed.

Lemma box_cylinders_rows rows k (b : Box num) y :
  Dict.get (boxes (construct rows)) k = Some b → y ∈ box_cylinders b →
  ∃ r, r ∈ rows ∧ y = row_cylinder r ∧ box_id r = k.
Proof.
  intros (_ & Hcyl & _)%construct_boxes. rewrite Hcyl.
  intros (r & -> & [Hk Hr]%list_elem_of_filter)%list_elem_of_fmap.
  by exists r.
Qed.

Lemma box_nonempty rows k (b : Box num) :
  Dict.get (boxes (construct rows)) k = Some b → box_cylinders b ≠ [].
Proof.
  intros Hget Hnil.
  assert (k ∈ Dict.keys (boxes (construct rows))) as Hk
    by (apply get_keys; eauto).
  destruct (construct_keys rows) as (_ & Hb & _). rewrite Hb in Hk.
  apply elem_of_first_seen, list_elem_of_fmap in Hk as (r & -> & Hr).
  apply construct_boxes in Hget as (_ & Hcyl & _).
  rewrite Hnil in Hcyl. symmetry in Hcyl. apply map_eq_nil in Hcyl.
  by destruct (filter_nil_not_elem_of _ _ r Hcyl eq_refl).
Qed.

Lemma values_lookup {V} (d : Dict.t V) v :
  NoDup (Dict.keys d) → v ∈ Dict.values d → ∃ k, Dict.get d k = Some v.
Proof.
  intros Hnd (k & _ & Hget)%values_get. exists k. by apply Hget.
Qed.

(** With at least one row, the builder completes, and the model is the
    three equalities followed by the three inequalities of every box. *)
Lemma build_model_construct rows :
  rows ≠ [] →
  build_model (construct rows)
  = Ok {| objective := Expr [];
          constraints :=
            global_constraints (construct rows)
              ++ flat_map (fun cb => box_links (fst cb) (snd cb))
                   (linked_boxes (construct rows)) |}.
Proof.
  intros Hne. set (h := construct rows).
  assert (Dict.values (containers h) ≠ []) as Hcs.
  { intros Hnil. pose proof (container_names rows) as Hn. fold h in Hn.
    rewrite Hnil in Hn. destruct (construct_keys rows) as (Hk & _).
    fold h in Hk. rewrite Hk in Hn. destruct rows; done. }
  assert (Dict.values (cylinders h) ≠ []) as Hys.
  { intros Hnil. pose proof (cylinder_names rows) as Hn. fold h in Hn.
    rewrite Hnil in Hn. destruct (construct_keys rows) as (_ & _ & Hk).
    fold h in Hk. rewrite Hk in Hn. destruct rows; done. }
  unfold build_model.
  destruct (Dict.values (containers h)) as [|c cs] eqn:Ec; [done|].
  destruct (Dict.values (cylinders h)) as [|y ys] eqn:Ey; [done|].
  cbn [map]. rewrite !sum_variables_cons.
  cbn [mbind result_bind compare add times_zero plus unit_sum
         volume_weight_times_cylinders_vars app constraints objective].
  rewrite <- Ec. rewrite link_containers_ok.
  - rewrite flat_map_linked. unfold extend, global_constraints.
    rewrite Ey, Ec. done.
  - apply Forall_forall. intros c0 Hc0. apply Forall_forall. intros k Hk.
    apply values_lookup in Hc0 as [k0 Hget]; [|apply construct_NoDup].
    apply construct_containers in Hget as [_ Hb].
    destruct (Hb k Hk) as (bx & Hbx & _). exists bx. split; [done|].
    by eapply box_nonempty.
Qed.

(** The names of the model's variables are the identifiers of the
    containers and of the cylinders. *)
Lemma variables_construct rows x :
  rows ≠ [] →
  x ∈ mentioned (global_constraints (construct rows)
                   ++ flat_map (fun cb => box_links (fst cb) (snd cb))
                        (linked_boxes (construct rows)))
  ↔ x ∈ Dict.keys (containers (construct rows))
    ∨ x ∈ Dict.keys (cylinders (construct rows)).
Proof.
  intros Hne. rewrite mentioned_app, elem_of_app, mentioned_global,
    container_names, cylinder_names, mentioned_flat_map.
  split; [|tauto]. intros [H|([c b] & Hin & Hx)]; [done|].
  unfold linked_boxes in Hin.
  apply list_elem_of_In, in_flat_map in Hin as (c' & Hc' & Hin).
  apply list_elem_of_In in Hc'.
  apply list_elem_of_In, list_elem_of_fmap in Hin as (b' & [= -> ->] & Hb).
  apply values_lookup in Hc' as [k Hget]; [|apply construct_NoDup].
  apply mentioned_box_links in Hx as [->|Hx]; simpl.
  - left. destruct (construct_containers _ _ _ Hget) as [-> _].
    apply get_keys. by eauto.
  - right. unfold boxes_of in Hb.
    apply list_elem_of_omap in Hb as (kb & _ & Hkb).
    apply list_elem_of_fmap in Hx as (y & -> & Hy).
    destruct (box_cylinders_rows _ _ _ _ Hkb Hy) as (r & Hr & -> & _).
    destruct (construct_keys rows) as (_ & _ & ->).
    apply elem_of_first_seen, list_elem_of_fmap. by exists r.
Qed.

End BuiltModel.

(** ** The validator *)

Section ValidatorFacts.
Context {num : Type} `{!PyNum num}.
Implicit Types (h : Hierarchy num) (a : assignment) (st : Locals (num := num)).

Lemma visit_Some h a st name st' :
  visit h a st name = Ok (Some st') → visited h a st name st'.
Proof.
  unfold visit. destruct (is_one a name) eqn:Hone.
  2:{ intros [= <-]. by constructor. }
  fold (is_container_name name).
  destruct (is_container_name name) eqn:Hkind.
  - unfold subscript.
    destruct (Dict.get (containers h) name) as [c|] eqn:Hc; [|done].
    cbn [mbind result_bind].
    destruct (scan_boxes h a (cont_boxes c) false) as [[|]|] eqn:Hscan;
      cbn [mbind result_bind negb]; [|done..].
    intros [= <-]. by econstructor.
  - unfold subscript.
    destruct (Dict.get (cylinders h) name) as [y|] eqn:Hy; [|done].
    cbn [mbind result_bind].
    destruct (Str.split pipe name) as [|s0 [|s1 l]] eqn:Hsplit;
      cbn [mbind result_bind]; try done.
    destruct (Dict.get (boxes h) (box y)) as [bx|] eqn:Hbx; [|done].
    cbn [mbind result_bind].
    destruct (is_one a (container bx)) eqn:Hup; cbn [negb]; [|done].
    case_bool_decide as Hfresh; [|done].
    intros [= <-]. eapply visited_cylinder; try done.
    unfold name_box. by rewrite Hsplit.
Qed.

End ValidatorFacts.

Section ValidatorLoop.
Context {num : Type} `{!PyNum num}.
Implicit Types (h : Hierarchy num) (a : assignment) (st : Locals (num := num)).

Lemma is_one_true a n : is_one a n = true ↔ a n = 1%Z.
Proof. apply Z.eqb_eq. Qed.

Lemma scan_cylinders_true a (cs : list (Cylinder num)) flag :
  scan_cylinders a cs flag = true →
  flag = true ∨ ∃ y, y ∈ cs ∧ a (cyl_identifier y) = 1%Z.
Proof.
  induction cs as [|y cs IH]; simpl; [by left|].
  destruct (is_one a (cyl_identifier y)) eqn:Hy.
  - intros _. right. exists y. split; [left|by apply is_one_true].
  - intros [?|(y' & Hin & Hone)]%IH; [by left|].
    right. exists y'. split; [by right|done].
Qed.

Lemma scan_boxes_true h a bs flag :
  scan_boxes h a bs flag = Ok true →
  flag = true ∨ ∃ k bx y, k ∈ bs ∧ Dict.get (boxes h) k = Some bx
    ∧ y ∈ box_cylinders bx ∧ a (cyl_identifier y) = 1%Z.
Proof.
  revert flag. induction bs as [|k bs IH]; intros flag; simpl.
  - intros [= ->]. by left.
  - unfold subscript. destruct (Dict.get (boxes h) k) as [bx|] eqn:Hk; [|done].
    cbn [mbind result_bind].
    intros [Hflag|(k' & bx' & y & Hin & Hget & Hy & Hone)]%IH.
    + apply scan_cylinders_true in Hflag as [?|(y & Hy & Hone)]; [by left|].
      right. exists k, bx, y. split_and!; [left|done..].
    + right. exists k', bx', y. split_and!; [by right|done..].
Qed.

(** What the locals hold once every variable has been visited. *)
Lemma visit_all_Some h a vars st st' :
  visit_all h a vars st = Ok (Some st') →
  ∃ ys,
    Forall2 (fun n y => Dict.get (cylinders h) n = Some y)
      (selected_cylinders a vars) ys
    ∧ used_containers st'
      = list_to_set (selected_containers a vars) ∪ used_containers st
    ∧ sum_volumes st' = foldl num_add (sum_volumes st) (map volume ys)
    ∧ sum_weights st' = foldl num_add (sum_weights st) (map weight ys)
    ∧ chosen_cylinders_ids st'
      = chosen_cylinders_ids st ++ map cyl_identifier ys
    ∧ chosen_cylinders st' = chosen_cylinders st ++ ys.
Proof.
  unfold selected_containers, selected_cylinders.
  revert st. induction vars as [|n vars IH]; intros st; simpl.
  - intros [= <-]. exists []. simpl. rewrite !app_nil_r, filter_nil.
    split_and!; [constructor| |done..].
    by rewrite ?list_to_set_nil, (left_id_L ∅ (∪)).
  - destruct (visit h a st n) as [[st1|]|] eqn:Hv; cbn [mbind result_bind];
      [|done..].
    intros (ys & Hys & Hc & Hsv & Hsw & Hids & Hcyl)%IH.
    apply visit_Some in Hv.
    destruct Hv as [Hone|c Hone Hkind Hget Hscan|y bx s Hone Hkind Hget Hs Hbx Hup Hfresh].
    + rewrite !filter_cons_False by (rewrite Hone; by intros [? _]).
      exists ys. by split_and!.
    + rewrite filter_cons_False by (rewrite Hkind; by intros [_ ?]).
      rewrite filter_cons_True by (by split).
      exists ys. simpl in *. split_and!; [done| |done..].
      rewrite Hc. set_solver.
    + rewrite filter_cons_True by (by split).
      rewrite filter_cons_False by (rewrite Hkind; by intros [_ ?]).
      exists (y :: ys). simpl in *.
      rewrite <- !app_assoc in *. split_and!; try done. by constructor.
Qed.

(** The structural checks every visited variable has passed. *)
Lemma visit_all_structure h a vars st st' :
  visit_all h a vars st = Ok (Some st') →
  (∀ n, n ∈ selected_containers a vars →
     ∃ c, Dict.get (containers h) n = Some c
          ∧ scan_boxes h a (cont_boxes c) false = Ok true)
  ∧ (∀ n, n ∈ selected_cylinders a vars →
       ∃ y bx, Dict.get (cylinders h) n = Some y
               ∧ Dict.get (boxes h) (box y) = Some bx
               ∧ a (container bx) = 1%Z)
  ∧ NoDup (map name_box (selected_cylinders a vars))
  ∧ (∀ n, n ∈ selected_cylinders a vars →
       ∃ s, name_box n = Some s ∧ s ∉ used_boxes st).
Proof.
  unfold selected_containers, selected_cylinders.
  revert st. induction vars as [|n vars IH]; intros st; simpl.
  - intros _. rewrite !filter_nil. simpl.
    split_and!; [by intros ? ?%elem_of_nil..|constructor
                |by intros ? ?%elem_of_nil].
  - destruct (visit h a st n) as [[st1|]|] eqn:Hv; cbn [mbind result_bind];
      [|done..].
    intros (Hdown & Hup' & Hnd & Hbox)%IH.
    apply visit_Some in Hv.
    destruct Hv as [Hone|c Hone Hkind Hget Hscan|y bx s Hone Hkind Hget Hs Hbx Hup Hfresh].
    + rewrite !filter_cons_False by (rewrite Hone; by intros [? _]). done.
    + rewrite filter_cons_True by (by split).
      rewrite filter_cons_False by (rewrite Hkind; by intros [_ ?]).
      split_and!; [|done..].
      intros n' [->|Hin]%elem_of_cons; [by exists c|by apply Hdown].
    + rewrite filter_cons_False by (rewrite Hkind; by intros [_ ?]).
      rewrite filter_cons_True by (by split). simpl in Hbox.
      split_and!; [done| | |].
      * intros n' [->|Hin]%elem_of_cons; [|by apply Hup'].
        exists y, bx. split_and!; [done..|]. by apply is_one_true.
      * simpl. constructor; [|done]. rewrite Hs.
        intros (n' & Hn' & Hin)%list_elem_of_fmap.
        destruct (Hbox n' Hin) as (s' & Hs' & Hnot).
        rewrite Hs' in Hn'. injection Hn' as ->. set_solver.
      * intros n' [->|Hin]%elem_of_cons; [by exists s|].
        destruct (Hbox n' Hin) as (s' & Hs' & Hnot).
        exists s'. split; [done|set_solver].
Qed.

(** The value [evaluate_solution] returns comes from the locals. *)
Lemma evaluate_solution_Some h p a seen ids ys seen' :
  evaluate_solution h p a seen = (Ok (Some (ids, ys)), seen') →
  ∃ st, visit_all h a (variables p) initial_locals = Ok (Some st)
    ∧ ids = chosen_cylinders_ids st ∧ ys = chosen_cylinders st
    ∧ (Str.join "," ids ∉ seen) ∧ seen' = {[Str.join "," ids]} ∪ seen
    ∧ size (used_containers st) = TOTAL_CONTAINERS
    ∧ num_eqb (num_round DIGITS_PRECISION (sum_volumes st)) TOTAL_VOLUME
      = true
    ∧ num_eqb (num_round DIGITS_PRECISION (sum_weights st))
        (num_of_Q (inject_Z TOTAL_WEIGHT)) = true.
Proof.
  unfold evaluate_solution.
  destruct (visit_all h a (variables p) initial_locals) as [[st|]|]; [|done..].
  case_bool_decide as Hseen; [done|].
  destruct (Nat.eqb_spec (size (used_containers st)) TOTAL_CONTAINERS)
    as [Hsize|]; [|done]. cbn [andb].
  destruct (num_eqb _ TOTAL_VOLUME) eqn:Hv; [|done]. cbn [andb].
  destruct (num_eqb _ (num_of_Q _)) eqn:Hw; [|done].
  intros [= <- <- <-]. by exists st.
Qed.

End ValidatorLoop.

(** ** What the builder emits *)

Section Emitted.
Context {num : Type} `{!PyNum num}.
Implicit Types (rows : list (Row num)).

Lemma box_links_sense (c : Container) (b : Box num) :
  Forall (fun nc => c_sense (snd nc) ≠ EQ) (box_links c b).
Proof. unfold box_links. by repeat constructor. Qed.

Lemma values_set_fresh {V} (d : Dict.t V) k v :
  Dict.mem d k = false → Dict.values (Dict.set d k v) = Dict.values d ++ [v].
Proof.
  unfold Dict.mem. induction d as [|[k0 v0] d IH]; simpl; [done|].
  destruct (String.eqb k0 k); [done|]. simpl. intros Hm. by rewrite IH.
Qed.

(** With pairwise different cylinder identifiers, the dictionary lists the
    cylinders of all rows. *)
Lemma construct_cylinder_values rows :
  NoDup (map cylinder_id rows) →
  Dict.values (cylinders (construct rows)) = map row_cylinder rows.
Proof.
  induction rows as [|r rows IH] using rev_ind; [done|].
  rewrite map_app. simpl.
  intros (Hnd & Hnot & _)%NoDup_app. rewrite construct_snoc, map_app. simpl.
  assert (cylinders (construct_row (construct rows) r)
          = Dict.set (cylinders (construct rows)) (cylinder_id r)
              (row_cylinder r)) as ->.
  { unfold construct_row. by destruct (Dict.mem (boxes _) _). }
  rewrite values_set_fresh, (IH Hnd); [done|].
  destruct (Dict.mem _ _) eqn:Hm; [|done].
  apply mem_get, get_keys in Hm.
  destruct (construct_keys rows) as (_ & _ & Hk). rewrite Hk in Hm.
  apply (proj1 (elem_of_first_seen _ _)) in Hm. destruct (Hnot _ Hm). left.
Qed.

(** C3, as the code has it.  Whenever the builder completes on the
    hierarchy of a sheet, the sheet has a row and the constraints of the
    model start with three equalities: the sum of the variables of all
    containers equals [TOTAL_CONTAINERS]; the sum over all cylinders of
    volume times variable equals [TOTAL_VOLUME]; the sum over all cylinders
    of weight times variable equals [TOTAL_WEIGHT].  No other constraint of
    the model is an equality.  The containers summed are those of all rows,
    and, the cylinder identifiers being pairwise different, the cylinders
    summed are those of all rows.  The builder completes for every sheet
    with at least one row whose container and box labels the library
    stores unchanged in the names of the constraints.  For the sheet
    without rows it raises [TypeError] at the first of the three: the sum
    of no container variable is a number and its comparison with the
    target a boolean, which cannot be added. *)
Theorem global_equalities rows :
  (∀ p,
     build_model (construct rows) = Ok p →
     rows ≠ []
     ∧ ∃ links,
         constraints p
         = [ ("Choosing exactly 35 containers.",
              {| lhs := unit_sum (map cont_identifier
                                    (Dict.values (containers (construct rows))));
                 c_sense := EQ;
                 rhs := Scalar (IntCoef (Z.of_nat TOTAL_CONTAINERS)) |});
             ("The selected cylinders' volume must sum to this value.",
              {| lhs := Expr (map (fun c => (NumCoef (volume c), cyl_identifier c))
                                (Dict.values (cylinders (construct rows))));
                 c_sense := EQ;
                 rhs := Scalar (NumCoef TOTAL_VOLUME) |});
             ("The selected cylinders together must weigh this much.",
              {| lhs := Expr (map (fun c => (NumCoef (weight c), cyl_identifier c))
                                (Dict.values (cylinders (construct rows))));
                 c_sense := EQ;
                 rhs := Scalar (IntCoef TOTAL_WEIGHT) |}) ] ++ links
         ∧ Forall (fun nc => c_sense (snd nc) ≠ EQ) links
         ∧ map cont_identifier (Dict.values (containers (construct rows)))
           = first_seen (map container_id rows)
         ∧ (NoDup (map cylinder_id rows) →
            Dict.values (cylinders (construct rows)) = map row_cylinder rows))
  ∧ (rows ≠ [] →
     Forall (fun r => plain (row_Container r) = true
                      ∧ plain (row_Box r) = true) rows →
     ∃ p, build_model (construct rows) = Ok p)
  ∧ (rows = [] → build_model (construct rows) = Raise TypeError).
Proof.
  split_and!.
  - intros p Hb.
    assert (rows ≠ []) as Hne by (by intros ->).
    split; [done|]. rewrite (build_model_construct rows Hne) in Hb.
    injection Hb as <-. eexists.
    split_and!; [done| | |apply construct_cylinder_values].
    + apply Forall_forall. intros nc Hin.
      apply list_elem_of_In, in_flat_map in Hin as ([c b] & _ & Hin).
      pose proof (box_links_sense c b) as Hs. rewrite Forall_forall in Hs.
      by apply Hs, list_elem_of_In.
    + rewrite container_names. by destruct (construct_keys rows) as (-> & _).
  - intros Hne _. eexists. by apply build_model_construct.
  - by intros ->.
Qed.

Lemma boxes_of_identifiers rows (c : Container) k :
  Dict.get (containers (construct rows)) k = Some c →
  map box_identifier (boxes_of (construct rows) c) = cont_boxes c.
Proof.
  intros [_ Hbs]%construct_containers. unfold boxes_of.
  induction (cont_boxes c) as [|b bs IH]; [done|].
  destruct (Hbs b) as (bx & Hbx & _); [left|].
  cbn [omap list_omap]. rewrite Hbx. cbn [map]. f_equal.
  - by destruct (construct_boxes _ _ _ Hbx) as (-> & _).
  - apply IH. intros b' Hb'. apply Hbs. by right.
Qed.

Lemma linked_boxes_identifiers rows :
  map (fun cb => box_identifier (snd cb)) (linked_boxes (construct rows))
  = all_boxes (containers (construct rows)).
Proof.
  unfold linked_boxes, all_boxes.
  assert (∀ c, c ∈ Dict.values (containers (construct rows)) →
    ∃ k, Dict.get (containers (construct rows)) k = Some c) as Hget.
  { intros c. apply values_lookup, construct_NoDup. }
  induction (Dict.values (containers (construct rows))) as [|c cs IH]; [done|].
  simpl. rewrite map_app, map_map. simpl.
  destruct (Hget c) as [k Hk]; [left|].
  rewrite <- (boxes_of_identifiers rows c k Hk), IH; [done|].
  intros c' Hc'. apply Hget. by right.
Qed.

Lemma expr_value_unit a names :
  (expr_value (num := num) a (map (fun n => (IntCoef 1, n)) names)
   == inject_Z (total a names))%Q.
Proof.
  induction names as [|n names IH]; simpl; [reflexivity|].
  rewrite IH, inject_Z_plus. ring.
Qed.


(** The three constraints of a box, read over the integers. *)
Lemma box_links_hold a (c : Container) (b : Box num) :
  Forall (fun nc => holds a (snd nc)) (box_links c b)
  ↔ (a (cont_identifier c) ≤ total a (map cyl_identifier (box_cylinders b))
     ∧ total a (map cyl_identifier (box_cylinders b))
       ≤ Z.of_nat (length (box_cylinders b)) * a (cont_identifier c)
     ∧ total a (map cyl_identifier (box_cylinders b)) ≤ 1)%Z.
Proof.
  unfold box_links. rewrite !Forall_cons, Forall_nil. unfold holds, unit_sum.
  cbn [snd c_sense lhs rhs operand_value coef_value].
  rewrite !expr_value_unit. cbn [expr_value foldr fst snd coef_value].
  rewrite !Zle_Qle, inject_Z_mult, Qmult_1_l, !Qplus_0_r. tauto.
Qed.



End Emitted.

(** The sheet without rows stops the builder at the first constraint. *)
Lemma empty_sheet_stops_builder :
  build_model (construct ([] : list (Row Q))) = Raise TypeError.
Proof. reflexivity. Qed.


(** ** First-seen order and reuse of objects *)

Section FirstSeen.
Context {num : Type}.
Implicit Types (h : Hierarchy num) (r : Row num) (rows : list (Row num)).

Lemma filter_agree {A} (P Q : A → Prop) `{∀ x, Decision (P x)}
    `{∀ x, Decision (Q x)} (l : list A) :
  (∀ x, x ∈ l → P x ↔ Q x) → filter P l = filter Q l.
Proof.
  induction l as [|x l IH]; [done|]. intros Hl.
  rewrite !filter_cons, IH by (intros y Hy; apply Hl; by right).
  destruct (decide (P x)) as [HP|HP], (decide (Q x)) as [HQ|HQ]; try done.
  - destruct HQ. by apply (Hl x); [left|].
  - destruct HP. by apply (Hl x); [left|].
Qed.

Lemma filter_none {A} (P : A → Prop) `{∀ x, Decision (P x)} (l : list A) :
  (∀ x, x ∈ l → ¬ P x) → filter P l = [].
Proof.
  induction l as [|x l IH]; [done|]. intros Hl.
  rewrite filter_cons_False by (apply Hl; left).
  apply IH. intros y Hy. apply Hl. by right.
Qed.

(** The boxes of a container are the boxes that point back to it, in the
    order of the dictionary of boxes. *)
Lemma construct_cont_boxes rows k (c : Container) :
  Dict.get (containers (construct rows)) k = Some c →
  cont_boxes c
  = filter (fun b => container <$> Dict.get (boxes (construct rows)) b
                     = Some k)
      (Dict.keys (boxes (construct rows))).
Proof.
  revert k c. induction rows as [|r rows IH] using rev_ind; intros k c;
    [done|].
  rewrite construct_snoc. set (h := construct rows) in *.
  assert (∀ k0 (old : Container),
    old = default {| cont_identifier := container_id r; cont_boxes := [] |}
            (Dict.get (containers h) k0) →
    container_id r = k0 →
    cont_boxes old
    = filter (fun b => container <$> Dict.get (boxes h) b = Some k0)
        (Dict.keys (boxes h))) as Hold.
  { intros k0 old -> Hk0.
    destruct (Dict.get (containers h) k0) as [c0|] eqn:E; [by apply IH|].
    simpl. symmetry. apply filter_none. intros b Hb Hcont.
    apply get_keys in Hb as [bx Hbx]. rewrite Hbx in Hcont. simpl in Hcont.
    injection Hcont as <-.
    destruct (construct_boxes _ _ _ Hbx) as (_ & _ & Hin).
    assert (container bx ∈ Dict.keys (containers h)) as Hkey.
    { unfold h. destruct (construct_keys rows) as (-> & _).
      by apply elem_of_first_seen. }
    apply get_keys in Hkey as [? ?]. congruence. }
  assert (filter (fun b =>
            container <$> Dict.get (boxes (construct_row h r)) b = Some k)
            (Dict.keys (boxes h))
          = filter (fun b => container <$> Dict.get (boxes h) b = Some k)
              (Dict.keys (boxes h))) as Hsame.
  { apply filter_agree. intros b Hb. apply get_keys in Hb as [bx Hbx].
    rewrite construct_row_boxes. case_decide; [|done]. by rewrite Hbx. }
  rewrite construct_row_box_keys, construct_row_containers.
  destruct (Dict.mem (boxes h) (box_id r)) eqn:Hm.
  - rewrite Hsame. case_decide as Hk; [|by apply IH].
    intros [= <-]. by apply Hold.
  - assert (container <$> Dict.get (boxes (construct_row h r)) (box_id r)
            = Some (container_id r)) as Hnew.
    { rewrite construct_row_boxes. case_decide; [|done].
      destruct (Dict.get (boxes h) (box_id r)) eqn:E; [|done].
      assert (Dict.mem (boxes h) (box_id r) = true)
        by (apply mem_get; eauto). congruence. }
    rewrite filter_app, Hsame, (filter_singleton _ (box_id r) []), Hnew.
    destruct (decide (container_id r = k)) as [Hk|Hk].
    + intros [= <-]. simpl. rewrite (Hold k _ eq_refl Hk).
      by rewrite decide_True by (by rewrite Hk).
    + intros Hget. rewrite (IH k c Hget).
      rewrite decide_False by (intros [= ?]; done). by rewrite app_nil_r.
Qed.

(** C9.  After the construction loop the containers, the boxes and the
    cylinders are listed by their dictionaries in the order in which their
    identifiers first occur in the rows, the boxes of a container are the
    boxes pointing back to it, in the order of the dictionary of boxes, and
    the cylinders of a box are those of the rows naming this box, one per
    row and in row order.  In each iteration, a container identifier that
    is already a key adds no key, and the object under it keeps its
    identifier and the boxes it had; a box identifier that is already a key
    adds no key and leaves every container as it was, and the object under
    it is the one it was, with the new cylinder appended; and in every case
    the box the row resolves to ends with the cylinder made from this
    row. *)
Theorem construction_reuses_and_keeps_order :
  (∀ rows,
     Dict.keys (containers (construct rows))
       = first_seen (map container_id rows)
     ∧ Dict.keys (boxes (construct rows)) = first_seen (map box_id rows)
     ∧ Dict.keys (cylinders (construct rows))
       = first_seen (map cylinder_id rows)
     ∧ (∀ k (c : Container),
          Dict.get (containers (construct rows)) k = Some c →
          cont_boxes c
          = filter (fun b => container <$> Dict.get (boxes (construct rows)) b
                             = Some k)
              (Dict.keys (boxes (construct rows))))
     ∧ ∀ k (b : Box num), Dict.get (boxes (construct rows)) k = Some b →
         box_cylinders b
         = map row_cylinder (filter (fun r => box_id r = k) rows))
  ∧ (∀ h r (c : Container),
       Dict.get (containers h) (container_id r) = Some c →
       Dict.keys (containers (construct_row h r)) = Dict.keys (containers h)
       ∧ ∃ c', Dict.get (containers (construct_row h r)) (container_id r)
               = Some c'
               ∧ cont_identifier c' = cont_identifier c
               ∧ cont_boxes c `prefix_of` cont_boxes c')
  ∧ (∀ h r (b : Box num),
       Dict.get (boxes h) (box_id r) = Some b →
       Dict.keys (boxes (construct_row h r)) = Dict.keys (boxes h)
       ∧ (∀ k (c : Container), Dict.get (containers h) k = Some c →
            Dict.get (containers (construct_row h r)) k = Some c)
       ∧ Dict.get (boxes (construct_row h r)) (box_id r)
         = Some (box_append (row_cylinder r) b))
  ∧ (∀ h r, ∃ b : Box num,
       Dict.get (boxes (construct_row h r)) (box_id r) = Some b
       ∧ ∃ earlier, box_cylinders b = earlier ++ [row_cylinder r]
           ∧ earlier
             = default [] (box_cylinders <$> Dict.get (boxes h) (box_id r))).
Proof.
  split_and!.
  - intros rows. destruct (construct_keys rows) as (Hc & Hb & Hy).
    split_and!; [done..|apply construct_cont_boxes|]. intros k b Hget.
    by destruct (construct_boxes _ _ _ Hget) as (_ & ? & _).
  - intros h r c Hget. split.
    + rewrite construct_row_container_keys.
      by rewrite (proj2 (mem_get _ _) (ex_intro _ c Hget)).
    + rewrite construct_row_containers, decide_True by done. rewrite Hget.
      simpl. eexists. split; [done|].
      destruct (Dict.mem (boxes h) (box_id r)); simpl; [done|].
      split; [done|]. by apply prefix_app_r.
  - intros h r b Hget.
    assert (Dict.mem (boxes h) (box_id r) = true) as Hm
      by (apply mem_get; eauto).
    split_and!.
    + by rewrite construct_row_box_keys, Hm.
    + intros k c Hc. rewrite construct_row_containers, Hm, Hc.
      by case_decide.
    + rewrite construct_row_boxes, decide_True by done. by rewrite Hget.
  - intros h r. rewrite construct_row_boxes, decide_True by done.
    eexists. split; [done|]. simpl. eexists. split; [done|].
    by destruct (Dict.get (boxes h) (box_id r)).
Qed.

End FirstSeen.

(** ** Structure of accepted solutions *)

Section Structure.
Context {num : Type} `{!PyNum num}.
Implicit Types (rows : list (Row num)) (a : assignment).

Lemma cylinder_id_not_container (r : Row num) :
  is_container_name (cylinder_id r) = false.
Proof.
  unfold is_container_name, cylinder_id.
  pose proof (split_length_app pipe (box_id r) (row_Cylinder r)) as Hlen.
  change ("|" +:+ row_Cylinder r) with (String pipe (row_Cylinder r)).
  destruct (length _) as [|[|n]]; (done || lia).
Qed.

Lemma cylinder_id_box (r : Row num) :
  name_box (cylinder_id r) = name_box (box_id r).
Proof. apply name_box_prefix. Qed.

Lemma container_id_is_container rows k :
  Forall (fun r => Str.free_of pipe (row_Container r) = true) rows →
  k ∈ Dict.keys (containers (construct rows)) →
  is_container_name k = true.
Proof.
  intros Hfree Hk. destruct (construct_keys rows) as (Hc & _).
  rewrite Hc in Hk.
  apply elem_of_first_seen, list_elem_of_fmap in Hk as (r & -> & Hr).
  rewrite Forall_forall in Hfree. unfold is_container_name, container_id.
  by rewrite (split_free _ _ (Hfree r Hr)).
Qed.

Lemma build_model_rows rows (p : LpProblem num) :
  build_model (construct rows) = Ok p → rows ≠ [].
Proof. by intros Hb ->. Qed.

(** Every container and every cylinder has its variable in the model, and
    the model has no other variable. *)
Lemma variables_built rows (p : LpProblem num) x :
  build_model (construct rows) = Ok p →
  x ∈ variables p
  ↔ x ∈ Dict.keys (containers (construct rows))
    ∨ x ∈ Dict.keys (cylinders (construct rows)).
Proof.
  intros Hb. pose proof (build_model_rows _ _ Hb) as Hne.
  rewrite (build_model_construct rows Hne) in Hb. injection Hb as <-.
  rewrite elem_of_variables. simpl. rewrite (variables_construct rows x Hne).
  split; [intros [?%elem_of_nil|?]; done|by right].
Qed.

Lemma NoDup_fmap_eq {A B} (f : A → B) (l : list A) x y :
  NoDup (map f l) → x ∈ l → y ∈ l → f x = f y → x = y.
Proof.
  induction l as [|z l IH]; simpl; [by intros _ ?%elem_of_nil|].
  intros [Hnot Hnd]%NoDup_cons [->|Hx]%elem_of_cons [->|Hy]%elem_of_cons Heq;
    [done| | |by apply IH].
  - destruct Hnot. rewrite Heq. by apply list_elem_of_fmap_2.
  - destruct Hnot. rewrite <- Heq. by apply list_elem_of_fmap_2.
Qed.

(** C2.  Let the hierarchy be built from rows whose labels the library
    stores unchanged in the names of the variables and whose container
    labels hold no separator, and let the model be the one built for it,
    possibly with further constraints added.  When [evaluate_solution] returns a solution
    for an assignment, then under that assignment every cylinder at one has
    its owning container at one, no two distinct cylinders at one have the
    same owning box, and every container at one has a cylinder at one in
    one of its boxes.  An assignment that breaks one of the three is
    therefore not accepted. *)
Theorem accepted_solution_is_consistent rows (p0 : LpProblem num)
    (extra : list (string * LpConstraint num)) a
    (seen seen' : gset string) (ids : list string) (ys : list (Cylinder num)) :
  labels_kept rows →
  Forall (fun r => Str.free_of pipe (row_Container r) = true) rows →
  build_model (construct rows) = Ok p0 →
  evaluate_solution (construct rows) (extend p0 extra) a seen
  = (Ok (Some (ids, ys)), seen') →
  (∀ k y, Dict.get (cylinders (construct rows)) k = Some y → a k = 1%Z →
     ∃ bx, Dict.get (boxes (construct rows)) (box y) = Some bx
           ∧ a (container bx) = 1%Z)
  ∧ (∀ k1 y1 k2 y2,
       Dict.get (cylinders (construct rows)) k1 = Some y1 →
       Dict.get (cylinders (construct rows)) k2 = Some y2 →
       a k1 = 1%Z → a k2 = 1%Z → box y1 = box y2 → k1 = k2)
  ∧ (∀ k c, Dict.get (containers (construct rows)) k = Some c → a k = 1%Z →
       ∃ b bx y, b ∈ cont_boxes c
                 ∧ Dict.get (boxes (construct rows)) b = Some bx
                 ∧ y ∈ box_cylinders bx ∧ a (cyl_identifier y) = 1%Z).
Proof.
  intros _ Hfree Hb (st & Hall & _)%evaluate_solution_Some.
  apply visit_all_structure in Hall as (Hdown & Hup & Hnd & _).
  assert (∀ k y, Dict.get (cylinders (construct rows)) k = Some y →
    a k = 1%Z →
    k ∈ selected_cylinders a (variables (extend p0 extra))
    ∧ name_box k = name_box (box y)) as Hsel.
  { intros k y Hget Hone.
    destruct (construct_cylinders _ _ _ Hget) as (r & _ & -> & <-).
    split; [|apply cylinder_id_box].
    apply list_elem_of_filter. split_and!.
    - by apply is_one_true.
    - apply cylinder_id_not_container.
    - apply elem_of_variables_extend. left.
      apply (variables_built rows p0 _ Hb). right. apply get_keys. by eauto. }
  split_and!.
  - intros k y Hget Hone. destruct (Hsel k y Hget Hone) as [Hin _].
    destruct (Hup k Hin) as (y' & bx & Hget' & Hbx & Hc).
    rewrite Hget in Hget'. injection Hget' as <-. by exists bx.
  - intros k1 y1 k2 y2 Hg1 Hg2 H1 H2 Hbox.
    destruct (Hsel k1 y1 Hg1 H1) as [Hin1 Hn1].
    destruct (Hsel k2 y2 Hg2 H2) as [Hin2 Hn2].
    eapply NoDup_fmap_eq; [exact Hnd|done..|]. by rewrite Hn1, Hn2, Hbox.
  - intros k c Hget Hone.
    assert (k ∈ selected_containers a (variables (extend p0 extra))) as Hin.
    { apply list_elem_of_filter. split_and!.
      - by apply is_one_true.
      - eapply container_id_is_container; [done|]. apply get_keys. by eauto.
      - apply elem_of_variables_extend. left.
        apply (variables_built rows p0 _ Hb). left. apply get_keys. by eauto. }
    destruct (Hdown k Hin) as (c' & Hget' & Hscan).
    rewrite Hget in Hget'. injection Hget' as <-.
    by apply scan_boxes_true in Hscan as [?|?].
Qed.

End Structure.

(** ** Numeric targets *)

Section Targets.
Context {num : Type} `{!PyNum num}.

(** C1.  Whatever the hierarchy, the raw assignment and the model whose
    variables are stored under their names, when
    [evaluate_solution] returns a solution, the cylinders it returns are
    the objects of the variables at one that are read as cylinders, the
    number of distinct variables at one that are read as containers is
    [TOTAL_CONTAINERS] (35), the volumes of those cylinders, summed in
    order and rounded to two digits, equal [TOTAL_VOLUME] (5163.69), and
    their weights, summed and rounded alike, equal [TOTAL_WEIGHT]
    (18844).  An assignment for which one of the three equalities fails
    is therefore never accepted. *)
Theorem evaluate_solution_meets_targets
    (h : Hierarchy num) (p : LpProblem num) (a : assignment)
    (seen seen' : gset string) (ids : list string) (ys : list (Cylinder num)) :
  names_kept p →
  evaluate_solution h p a seen = (Ok (Some (ids, ys)), seen') →
  Forall2 (fun n y => Dict.get (cylinders h) n = Some y)
    (selected_cylinders a (variables p)) ys
  ∧ size (list_to_set (C := gset string)
            (selected_containers a (variables p))) = TOTAL_CONTAINERS
  ∧ num_eqb
      (num_round 2 (foldl num_add (num_of_Q 0) (map volume ys)))
      TOTAL_VOLUME = true
  ∧ num_eqb
      (num_round 2 (foldl num_add (num_of_Q 0) (map weight ys)))
      (num_of_Q (inject_Z TOTAL_WEIGHT)) = true.
Proof.
  intros _.
  intros (st & Hall & -> & -> & _ & _ & Hsize & Hvol & Hwt)%evaluate_solution_Some.
  apply visit_all_Some in Hall as (ys & Hys & Hc & Hsv & Hsw & _ & Hcyl).
  simpl in Hcyl, Hc, Hsv, Hsw.
  rewrite Hcyl. rewrite Hc, (right_id_L ∅ (∪)) in Hsize.
  rewrite Hsv in Hvol. rewrite Hsw in Hwt. done.
Qed.

End Targets.

(** ** The set of solutions already seen *)

Section Seen.
Context {num : Type} `{!PyNum num}.
Implicit Types (h : Hierarchy num) (p : LpProblem num) (a : assignment)
  (seen : gset string).

Lemma evaluate_solution_unfold h p a seen :
  evaluate_solution h p a seen
  = match visit_all h a (variables p) initial_locals with
    | Raise e => (Raise e, seen)
    | Ok None => (Ok None, seen)
    | Ok (Some st) =>
        let s := Str.join "," (chosen_cylinders_ids st) in
        if bool_decide (s ∈ seen) then (Ok None, seen)
        else if targets_met st
             then (Ok (Some (chosen_cylinders_ids st, chosen_cylinders st)),
                   {[s]} ∪ seen)
             else (Ok None, {[s]} ∪ seen)
    end.
Proof. done. Qed.

(** The set only grows. *)
Lemma evaluate_solution_grows h p a seen r seen' :
  evaluate_solution h p a seen = (r, seen') → seen ⊆ seen'.
Proof.
  rewrite evaluate_solution_unfold.
  destruct (visit_all h a (variables p) initial_locals) as [[st|]|];
    [|by intros [= _ <-]..].
  simpl. case_bool_decide; [by intros [= _ <-]|].
  destruct (targets_met st); intros [= _ <-]; set_solver.
Qed.

(** C10.  Take an assignment that passes every structural check (the loop
    over the variables ends with locals [st]), whose solution string [s] is
    not yet in the set, and that misses a numeric target.  It is rejected,
    yet [s] has been added to [all_optimal_solutions]: the rejection is not
    free of effect.  From then on, whatever else the set holds, the same
    assignment is turned down at the membership test, which comes before
    the numeric test and leaves the set as it is. *)
Theorem numeric_rejection_is_recorded h p a seen (st : Locals (num := num)) :
  visit_all h a (variables p) initial_locals = Ok (Some st) →
  Str.join "," (chosen_cylinders_ids st) ∉ seen →
  targets_met st = false →
  evaluate_solution h p a seen
  = (Ok None, {[Str.join "," (chosen_cylinders_ids st)]} ∪ seen)
  ∧ ∀ seen2, {[Str.join "," (chosen_cylinders_ids st)]} ∪ seen ⊆ seen2 →
      bool_decide (Str.join "," (chosen_cylinders_ids st) ∈ seen2) = true
      ∧ evaluate_solution h p a seen2 = (Ok None, seen2).
Proof.
  intros Hall Hfresh Hmiss. split.
  - rewrite evaluate_solution_unfold, Hall. simpl.
    by rewrite bool_decide_false, Hmiss.
  - intros seen2 Hsub.
    assert (Str.join "," (chosen_cylinders_ids st) ∈ seen2) as Hin
      by set_solver.
    split; [by apply bool_decide_eq_true|].
    rewrite evaluate_solution_unfold, Hall. simpl.
    by rewrite bool_decide_true.
Qed.

End Seen.

(** ** The search loop *)

Section SearchFacts.
Context {num : Type} `{!PyNum num}.
Variable solve : LpProblem num → Z * assignment.
Variable h : Hierarchy num.
Implicit Types (st : Notebook (num := num)).

Lemma loop_body_Ok st st' b :
  loop_body solve h st = Ok (st', b) → iterated solve h st st' b.
Proof.
  unfold loop_body.
  destruct (evaluate_solution h (problem st) (values st)
              (all_optimal_solutions st)) as [[[[ids ys]|]|e] seen'] eqn:E;
    cbn [mbind result_bind]; [| |done].
  - destruct ys as [|y ys]; [done|]. cbn [map]. rewrite sum_variables_cons.
    cbn [compare unit_sum]. rewrite add_constraint. cbn [mbind result_bind].
    destruct (solve _) as [status vals] eqn:Es. intros [= <- <-].
    pose proof (iterated_accept solve h st ids (y :: ys) seen' E) as Hit.
    cbn zeta in Hit. unfold exclusion in Hit. rewrite length_map in Hit.
    cbn [map unit_sum] in Hit. rewrite Es in Hit. by apply Hit.
  - intros [= <- <-]. by constructor.
Qed.

Lemma loop_body_accept st ids ys seen' :
  evaluate_solution h (problem st) (values st) (all_optimal_solutions st)
  = (Ok (Some (ids, ys)), seen') →
  ys ≠ [] →
  ∃ st', loop_body solve h st = Ok (st', true).
Proof.
  intros E Hne. unfold loop_body. rewrite E. cbn [mbind result_bind].
  destruct ys as [|y ys]; [done|]. cbn [map]. rewrite sum_variables_cons.
  cbn [compare unit_sum]. rewrite add_constraint. cbn [mbind result_bind].
  destruct (solve _) as [status vals]. by eauto.
Qed.

(** An invariant of the iterations is an invariant of the loop. *)
Lemma search_loop_invariant (P : Notebook (num := num) → Prop) (max : nat) :
  (∀ st st' b, P st →
     pulp_status_solve st = LpStatusOptimal →
     (counter_different_solutions st ≤ max)%nat →
     iterated solve h st st' b → P st') →
  ∀ fuel st st', P st → search_loop solve h fuel max st = Some (Ok st') → P st'.
Proof.
  intros Hstep fuel. induction fuel as [|fuel IH]; intros st st' HP; simpl.
  - destruct (_ && _); [done|]. by intros [= <-].
  - destruct (Z.eqb_spec (pulp_status_solve st) LpStatusOptimal) as [Hs|];
      [|by intros [= <-]].
    destruct (Nat.leb_spec (counter_different_solutions st) max) as [Hc|];
      [|by intros [= <-]].
    cbn [andb].
    destruct (loop_body solve h st) as [[st1 [|]]|] eqn:Hb; [| |done].
    + apply IH. eapply Hstep; [done..|]. by apply loop_body_Ok.
    + intros [= <-]. eapply Hstep; [done..|]. by apply loop_body_Ok.
Qed.

(** The loop ends once the fuel covers the distance to the cap. *)
Lemma search_loop_halts (fuel max : nat) st :
  (S max - counter_different_solutions st ≤ fuel)%nat →
  ∃ r, search_loop solve h fuel max st = Some r.
Proof.
  revert st. induction fuel as [|fuel IH]; intros st Hfuel; simpl.
  - destruct (Z.eqb _ _); [|by eauto]. cbn [andb].
    destruct (Nat.leb_spec (counter_different_solutions st) max); [lia|by eauto].
  - destruct (Z.eqb _ _); [|by eauto]. cbn [andb].
    destruct (Nat.leb_spec (counter_different_solutions st) max); [|by eauto].
    destruct (loop_body solve h st) as [[st1 [|]]|] eqn:Hb; [|by eauto..].
    apply IH. apply loop_body_Ok in Hb. inversion Hb; subst. simpl. lia.
Qed.

End SearchFacts.

(** ** Exclusion constraints *)

Section Exclusion.
Context {num : Type} `{!PyNum num}.

Lemma unit_sum_value (a : assignment) (ids : list string) :
  Forall (fun n => a n = 1%Z) ids →
  (expr_value (num := num) a (map (fun n => (IntCoef 1, n)) ids)
   == inject_Z (Z.of_nat (length ids)))%Q.
Proof.
  induction 1 as [|n ids Hn _ IH]; simpl; [reflexivity|].
  rewrite IH, Hn, <- inject_Z_mult, <- inject_Z_plus.
  replace (1 * 1 + Z.of_nat (length ids))%Z
    with (Z.of_nat (S (length ids))) by lia.
  reflexivity.
Qed.

(** No assignment that satisfies the exclusion of a list of variables has
    all of them at one. *)
Lemma exclusion_forbids (a : assignment) (ids : list string) :
  holds (num := num) a (exclusion ids) → ¬ Forall (fun n => a n = 1%Z) ids.
Proof.
  unfold holds, exclusion. simpl. intros Hle Hall.
  rewrite (unit_sum_value a ids Hall), <- Zle_Qle in Hle. lia.
Qed.

End Exclusion.

Section Runs.
Context {num : Type} `{!PyNum num}.
Variable solve : LpProblem num → Z * assignment.
Variable h : Hierarchy num.
Implicit Types (st : Notebook (num := num)).

Lemma accepted_ids (p : LpProblem num) a seen ids ys seen' :
  evaluate_solution h p a seen = (Ok (Some (ids, ys)), seen') →
  ids = map cyl_identifier ys
  ∧ Forall2 (fun n y => Dict.get (cylinders h) n = Some y)
      (selected_cylinders a (variables p)) ys.
Proof.
  intros (st & Hall & -> & -> & _)%evaluate_solution_Some.
  apply visit_all_Some in Hall as (ys & Hys & _ & _ & _ & Hids & Hcyl).
  simpl in Hids, Hcyl. by rewrite Hids, Hcyl.
Qed.

(** C7.  In a run of the search loop that starts without written files,
    the identifier lists of the written solutions are pairwise different,
    the set [all_optimal_solutions] at the end contains the set at the
    start, and the comma-joined string of every written solution is in it.
    This rests on the validator: every call leaves the set at least as
    large as it was, and a solution is returned only if its string was not
    yet in the set, after which it is. *)
Theorem accepted_solutions_are_distinct (fuel max : nat) st st' :
  files st = [] →
  search_loop solve h fuel max st = Some (Ok st') →
  NoDup (map snd (files st'))
  ∧ all_optimal_solutions st ⊆ all_optimal_solutions st'
  ∧ (∀ ids, ids ∈ map snd (files st') →
       Str.join "," ids ∈ all_optimal_solutions st')
  ∧ (∀ (p : LpProblem num) a seen r seen',
       evaluate_solution h p a seen = (r, seen') →
       seen ⊆ seen'
       ∧ ∀ ids ys, r = Ok (Some (ids, ys)) →
           (Str.join "," ids ∉ seen) ∧ Str.join "," ids ∈ seen').
Proof.
  intros Hfiles Hrun.
  assert (∀ (p : LpProblem num) a seen r seen',
    evaluate_solution h p a seen = (r, seen') →
    seen ⊆ seen'
    ∧ ∀ ids ys, r = Ok (Some (ids, ys)) →
        (Str.join "," ids ∉ seen) ∧ Str.join "," ids ∈ seen') as Hval.
  { intros p a seen r seen' E. split; [by eapply evaluate_solution_grows|].
    intros ids ys ->.
    apply evaluate_solution_Some in E as (_ & _ & _ & _ & Hnot & -> & _).
    split; [done|set_solver]. }
  pose (P := fun s : Notebook (num := num) =>
    NoDup (map snd (files s))
    ∧ all_optimal_solutions st ⊆ all_optimal_solutions s
    ∧ ∀ ids, ids ∈ map snd (files s) →
        Str.join "," ids ∈ all_optimal_solutions s).
  assert (P st') as (Hnd & Hsub & Hin); [|done].
  eapply (search_loop_invariant solve h P); [|by unfold P; rewrite Hfiles; (split_and!; [constructor|done|by intros ? ?%elem_of_nil])|exact Hrun].
  clear. intros s s' b (Hnd & Hsub & Hin) _ _ Hit.
  destruct Hit as [seen' E|ids ys seen' E Hne]; unfold P; simpl.
  - apply evaluate_solution_grows in E.
    split_and!; [done|set_solver|]. intros ids Hids. apply E. by apply Hin.
  - pose proof (evaluate_solution_grows _ _ _ _ _ _ E) as Hgrow.
    apply evaluate_solution_Some in E as (_ & _ & _ & _ & Hnot & -> & _).
    rewrite map_app. simpl. split_and!.
    + apply NoDup_app. split_and!; [done| |apply NoDup_singleton].
      intros ids' Hids' ->%list_elem_of_singleton. by apply Hnot, Hin.
    + set_solver.
    + intros ids' [Hids'| ->%list_elem_of_singleton]%elem_of_app;
        [|set_solver]. apply Hgrow. by apply Hin.
Qed.

(** C5.  An iteration of the search loop on a state whose assignment the
    validator accepts appends exactly one constraint to the model, under
    the name that ends in the counter: the variables of the cylinders of
    the accepted solution sum to at most their number minus one; it
    writes the solution to the file of the next number, solves the new
    model and adds one to the counter.  This is for a name that, as the
    library stores it, is not yet the name of a constraint of the model
    (the library refuses a second constraint under a stored name), as is
    the case in every search over a built model.  (With no cylinder in the
    accepted solution the sum is a number and adding the comparison raises
    [TypeError].)  An iteration on a state whose assignment the validator
    rejects appends nothing and ends the loop.  Hence over a run of the
    loop the files written are the earlier ones followed by the newly
    accepted solutions, and the model is the earlier one followed by as
    many constraints as the counter has grown, one per accepted solution
    and in the same order, each of the shape above; and an assignment that
    is feasible for the final model has, for no solution accepted in the
    run, all of its cylinders at one. *)
Theorem exclusion_after_each_acceptance :
  (∀ st ids ys seen',
     evaluate_solution h (problem st) (values st) (all_optimal_solutions st)
     = (Ok (Some (ids, ys)), seen') →
     ys ≠ [] →
     translate ("Generating different solution "
                  +:+ pretty (counter_different_solutions st))
       ∉ map (fun nc => translate (fst nc)) (constraints (problem st)) →
     let problem' :=
       extend (problem st)
         [("Generating different solution "
             +:+ pretty (counter_different_solutions st),
           {| lhs := unit_sum ids; c_sense := LE;
              rhs := Scalar (IntCoef (Z.of_nat (length ids) - 1)) |})] in
     loop_body solve h st
     = Ok ({| problem := problem';
              pulp_status_solve := fst (solve problem');
              values := snd (solve problem');
              counter_different_solutions :=
                counter_different_solutions st + 1;
              all_optimal_solutions := seen';
              files := files st
                         ++ [(counter_different_solutions st + 1, ids)] |},
           true))
  ∧ (∀ st ids seen',
       evaluate_solution h (problem st) (values st) (all_optimal_solutions st)
       = (Ok (Some (ids, [])), seen') →
       loop_body solve h st = Raise TypeError)
  ∧ (∀ st seen',
       evaluate_solution h (problem st) (values st) (all_optimal_solutions st)
       = (Ok None, seen') →
       loop_body solve h st
       = Ok ({| problem := problem st;
                pulp_status_solve := pulp_status_solve st;
                values := values st;
                counter_different_solutions := counter_different_solutions st;
                all_optimal_solutions := seen';
                files := files st |}, false))
  ∧ (∀ (fuel max : nat) st st',
       search_loop solve h fuel max st = Some (Ok st') →
       ∃ new extra,
         files st' = files st ++ new
         ∧ problem st' = extend (problem st) extra
         ∧ length extra = length new
         ∧ counter_different_solutions st'
           = (counter_different_solutions st + length new)%nat
         ∧ Forall2 (fun f c =>
             snd c = {| lhs := unit_sum (snd f); c_sense := LE;
                        rhs := Scalar (IntCoef (Z.of_nat (length (snd f)) - 1)) |})
             new extra
         ∧ ∀ a ids,
             feasible a (problem st') →
             ids ∈ map snd new → ¬ Forall (fun n => a n = 1%Z) ids).
Proof.
  split_and!.
  - intros st ids ys seen' E Hne _.
    destruct (loop_body_accept solve h _ _ _ _ E Hne) as [st1 Hbody].
    pose proof (loop_body_Ok _ _ _ _ _ Hbody) as Hit.
    inversion Hit as [|ids' ys' seen2 E' Hne' problem' Hst']. subst problem'.
    rewrite E in E'. injection E' as <- <- <-.
    destruct (accepted_ids _ _ _ _ _ _ E) as [Hids _].
    rewrite Hbody, <- Hst', <- Hids. done.
  - intros st ids seen' E. unfold loop_body. by rewrite E.
  - intros st seen' E. unfold loop_body. by rewrite E.
  - intros fuel max st st' Hrun.
    pose (P := fun s : Notebook (num := num) =>
      ∃ new extra,
        files s = files st ++ new
        ∧ problem s = extend (problem st) extra
        ∧ counter_different_solutions s
          = (counter_different_solutions st + length new)%nat
        ∧ Forall2 (fun f c => snd c = exclusion (snd f)) new extra).
    assert (P st') as (new & extra & Hf & Hp & Hcount & Hall).
    { eapply (search_loop_invariant solve h P); [| |exact Hrun].
      - clear. intros s s' b (new & extra & Hf & Hp & Hcount & Hall) _ _ Hit.
        destruct Hit as [seen' E|ids ys seen' E Hne]; unfold P; simpl.
        + by exists new, extra.
        + destruct (accepted_ids _ _ _ _ _ _ E) as [Hids _].
          eexists (new ++ [(_, ids)]), (extra ++ [(_, _)]).
          subst problem'. rewrite Hf, Hp, extend_extend, <- app_assoc.
          split_and!; [done..| |].
          * rewrite length_app. simpl. lia.
          * apply Forall2_app; [done|]. constructor; [|constructor].
            simpl. by rewrite Hids.
      - exists [], []. rewrite app_nil_r, extend_nil. simpl.
        split_and!; [done..|lia|constructor]. }
    exists new, extra.
    split_and!; [done..|by eapply eq_sym, Forall2_length|done| |].
    + eapply Forall2_impl; [exact Hall|]. by intros f c ->.
    + intros a ids [_ Hholds] (f & -> & Hin)%list_elem_of_fmap.
      apply exclusion_forbids.
      rewrite Hp in Hholds. simpl in Hholds.
      apply Forall_app in Hholds as [_ Hx].
      destruct (proj1 (list_elem_of_lookup new f) Hin) as [i Hi].
      destruct (Forall2_lookup_l _ _ _ _ _ Hall Hi) as (c & Hc & Hshape).
      rewrite <- Hshape. rewrite Forall_forall in Hx.
      apply (Hx c). by eapply list_elem_of_lookup_2.
Qed.

End Runs.

(** ** Runs over a constructed hierarchy *)

Section ConstructedRuns.
Context {num : Type} `{!PyNum num}.
Implicit Types (rows : list (Row num)) (a : assignment).

(** An accepted solution has at least one cylinder: thirty-five containers
    are at one, and each of them has a cylinder at one, which is a
    variable of the model. *)
Lemma accepted_nonempty rows (p0 : LpProblem num) extra a seen ids ys seen' :
  build_model (construct rows) = Ok p0 →
  evaluate_solution (construct rows) (extend p0 extra) a seen
  = (Ok (Some (ids, ys)), seen') →
  ys ≠ [].
Proof.
  intros Hb (st & Hall & _ & -> & _ & _ & Hsize & _)%evaluate_solution_Some.
  pose proof (visit_all_Some _ _ _ _ _ Hall)
    as (ys & Hys & Hc & _ & _ & _ & Hcyl).
  apply visit_all_structure in Hall as (Hdown & _).
  simpl in Hcyl. rewrite Hcyl. intros ->.
  apply Forall2_nil_inv_r in Hys.
  destruct (selected_containers a (variables (extend p0 extra)))
    as [|n sel] eqn:Esel.
  { rewrite Hc in Hsize. by vm_compute in Hsize. }
  destruct (Hdown n) as (c & Hget & Hscan); [left|].
  apply scan_boxes_true in Hscan as [?|(k & bx & y & _ & Hk & Hy & Hone)];
    [done|].
  destruct (box_cylinders_rows _ _ _ _ Hk Hy) as (r & Hr & -> & _).
  assert (cylinder_id r ∈ selected_cylinders a (variables (extend p0 extra)))
    as Hin; [|rewrite Hys in Hin; by apply elem_of_nil in Hin].
  apply list_elem_of_filter. split_and!.
  - by apply is_one_true.
  - apply cylinder_id_not_container.
  - apply elem_of_variables_extend. left.
    apply (variables_built rows p0 _ Hb). right.
    destruct (construct_keys rows) as (_ & _ & ->).
    apply elem_of_first_seen, list_elem_of_fmap. by exists r.
Qed.

Lemma scan_boxes_Ok rows a bs flag :
  (∀ b, b ∈ bs → is_Some (Dict.get (boxes (construct rows)) b)) →
  ∃ r, scan_boxes (construct rows) a bs flag = Ok r.
Proof.
  revert flag. induction bs as [|b bs IH]; intros flag Hbs; simpl; [by eauto|].
  destruct (Hbs b) as [bx Hbx]; [left|].
  unfold subscript. rewrite Hbx. cbn [mbind result_bind].
  apply IH. intros b' Hb'. apply Hbs. by right.
Qed.

(** With container labels free of the separator, visiting a variable of
    the hierarchy never raises. *)
Lemma visit_Ok rows a (st : Locals (num := num)) name :
  Forall (fun r => Str.free_of pipe (row_Container r) = true) rows →
  name ∈ Dict.keys (containers (construct rows))
  ∨ name ∈ Dict.keys (cylinders (construct rows)) →
  ∃ r, visit (construct rows) a st name = Ok r.
Proof.
  intros Hfree Hname. unfold visit. destruct (is_one a name); [|by eauto].
  fold (is_container_name name).
  destruct (is_container_name name) eqn:Hkind.
  - destruct Hname as [Hc|Hy].
    + apply get_keys in Hc as [c Hc]. unfold subscript. rewrite Hc.
      cbn [mbind result_bind].
      destruct (scan_boxes_Ok rows a (cont_boxes c) false) as [r Hr].
      { intros b Hb. destruct (construct_containers _ _ _ Hc) as [_ Hbs].
        destruct (Hbs b Hb) as (bx & Hbx & _). by eauto. }
      rewrite Hr. cbn [mbind result_bind]. destruct (negb r); by eauto.
    + apply get_keys in Hy as [y Hy].
      destruct (construct_cylinders _ _ _ Hy) as (r & _ & _ & <-).
      by rewrite cylinder_id_not_container in Hkind.
  - destruct Hname as [Hc|Hy].
    { by rewrite (container_id_is_container rows name Hfree Hc) in Hkind. }
    apply get_keys in Hy as [y Hy]. unfold subscript. rewrite Hy.
    cbn [mbind result_bind].
    destruct (construct_cylinders _ _ _ Hy) as (r & Hr & -> & <-).
    unfold is_container_name in Hkind.
    pose proof (split_nonempty pipe (cylinder_id r)) as Hsplit.
    destruct (Str.split pipe (cylinder_id r)) as [|s0 [|s1 l]]; [done..|].
    cbn [mbind result_bind].
    assert (box_id r ∈ Dict.keys (boxes (construct rows))) as Hbox.
    { destruct (construct_keys rows) as (_ & -> & _).
      apply elem_of_first_seen, list_elem_of_fmap. by exists r. }
    apply get_keys in Hbox as [bx Hbx]. simpl. rewrite Hbx.
    cbn [mbind result_bind].
    destruct (negb _); [by eauto|]. case_bool_decide; by eauto.
Qed.

Lemma visit_all_Ok rows a vars (st : Locals (num := num)) :
  Forall (fun r => Str.free_of pipe (row_Container r) = true) rows →
  (∀ x, x ∈ vars →
     x ∈ Dict.keys (containers (construct rows))
     ∨ x ∈ Dict.keys (cylinders (construct rows))) →
  ∃ r, visit_all (construct rows) a vars st = Ok r.
Proof.
  intros Hfree. revert st. induction vars as [|x vars IH]; intros st Hvars;
    simpl; [by eauto|].
  destruct (visit_Ok rows a st x Hfree) as [[st1|] Hr]; [apply Hvars; left|..];
    rewrite Hr; cbn [mbind result_bind]; [|by eauto].
  apply IH. intros x' Hx'. apply Hvars. by right.
Qed.

(** Over a constructed hierarchy whose container labels hold no
    separator, and for a model with no variable besides those of the built
    one, the validator raises nothing. *)
Lemma evaluate_solution_Ok rows (p0 : LpProblem num) extra a seen :
  Forall (fun r => Str.free_of pipe (row_Container r) = true) rows →
  build_model (construct rows) = Ok p0 →
  (∀ x, x ∈ mentioned extra → x ∈ variables p0) →
  ∃ r seen',
    evaluate_solution (construct rows) (extend p0 extra) a seen = (Ok r, seen').
Proof.
  intros Hfree Hb Hextra.
  destruct (visit_all_Ok rows a (variables (extend p0 extra)) initial_locals
              Hfree) as [r Hr].
  { intros x [Hx|Hx%Hextra]%elem_of_variables_extend;
      by apply (variables_built rows p0 x Hb). }
  rewrite evaluate_solution_unfold, Hr. destruct r as [st|]; [|by eauto].
  simpl. case_bool_decide; [by eauto|]. destruct (targets_met st); by eauto.
Qed.

(** The cylinders of an accepted solution are variables of the model. *)
Lemma accepted_mentions rows (p : LpProblem num) a seen ids ys seen' x :
  evaluate_solution (construct rows) p a seen = (Ok (Some (ids, ys)), seen') →
  x ∈ map cyl_identifier ys → x ∈ variables p.
Proof.
  intros (st & Hall & _ & -> & _)%evaluate_solution_Some.
  apply visit_all_Some in Hall as (ys & Hys & _ & _ & _ & _ & Hcyl).
  simpl in Hcyl. rewrite Hcyl.
  intros (y & -> & Hy)%list_elem_of_fmap.
  destruct (proj1 (list_elem_of_lookup ys y) Hy) as [i Hi].
  destruct (Forall2_lookup_r _ _ _ _ _ Hys Hi) as (n & Hn & Hget).
  destruct (construct_cylinders _ _ _ Hget) as (r & _ & -> & <-).
  apply list_elem_of_lookup_2 in Hn.
  by apply list_elem_of_filter in Hn as [_ Hn].
Qed.

Section NoRaise.
Variable solve : LpProblem num → Z * assignment.
Variable rows : list (Row num).
Variable p0 : LpProblem num.
Hypothesis Hfree :
  Forall (fun r => Str.free_of pipe (row_Container r) = true) rows.
Hypothesis Hb : build_model (construct rows) = Ok p0.

Lemma loop_body_within st :
  within p0 st →
  ∃ st' b, loop_body solve (construct rows) st = Ok (st', b) ∧ within p0 st'.
Proof.
  intros (extra & Hp & Hextra).
  destruct (evaluate_solution_Ok rows p0 extra (values st)
              (all_optimal_solutions st) Hfree Hb Hextra) as (r & seen' & E).
  rewrite <- Hp in E. destruct r as [[ids ys]|].
  - assert (ys ≠ []) as Hne.
    { rewrite Hp in E. by eapply accepted_nonempty. }
    destruct (loop_body_accept solve _ _ _ _ _ E Hne) as [st' Hbody].
    exists st', true. split; [done|].
    pose proof (loop_body_Ok _ _ _ _ _ Hbody) as Hit.
    inversion Hit as [|ids' ys' seen2 E' Hne' problem' Hst']. subst problem'.
    rewrite E in E'. injection E' as <- <- <-.
    eexists. simpl. rewrite Hp, extend_extend. split; [done|].
    rewrite mentioned_app. intros x [Hx|Hx]%elem_of_app; [by apply Hextra|].
    unfold mentioned, constraint_vars, exclusion in Hx.
    cbn [map concat snd lhs rhs] in Hx.
    rewrite unit_sum_vars in Hx. simpl in Hx. rewrite !app_nil_r in Hx.
    pose proof (accepted_mentions rows _ _ _ _ _ _ x E Hx) as Hin.
    rewrite Hp in Hin.
    apply elem_of_variables_extend in Hin as [?|?]; [done|by apply Hextra].
  - eexists _, false. unfold loop_body. rewrite E. cbn [mbind result_bind].
    split; [done|]. by exists extra.
Qed.

(** The search over such a hierarchy never raises. *)
Lemma search_loop_within (fuel max : nat) st r :
  within p0 st →
  search_loop solve (construct rows) fuel max st = Some r →
  ∃ st', r = Ok st'.
Proof.
  revert st. induction fuel as [|fuel IH]; intros st Hin; simpl.
  - destruct (_ && _); [done|]. intros [= <-]. by eauto.
  - destruct (_ && _); [|intros [= <-]; by eauto].
    destruct (loop_body_within st Hin) as (st' & b & Hbody & Hin').
    rewrite Hbody. destruct b; [by apply IH|]. intros [= <-]. by eauto.
Qed.

End NoRaise.

End ConstructedRuns.

(** ** The cap on the number of solutions *)

Section Cap.
Context {num : Type} `{!PyNum num}.
Variable solve : LpProblem num → Z * assignment.
Implicit Types (rows : list (Row num)) (st : Notebook (num := num)).

Lemma iterated_accepted (h : Hierarchy num) st st1 :
  iterated solve h st st1 true →
  (∃ c, problem st1 = extend (problem st) [c])
  ∧ counter_different_solutions st1 = (counter_different_solutions st + 1)%nat
  ∧ length (files st1) = (length (files st) + 1)%nat.
Proof.
  inversion 1 as [|ids ys seen' E Hne problem' Hst1]. simpl.
  split_and!; [by eexists|done|]. rewrite length_app. simpl. lia.
Qed.

(** As long as every round is accepted, the loop runs until the cap. *)
Lemma run_accepting rows (p0 : LpProblem num) (m max : nat) st :
  build_model (construct rows) = Ok p0 →
  (∃ extra, problem st = extend p0 extra) →
  (counter_different_solutions st + m = S max)%nat →
  (∀ k, (k < m)%nat →
     accepted_at (construct rows)
       (Nat.iter k (advance solve (construct rows)) st) = true) →
  search_loop solve (construct rows) m max st
  = Some (Ok (Nat.iter m (advance solve (construct rows)) st))
  ∧ length (files (Nat.iter m (advance solve (construct rows)) st))
    = (length (files st) + m)%nat.
Proof.
  intros Hb. revert st.
  induction m as [|m IH]; intros st [extra Hp] Hcount Hacc.
  - simpl. destruct (Z.eqb _ _); cbn [andb]; [|split; [done|lia]].
    destruct (Nat.leb_spec (counter_different_solutions st) max); [lia|].
    split; [done|lia].
  - pose proof (Hacc 0%nat ltac:(lia)) as H0. simpl in H0.
    unfold accepted_at in H0. apply andb_prop in H0 as [Hs Hok].
    destruct (evaluate_solution _ _ _ _) as [[[[ids ys]|]|] seen'] eqn:E;
      [|done..].
    assert (ys ≠ []) as Hne.
    { rewrite Hp in E. by eapply accepted_nonempty. }
    destruct (loop_body_accept solve _ _ _ _ _ E Hne) as [st1 Hbody].
    assert (advance solve (construct rows) st = st1) as Hadv
      by (unfold advance; by rewrite Hbody).
    rewrite !Nat.iter_succ_r, Hadv.
    cbn [search_loop]. rewrite Hs.
    destruct (Nat.leb_spec (counter_different_solutions st) max); [|lia].
    cbn [andb]. rewrite Hbody.
    destruct (iterated_accepted _ _ _ (loop_body_Ok _ _ _ _ _ Hbody))
      as ([c Hp1] & Hc1 & Hf1).
    destruct (IH st1) as [Hrun Hlen].
    + eexists. by rewrite Hp1, Hp, extend_extend.
    + lia.
    + intros k Hk. specialize (Hacc (S k) ltac:(lia)).
      by rewrite Nat.iter_succ_r, Hadv in Hacc.
    + split; [exact Hrun|]. rewrite Hlen. lia.
Qed.

(** C6.  Started with counter 0 and no file written, the search cell
    (its sentinel file absent) with guard [counter <= max] ends within
    [max + 1] iterations, whatever the solver answers, and has then written
    at most [max + 1] solutions.  Over a hierarchy built from rows whose
    labels the library stores unchanged and whose container labels hold no
    separator, with the model built for it, it ends without raising.  If
    moreover (for such labels) the solver's answer is accepted by
    the validator in each of the first [n] rounds for some [n > max] (the
    solver admits at least [n] different valid solutions; [max = 2] and
    [n = 5] in the example of the specification), it has written exactly
    [max + 1] solutions, and again ends without raising. *)
Theorem search_stops_at_the_cap (max : nat) :
  (∀ (h : Hierarchy num) st,
     counter_different_solutions st = 0%nat → files st = [] →
     ∃ r, search solve h false max st = Some r
          ∧ ∀ st', r = Ok st' → (length (files st') ≤ S max)%nat)
  ∧ (∀ rows (p0 : LpProblem num) seen,
       labels_kept rows →
       Forall (fun r => Str.free_of pipe (row_Container r) = true) rows →
       build_model (construct rows) = Ok p0 →
       ∃ st', search solve (construct rows) false max (start solve p0 seen)
              = Some (Ok st')
              ∧ (length (files st') ≤ S max)%nat)
  ∧ (∀ rows (p0 : LpProblem num) seen (n : nat),
       labels_kept rows →
       build_model (construct rows) = Ok p0 →
       (max < n)%nat →
       (∀ k, (k < n)%nat →
          accepted_at (construct rows)
            (Nat.iter k (advance solve (construct rows))
               (start solve p0 seen)) = true) →
       ∃ st', search solve (construct rows) false max (start solve p0 seen)
              = Some (Ok st')
              ∧ length (files st') = S max).
Proof.
  assert (∀ (h : Hierarchy num) st,
    counter_different_solutions st = 0%nat → files st = [] →
    ∃ r, search solve h false max st = Some r
         ∧ ∀ st', r = Ok st' → (length (files st') ≤ S max)%nat) as Hcap.
  { intros h st Hcount Hfiles. unfold search. cbn [negb].
    destruct (search_loop_halts solve h (S max) max st) as [r Hr]; [lia|].
    exists r. split; [done|]. intros st' ->.
    pose (P := fun s : Notebook (num := num) =>
      length (files s) = counter_different_solutions s
      ∧ (counter_different_solutions s ≤ S max)%nat).
    assert (P st') as [Hlen Hle]; [|lia].
    eapply (search_loop_invariant solve h P); [| |exact Hr].
    + clear. intros s s' b [Hlen Hle] _ Hguard Hit.
      destruct Hit; unfold P; simpl; [done|]. rewrite length_app. simpl. lia.
    + unfold P. rewrite Hfiles, Hcount. simpl. lia. }
  split_and!; [exact Hcap| |].
  - intros rows p0 seen _ Hfree Hb.
    destruct (Hcap (construct rows) (start solve p0 seen)) as (r & Hr & Hlen).
    { unfold start. by destruct (solve p0). }
    { unfold start. by destruct (solve p0). }
    destruct (search_loop_within solve rows p0 Hfree Hb (S max) max
                (start solve p0 seen) r) as [st' ->]; [|exact Hr|].
    + exists []. unfold start. destruct (solve p0). simpl.
      rewrite extend_nil. split; [done|]. by intros x ?%elem_of_nil.
    + exists st'. split; [done|]. by apply Hlen.
  - intros rows p0 seen n _ Hb Hn Hacc. unfold search. cbn [negb].
    destruct (run_accepting rows p0 (S max) max (start solve p0 seen) Hb)
      as [Hrun Hlen].
    + exists []. unfold start. destruct (solve p0). simpl. by rewrite extend_nil.
    + unfold start. by destruct (solve p0).
    + intros k Hk. apply Hacc. lia.
    + eexists. split; [exact Hrun|]. rewrite Hlen.
      unfold start. by destruct (solve p0).
Qed.

End Cap.

(** ** Rejection is a value *)

Section Rejection.
Context {num : Type} `{!PyNum num}.
Implicit Types (rows : list (Row num)) (st : Notebook (num := num)).

(** C8.  Let the hierarchy be built from rows whose labels the library
    stores unchanged in the names of the variables and whose container
    labels hold no separator, and the model be the one built for it,
    possibly with further constraints over its variables.  Then for every raw assignment
    and every set of seen solutions [evaluate_solution] returns a value and
    raises nothing: either [None], or the list of identifiers of the chosen
    cylinders together with these cylinder objects, which are the objects
    of the cylinder variables at one, in order.  And whatever the solver,
    when the loop guard holds and the validator returns [None], the search
    loop ends at once: the result is the state it had, with only the set of
    seen solutions as the validator left it; no file is written, no
    constraint added, no further solve made. *)
Theorem rejection_is_a_value_and_ends_the_search rows (p0 : LpProblem num)
    (extra : list (string * LpConstraint num)) :
  labels_kept rows →
  Forall (fun r => Str.free_of pipe (row_Container r) = true) rows →
  build_model (construct rows) = Ok p0 →
  (∀ x, x ∈ mentioned extra → x ∈ variables p0) →
  (∀ a seen, ∃ r seen',
      evaluate_solution (construct rows) (extend p0 extra) a seen
      = (Ok r, seen')
      ∧ ∀ ids ys, r = Some (ids, ys) →
          ids = map cyl_identifier ys
          ∧ Forall2 (fun n y =>
                       Dict.get (cylinders (construct rows)) n = Some y)
              (selected_cylinders a (variables (extend p0 extra))) ys)
  ∧ (∀ (solve : LpProblem num → Z * assignment) st (fuel max : nat) seen',
       pulp_status_solve st = LpStatusOptimal →
       (counter_different_solutions st ≤ max)%nat →
       evaluate_solution (construct rows) (problem st) (values st)
         (all_optimal_solutions st) = (Ok None, seen') →
       search_loop solve (construct rows) (S fuel) max st
       = Some (Ok {| problem := problem st;
                     pulp_status_solve := pulp_status_solve st;
                     values := values st;
                     counter_different_solutions :=
                       counter_different_solutions st;
                     all_optimal_solutions := seen';
                     files := files st |})).
Proof.
  intros _ Hfree Hb Hextra. split.
  - intros a seen.
    destruct (evaluate_solution_Ok rows p0 extra a seen Hfree Hb Hextra)
      as (r & seen' & E).
    exists r, seen'. split; [done|]. intros ids ys ->. by eapply accepted_ids.
  - intros solve st fuel max seen' Hs Hc E. cbn [search_loop].
    rewrite (proj2 (Z.eqb_eq _ _) Hs).
    destruct (Nat.leb_spec (counter_different_solutions st) max); [|lia].
    cbn [andb]. unfold loop_body. rewrite E. by cbn [mbind result_bind].
Qed.

End Rejection.

(** A pair is known from its first component. *)
Lemma pair_fst {A B} (x : A * B) (a : A) : fst x = a → x = (a, snd x).
Proof. destruct x. simpl. by intros ->. Qed.

Lemma evaluate_solution_meets_targets_witness :
  (names_kept Sheet.model
   ∧ evaluate_solution Sheet.items Sheet.model (Sheet.pick 1) ∅
     = (Ok (Some (fst (Sheet.answer 1), snd (Sheet.answer 1))),
        snd (evaluate_solution Sheet.items Sheet.model (Sheet.pick 1) ∅)))
  ∧ Forall2 (fun n y => Dict.get (cylinders Sheet.items) n = Some y)
      (selected_cylinders (Sheet.pick 1) (variables Sheet.model))
      (snd (Sheet.answer 1))
  ∧ size (list_to_set (C := gset string)
            (selected_containers (Sheet.pick 1) (variables Sheet.model)))
    = TOTAL_CONTAINERS
  ∧ num_eqb
      (num_round 2 (foldl num_add (num_of_Q 0)
                      (map volume (snd (Sheet.answer 1)))))
      TOTAL_VOLUME = true
  ∧ num_eqb
      (num_round 2 (foldl num_add (num_of_Q 0)
                      (map weight (snd (Sheet.answer 1)))))
      (num_of_Q (inject_Z TOTAL_WEIGHT)) = true.
Proof.
  assert (evaluate_solution Sheet.items Sheet.model (Sheet.pick 1) ∅
          = (Ok (Some (fst (Sheet.answer 1), snd (Sheet.answer 1))),
             snd (evaluate_solution Sheet.items Sheet.model (Sheet.pick 1) ∅)))
    as Hrun by (apply pair_fst; vm_compute; reflexivity).
  assert (names_kept Sheet.model) as Hnames
    by (unfold names_kept; apply (bool_decide_unpack _); vm_compute;
        exact I).
  split; [by split|].
  exact (evaluate_solution_meets_targets _ _ _ _ _ _ _ Hnames Hrun).
Defined.

(** ** The statements above on the data set [Sheet] *)

Lemma known_locals {A} (d : A) (x : result (option A)) :
  match x with Ok (Some _) => true | _ => false end = true →
  x = Ok (Some (locals_or d x)).
Proof. by destruct x as [[s|]|]. Qed.

Lemma known_state {A} (d : A) (x : option (result A)) :
  match x with Some (Ok _) => true | _ => false end = true →
  x = Some (Ok (state_or d x)).
Proof. by destruct x as [[s|]|]. Qed.

Lemma accepted_solution_is_consistent_witness :
  (labels_kept Sheet.rows
   ∧ Forall (fun r : Row Q => Str.free_of pipe (row_Container r) = true)
       Sheet.rows
   ∧ build_model (construct Sheet.rows) = Ok Sheet.model
   ∧ evaluate_solution (construct Sheet.rows) (extend Sheet.model [])
       (Sheet.pick 1) ∅
     = (Ok (Some (fst (Sheet.answer 1), snd (Sheet.answer 1))),
        snd (evaluate_solution (construct Sheet.rows) (extend Sheet.model [])
               (Sheet.pick 1) ∅)))
  ∧ (∀ k y, Dict.get (cylinders (construct Sheet.rows)) k = Some y →
       Sheet.pick 1 k = 1%Z →
       ∃ bx, Dict.get (boxes (construct Sheet.rows)) (box y) = Some bx
             ∧ Sheet.pick 1 (container bx) = 1%Z)
  ∧ (∀ k1 y1 k2 y2,
       Dict.get (cylinders (construct Sheet.rows)) k1 = Some y1 →
       Dict.get (cylinders (construct Sheet.rows)) k2 = Some y2 →
       Sheet.pick 1 k1 = 1%Z → Sheet.pick 1 k2 = 1%Z →
       box y1 = box y2 → k1 = k2)
  ∧ (∀ k c, Dict.get (containers (construct Sheet.rows)) k = Some c →
       Sheet.pick 1 k = 1%Z →
       ∃ b bx y, b ∈ cont_boxes c
                 ∧ Dict.get (boxes (construct Sheet.rows)) b = Some bx
                 ∧ y ∈ box_cylinders bx
                 ∧ Sheet.pick 1 (cyl_identifier y) = 1%Z).
Proof.
  assert (Forall (fun r : Row Q => Str.free_of pipe (row_Container r) = true)
            Sheet.rows) as Hfree
    by (apply (bool_decide_unpack _); vm_compute; exact I).
  assert (build_model (construct Sheet.rows) = Ok Sheet.model) as Hb
    by (vm_compute; reflexivity).
  assert (evaluate_solution (construct Sheet.rows) (extend Sheet.model [])
            (Sheet.pick 1) ∅
          = (Ok (Some (fst (Sheet.answer 1), snd (Sheet.answer 1))),
             snd (evaluate_solution (construct Sheet.rows)
                    (extend Sheet.model []) (Sheet.pick 1) ∅))) as Hrun
    by (apply pair_fst; vm_compute; reflexivity).
  assert (labels_kept Sheet.rows) as Hkept
    by (unfold labels_kept; apply (bool_decide_unpack _); vm_compute;
        exact I).
  split; [by split_and!|].
  exact (accepted_solution_is_consistent Sheet.rows Sheet.model []
           (Sheet.pick 1) _ _ _ _ Hkept Hfree Hb Hrun).
Defined.

Lemma global_equalities_witness :
  build_model (construct Sheet.rows) = Ok Sheet.model
  ∧ Sheet.rows ≠ []
  ∧ ∃ links,
      constraints Sheet.model
      = [ ("Choosing exactly 35 containers.",
           {| lhs := unit_sum (map cont_identifier
                         (Dict.values (containers (construct Sheet.rows))));
              c_sense := EQ;
              rhs := Scalar (IntCoef (Z.of_nat TOTAL_CONTAINERS)) |});
          ("The selected cylinders' volume must sum to this value.",
           {| lhs := Expr (map (fun c => (NumCoef (volume c), cyl_identifier c))
                         (Dict.values (cylinders (construct Sheet.rows))));
              c_sense := EQ;
              rhs := Scalar (NumCoef TOTAL_VOLUME) |});
          ("The selected cylinders together must weigh this much.",
           {| lhs := Expr (map (fun c => (NumCoef (weight c), cyl_identifier c))
                         (Dict.values (cylinders (construct Sheet.rows))));
              c_sense := EQ;
              rhs := Scalar (IntCoef TOTAL_WEIGHT) |}) ] ++ links
      ∧ Forall (fun nc => c_sense (snd nc) ≠ EQ) links
      ∧ map cont_identifier (Dict.values (containers (construct Sheet.rows)))
        = first_seen (map container_id Sheet.rows)
      ∧ (NoDup (map cylinder_id Sheet.rows) →
         Dict.values (cylinders (construct Sheet.rows))
         = map row_cylinder Sheet.rows).
Proof.
  assert (build_model (construct Sheet.rows) = Ok Sheet.model) as Hb
    by (vm_compute; reflexivity).
  split; [exact Hb|].
  exact (proj1 (global_equalities Sheet.rows) Sheet.model Hb).
Defined.


Lemma exclusion_after_each_acceptance_witness :
  (evaluate_solution Sheet.items (problem Sheet.initial)
     (values Sheet.initial) (all_optimal_solutions Sheet.initial)
   = (Ok (Some (fst (Sheet.answer 1), snd (Sheet.answer 1))),
      snd (evaluate_solution Sheet.items (problem Sheet.initial)
             (values Sheet.initial) (all_optimal_solutions Sheet.initial)))
   ∧ snd (Sheet.answer 1) ≠ []
   ∧ (translate ("Generating different solution "
                   +:+ pretty (counter_different_solutions Sheet.initial))
        ∉ map (fun nc => translate (fst nc))
            (constraints (problem Sheet.initial)))
   ∧ length (fst (Sheet.answer 1)) = 35%nat
   ∧ problem Sheet.initial = Sheet.model)
  ∧ loop_body Sheet.solver Sheet.items Sheet.initial
    = Ok ({| problem :=
               extend (problem Sheet.initial)
                 [("Generating different solution "
                     +:+ pretty (counter_different_solutions Sheet.initial),
                   {| lhs := unit_sum (fst (Sheet.answer 1)); c_sense := LE;
                      rhs := Scalar
                               (IntCoef
                                  (Z.of_nat (length (fst (Sheet.answer 1)))
                                   - 1)) |})];
             pulp_status_solve :=
               fst (Sheet.solver
                      (extend (problem Sheet.initial)
                         [("Generating different solution "
                             +:+ pretty
                                   (counter_different_solutions Sheet.initial),
                           {| lhs := unit_sum (fst (Sheet.answer 1));
                              c_sense := LE;
                              rhs := Scalar
                                       (IntCoef
                                          (Z.of_nat
                                             (length (fst (Sheet.answer 1)))
                                           - 1)) |})]));
             values :=
               snd (Sheet.solver
                      (extend (problem Sheet.initial)
                         [("Generating different solution "
                             +:+ pretty
                                   (counter_different_solutions Sheet.initial),
                           {| lhs := unit_sum (fst (Sheet.answer 1));
                              c_sense := LE;
                              rhs := Scalar
                                       (IntCoef
                                          (Z.of_nat
                                             (length (fst (Sheet.answer 1)))
                                           - 1)) |})]));
             counter_different_solutions :=
               counter_different_solutions Sheet.initial + 1;
             all_optimal_solutions :=
               snd (evaluate_solution Sheet.items (problem Sheet.initial)
                      (values Sheet.initial)
                      (all_optimal_solutions Sheet.initial));
             files :=
               files Sheet.initial
                 ++ [(counter_different_solutions Sheet.initial + 1,
                      fst (Sheet.answer 1))] |}, true)
  ∧ search_loop Sheet.solver Sheet.items 3 2 Sheet.initial
    = Some (Ok sheet_final)
  ∧ length (files sheet_final) = 3%nat
  ∧ ∃ new extra,
      files sheet_final = files Sheet.initial ++ new
      ∧ problem sheet_final = extend (problem Sheet.initial) extra
      ∧ length extra = length new
      ∧ counter_different_solutions sheet_final
        = (counter_different_solutions Sheet.initial + length new)%nat
      ∧ Forall2 (fun f c =>
          snd c = {| lhs := unit_sum (snd f); c_sense := LE;
                     rhs := Scalar (IntCoef (Z.of_nat (length (snd f)) - 1)) |})
          new extra
      ∧ ∀ a ids,
          feasible a (problem sheet_final) →
          ids ∈ map snd new → ¬ Forall (fun n => a n = 1%Z) ids.
Proof.
  assert (evaluate_solution Sheet.items (problem Sheet.initial)
            (values Sheet.initial) (all_optimal_solutions Sheet.initial)
          = (Ok (Some (fst (Sheet.answer 1), snd (Sheet.answer 1))),
             snd (evaluate_solution Sheet.items (problem Sheet.initial)
                    (values Sheet.initial)
                    (all_optimal_solutions Sheet.initial)))) as Hrun
    by (apply pair_fst; vm_compute; reflexivity).
  assert (snd (Sheet.answer 1) ≠ []) as Hne by (vm_compute; discriminate).
  assert (search_loop Sheet.solver Sheet.items 3 2 Sheet.initial
          = Some (Ok sheet_final)) as Hloop
    by (apply known_state; vm_compute; reflexivity).
  assert (translate ("Generating different solution "
                       +:+ pretty (counter_different_solutions Sheet.initial))
            ∉ map (fun nc => translate (fst nc))
                (constraints (problem Sheet.initial))) as Hfresh
    by (apply (bool_decide_unpack _); vm_compute; exact I).
  split.
  { split_and!; [exact Hrun|exact Hne|exact Hfresh|vm_compute; reflexivity
                |vm_compute; reflexivity]. }
  split.
  { exact (proj1 (exclusion_after_each_acceptance Sheet.solver Sheet.items)
             Sheet.initial _ _ _ Hrun Hne Hfresh). }
  split; [exact Hloop|]. split; [vm_compute; reflexivity|].
  exact (proj2 (proj2 (proj2
           (exclusion_after_each_acceptance Sheet.solver Sheet.items)))
           3%nat 2%nat Sheet.initial sheet_final Hloop).
Defined.

Lemma search_stops_at_the_cap_witness :
  (labels_kept Sheet.rows
   ∧ build_model (construct Sheet.rows) = Ok Sheet.model
   ∧ (2 < 5)%nat
   ∧ ∀ k, (k < 5)%nat →
       accepted_at (construct Sheet.rows)
         (Nat.iter k (advance Sheet.solver (construct Sheet.rows))
            (start Sheet.solver Sheet.model ∅)) = true)
  ∧ ∃ st', search Sheet.solver (construct Sheet.rows) false 2
             (start Sheet.solver Sheet.model ∅) = Some (Ok st')
           ∧ length (files st') = 3%nat.
Proof.
  assert (build_model (construct Sheet.rows) = Ok Sheet.model) as Hb
    by (vm_compute; reflexivity).
  assert (2 < 5)%nat as Hlt by lia.
  assert (∀ k, (k < 5)%nat →
    accepted_at (construct Sheet.rows)
      (Nat.iter k (advance Sheet.solver (construct Sheet.rows))
         (start Sheet.solver Sheet.model ∅)) = true) as Hacc.
  { intros k Hk.
    do 5 (destruct k as [|k]; [vm_compute; reflexivity|]). lia. }
  assert (labels_kept Sheet.rows) as Hkept
    by (unfold labels_kept; apply (bool_decide_unpack _); vm_compute;
        exact I).
  split; [by split_and!|].
  exact (proj2 (proj2 (search_stops_at_the_cap Sheet.solver 2))
           Sheet.rows Sheet.model ∅ 5%nat Hkept Hb Hlt Hacc).
Defined.

Lemma accepted_solutions_are_distinct_witness :
  (files Sheet.initial = []
   ∧ search_loop Sheet.solver Sheet.items 3 2 Sheet.initial
     = Some (Ok sheet_final))
  ∧ NoDup (map snd (files sheet_final))
  ∧ all_optimal_solutions Sheet.initial ⊆ all_optimal_solutions sheet_final
  ∧ (∀ ids, ids ∈ map snd (files sheet_final) →
       Str.join "," ids ∈ all_optimal_solutions sheet_final)
  ∧ (∀ (p : LpProblem Q) a seen r seen',
       evaluate_solution Sheet.items p a seen = (r, seen') →
       seen ⊆ seen'
       ∧ ∀ ids ys, r = Ok (Some (ids, ys)) →
           (Str.join "," ids ∉ seen) ∧ Str.join "," ids ∈ seen').
Proof.
  assert (files Sheet.initial = []) as Hfiles by (vm_compute; reflexivity).
  assert (search_loop Sheet.solver Sheet.items 3 2 Sheet.initial
          = Some (Ok sheet_final)) as Hrun
    by (apply known_state; vm_compute; reflexivity).
  split; [by split|].
  exact (accepted_solutions_are_distinct Sheet.solver Sheet.items 3 2
           Sheet.initial sheet_final Hfiles Hrun).
Defined.

Lemma numeric_rejection_is_recorded_witness :
  (visit_all Sheet.items Sheet.short (variables Sheet.model) initial_locals
   = Ok (Some sheet_short_locals)
   ∧ (Str.join "," (chosen_cylinders_ids sheet_short_locals)
      ∉ (∅ : gset string))
   ∧ targets_met sheet_short_locals = false)
  ∧ evaluate_solution Sheet.items Sheet.model Sheet.short ∅
    = (Ok None,
       {[Str.join "," (chosen_cylinders_ids sheet_short_locals)]} ∪ ∅)
  ∧ ∀ seen2,
      {[Str.join "," (chosen_cylinders_ids sheet_short_locals)]} ∪ ∅
        ⊆ seen2 →
      bool_decide
        (Str.join "," (chosen_cylinders_ids sheet_short_locals) ∈ seen2)
      = true
      ∧ evaluate_solution Sheet.items Sheet.model Sheet.short seen2
        = (Ok None, seen2).
Proof.
  assert (visit_all Sheet.items Sheet.short (variables Sheet.model)
            initial_locals
          = Ok (Some sheet_short_locals)) as Hall
    by (apply known_locals; vm_compute; reflexivity).
  assert (Str.join "," (chosen_cylinders_ids sheet_short_locals)
          ∉ (∅ : gset string)) as Hfresh by apply not_elem_of_empty.
  assert (targets_met sheet_short_locals = false) as Hmiss
    by (vm_compute; reflexivity).
  split; [by split_and!|].
  exact (numeric_rejection_is_recorded Sheet.items Sheet.model Sheet.short ∅
           sheet_short_locals Hall Hfresh Hmiss).
Defined.

Lemma rejection_is_a_value_and_ends_the_search_witness :
  (labels_kept Sheet.rows
   ∧ Forall (fun r : Row Q => Str.free_of pipe (row_Container r) = true)
       Sheet.rows
   ∧ build_model (construct Sheet.rows) = Ok Sheet.model
   ∧ ∀ x, x ∈ mentioned sheet_extra → x ∈ variables Sheet.model)
  ∧ (∀ a seen, ∃ r seen',
       evaluate_solution (construct Sheet.rows)
         (extend Sheet.model sheet_extra) a seen
       = (Ok r, seen')
       ∧ ∀ ids ys, r = Some (ids, ys) →
           ids = map cyl_identifier ys
           ∧ Forall2 (fun n y =>
                        Dict.get (cylinders (construct Sheet.rows)) n = Some y)
               (selected_cylinders a
                  (variables (extend Sheet.model sheet_extra))) ys)
  ∧ (∀ (solve : LpProblem Q → Z * assignment) (st : Notebook (num := Q))
       (fuel max : nat) seen',
       pulp_status_solve st = LpStatusOptimal →
       (counter_different_solutions st ≤ max)%nat →
       evaluate_solution (construct Sheet.rows) (problem st) (values st)
         (all_optimal_solutions st) = (Ok None, seen') →
       search_loop solve (construct Sheet.rows) (S fuel) max st
       = Some (Ok {| problem := problem st;
                     pulp_status_solve := pulp_status_solve st;
                     values := values st;
                     counter_different_solutions :=
                       counter_different_solutions st;
                     all_optimal_solutions := seen';
                     files := files st |})).
Proof.
  assert (Forall (fun r : Row Q => Str.free_of pipe (row_Container r) = true)
            Sheet.rows) as Hfree
    by (apply (bool_decide_unpack _); vm_compute; exact I).
  assert (build_model (construct Sheet.rows) = Ok Sheet.model) as Hb
    by (vm_compute; reflexivity).
  assert (∀ x, x ∈ mentioned sheet_extra → x ∈ variables Sheet.model)
    as Hextra
    by (apply Forall_forall, (bool_decide_unpack _); vm_compute; exact I).
  assert (labels_kept Sheet.rows) as Hkept
    by (unfold labels_kept; apply (bool_decide_unpack _); vm_compute;
        exact I).
  split; [by split_and!|].
  exact (rejection_is_a_value_and_ends_the_search Sheet.rows Sheet.model
           sheet_extra Hkept Hfree Hb Hextra).
Defined.

Lemma construction_reuses_and_keeps_order_witness :
  Dict.get (boxes (construct [Sheet.last 1])) (box_id (Sheet.last 2))
  = Some (box_append (row_cylinder (Sheet.last 1))
            {| box_identifier := "K35|LB_1"; box_cylinders := [];
               container := "K35" |})
  ∧ Dict.keys (boxes (construct_row (construct [Sheet.last 1]) (Sheet.last 2)))
    = Dict.keys (boxes (construct [Sheet.last 1]))
  ∧ (∀ k (c : Container),
       Dict.get (containers (construct [Sheet.last 1])) k = Some c →
       Dict.get (containers (construct_row (construct [Sheet.last 1])
                               (Sheet.last 2))) k = Some c)
  ∧ Dict.get (boxes (construct_row (construct [Sheet.last 1]) (Sheet.last 2)))
      (box_id (Sheet.last 2))
    = Some (box_append (row_cylinder (Sheet.last 2))
              (box_append (row_cylinder (Sheet.last 1))
                 {| box_identifier := "K35|LB_1"; box_cylinders := [];
                    container := "K35" |})).
Proof.
  assert (Dict.get (boxes (construct [Sheet.last 1])) (box_id (Sheet.last 2))
          = Some (box_append (row_cylinder (Sheet.last 1))
                    {| box_identifier := "K35|LB_1"; box_cylinders := [];
                       container := "K35" |})) as Hget
    by (vm_compute; reflexivity).
  split; [exact Hget|].
  exact (proj1 (proj2 (proj2 (@construction_reuses_and_keeps_order Q)))
           (construct [Sheet.last 1]) (Sheet.last 2) _ Hget).
Defined.

(** * Further properties *)

(** ** What the library makes of the names *)

Section StoredNames.
Context {num : Type} `{!PyNum num}.

Lemma translate_app (s t : string) :
  translate (s +:+ t) = translate s +:+ translate t.
Proof. induction s as [|c s IH]; simpl; [done|]. by rewrite IH. Qed.

Lemma translate_plain (s : string) : plain s = true → translate s = s.
Proof.
  induction s as [|c s IH]; simpl; [done|].
  intros [Hc Hs]%andb_prop. apply negb_true_iff in Hc.
  by rewrite Hc, IH.
Qed.

Lemma plain_app (s t : string) : plain (s +:+ t) = plain s && plain t.
Proof.
  induction s as [|c s IH]; simpl; [done|]. by rewrite IH, andb_assoc.
Qed.

Lemma pretty_N_char_plain (x : N) : illegal (pretty_N_char x) = false.
Proof.
  destruct x as [|p]; [done|].
  repeat (destruct p as [p|p|]; try done).
Qed.

Lemma pretty_N_go_plain (x : N) (s : string) :
  plain s = true → plain (pretty_N_go x s) = true.
Proof.
  revert s. induction (N.lt_wf_0 x) as [x _ IH]. intros s Hs.
  destruct (decide (0 < x)%N) as [Hx|Hx].
  - rewrite pretty_N_go_step by done. apply IH.
    + by apply N.div_lt.
    + simpl. by rewrite pretty_N_char_plain.
  - assert (x = 0%N) as -> by lia. by rewrite pretty_N_go_0.
Qed.

(** The decimal numeral of a number is left as it is. *)
Lemma pretty_plain (k : nat) : plain (pretty k) = true.
Proof.
  unfold pretty, pretty_nat, pretty, pretty_N. case_decide; [done|].
  by apply pretty_N_go_plain.
Qed.

Lemma box_id_plain (r : Row num) :
  plain (row_Container r) = true → plain (row_Box r) = true →
  plain (box_id r) = true.
Proof.
  intros Hc Hb. unfold box_id, container_id.
  by rewrite !plain_app, Hc, Hb.
Qed.

Lemma cylinder_id_plain (r : Row num) :
  plain_labels r = true → plain (cylinder_id r) = true.
Proof.
  unfold plain_labels. intros [[Hc Hb]%andb_prop Hy]%andb_prop.
  unfold cylinder_id. by rewrite !plain_app, (box_id_plain r Hc Hb), Hy.
Qed.

End StoredNames.

Section Meaning.
Context {num : Type} `{!PyNum num}.
Implicit Types (rows : list (Row num)) (a : assignment).

Lemma expr_value_weighted (f : Cylinder num → num) a ys :
  expr_value a (map (fun c => (NumCoef (f c), cyl_identifier c)) ys)
  = weighted f a ys.
Proof. induction ys as [|y ys IH]; simpl; [done|]. by rewrite IH. Qed.

Lemma total_bounds a names :
  binary a → (0 ≤ total a names ≤ Z.of_nat (length names))%Z.
Proof.
  intros Hbin. induction names as [|n names IH]; simpl; [lia|].
  destruct (Hbin n) as [-> | ->]; lia.
Qed.

Lemma box_links_binary a (c : Container) (b : Box num) :
  binary a →
  Forall (fun nc => holds a (snd nc)) (box_links c b)
  ↔ total a (map cyl_identifier (box_cylinders b)) = a (cont_identifier c).
Proof.
  intros Hbin. rewrite box_links_hold.
  pose proof (total_bounds a (map cyl_identifier (box_cylinders b)) Hbin)
    as Hb. rewrite length_map in Hb.
  destruct (Hbin (cont_identifier c)) as [-> | ->]; lia.
Qed.

Lemma global_hold a (h : Hierarchy num) :
  Forall (fun nc => holds a (snd nc)) (global_constraints h)
  ↔ total a (map cont_identifier (Dict.values (containers h)))
    = Z.of_nat TOTAL_CONTAINERS
    ∧ (weighted volume a (Dict.values (cylinders h))
       == num_to_Q TOTAL_VOLUME)%Q
    ∧ (weighted weight a (Dict.values (cylinders h))
       == inject_Z TOTAL_WEIGHT)%Q.
Proof.
  unfold global_constraints. rewrite !Forall_cons, Forall_nil.
  unfold holds, unit_sum.
  cbn [snd c_sense lhs rhs operand_value coef_value].
  rewrite expr_value_unit, !expr_value_weighted, inject_Z_injective.
  change (Z.of_nat TOTAL_CONTAINERS) with 35%Z.
  change TOTAL_WEIGHT with 18844%Z. tauto.
Qed.

(** The boxes the builder meets are the boxes of the dictionary, each with
    the container it points back to. *)
Lemma linked_boxes_dict rows (c : Container) (b : Box num) :
  (c, b) ∈ linked_boxes (construct rows) →
  Dict.get (boxes (construct rows)) (box_identifier b) = Some b
  ∧ container b = cont_identifier c.
Proof.
  unfold linked_boxes. intros Hin.
  apply list_elem_of_In, in_flat_map in Hin as (c' & Hc' & Hin).
  apply list_elem_of_In in Hc'.
  apply list_elem_of_In, list_elem_of_fmap in Hin as (b' & [= -> ->] & Hb).
  apply values_lookup in Hc' as [k Hget]; [|apply construct_NoDup].
  apply list_elem_of_omap in Hb as (kb & Hkb & Hbx).
  destruct (construct_containers _ _ _ Hget) as [-> Hbs].
  destruct (Hbs kb Hkb) as (bx & Hbx' & Hcont).
  rewrite Hbx in Hbx'. injection Hbx' as <-.
  destruct (construct_boxes _ _ _ Hbx) as (-> & _). done.
Qed.

Lemma dict_linked_boxes rows k (b : Box num) :
  Dict.get (boxes (construct rows)) k = Some b →
  ∃ c : Container, (c, b) ∈ linked_boxes (construct rows)
                   ∧ cont_identifier c = container b.
Proof.
  intros Hget.
  assert (k ∈ map (fun cb : Container * Box num => box_identifier (snd cb))
                (linked_boxes (construct rows))) as Hin.
  { rewrite linked_boxes_identifiers, construct_boxes_perm.
    apply get_keys. by eauto. }
  apply list_elem_of_fmap in Hin as ([c b'] & Hk & Hin). simpl in Hk.
  destruct (linked_boxes_dict _ _ _ Hin) as [Hget' Hcont].
  rewrite <- Hk, Hget in Hget'. injection Hget' as <-.
  by exists c.
Qed.

(** A feasible assignment: what each group of constraints says. *)
Lemma feasible_facts rows (p0 : LpProblem num) a :
  build_model (construct rows) = Ok p0 →
  feasible a p0 →
  binary a
  ∧ total a (Dict.keys (containers (construct rows)))
    = Z.of_nat TOTAL_CONTAINERS
  ∧ (weighted volume a (Dict.values (cylinders (construct rows)))
     == num_to_Q TOTAL_VOLUME)%Q
  ∧ (weighted weight a (Dict.values (cylinders (construct rows)))
     == inject_Z TOTAL_WEIGHT)%Q
  ∧ ∀ k (b : Box num), Dict.get (boxes (construct rows)) k = Some b →
      total a (map cyl_identifier (box_cylinders b)) = a (container b).
Proof.
  intros Hb. pose proof (build_model_rows _ _ Hb) as Hne.
  rewrite (build_model_construct rows Hne) in Hb.
  assert (constraints p0
          = global_constraints (construct rows)
              ++ flat_map (fun cb => box_links (fst cb) (snd cb))
                   (linked_boxes (construct rows))) as Hcs
    by (by injection Hb as <-).
  unfold feasible. rewrite Hcs.
  rewrite Forall_app, global_hold, container_names, Forall_flat_map.
  intros (Hbin & (Hc & Hv & Hw) & Hlinks). split_and!; try done.
  intros k b Hget. destruct (dict_linked_boxes _ _ _ Hget) as (c & Hin & <-).
  rewrite Forall_forall in Hlinks.
  apply (box_links_binary a c b Hbin). by apply (Hlinks (c, b)).
Qed.

Lemma facts_feasible rows (p0 : LpProblem num) a :
  build_model (construct rows) = Ok p0 →
  binary a →
  total a (Dict.keys (containers (construct rows)))
    = Z.of_nat TOTAL_CONTAINERS →
  (weighted volume a (Dict.values (cylinders (construct rows)))
   == num_to_Q TOTAL_VOLUME)%Q →
  (weighted weight a (Dict.values (cylinders (construct rows)))
   == inject_Z TOTAL_WEIGHT)%Q →
  (∀ k (b : Box num), Dict.get (boxes (construct rows)) k = Some b →
     total a (map cyl_identifier (box_cylinders b)) = a (container b)) →
  feasible a p0.
Proof.
  intros Hb. pose proof (build_model_rows _ _ Hb) as Hne.
  rewrite (build_model_construct rows Hne) in Hb.
  assert (constraints p0
          = global_constraints (construct rows)
              ++ flat_map (fun cb => box_links (fst cb) (snd cb))
                   (linked_boxes (construct rows))) as Hcs
    by (by injection Hb as <-).
  unfold feasible. rewrite Hcs.
  rewrite Forall_app, global_hold, container_names, Forall_flat_map.
  intros Hbin Hc Hv Hw Hboxes. split_and!; try done.
  apply Forall_forall. intros [c b] Hin. simpl.
  destruct (linked_boxes_dict _ _ _ Hin) as [Hget Hcont].
  apply (box_links_binary a c b Hbin). rewrite <- Hcont. by eapply Hboxes.
Qed.

(** X1.  What the model of a sheet means.  An assignment is feasible for
    the model (all variables binary, every constraint satisfied) exactly
    when thirty-five containers are at one, the volumes and weights of the
    cylinders at one sum to the two targets, and in every box the number of
    cylinders at one equals the value of the container of the box: a chosen
    container has exactly one cylinder chosen in each of its boxes, and a
    container that is not chosen has none. *)
Theorem feasible_iff_one_cylinder_per_box rows (p0 : LpProblem num) a :
  build_model (construct rows) = Ok p0 →
  feasible a p0
  ↔ binary a
    ∧ total a (Dict.keys (containers (construct rows)))
      = Z.of_nat TOTAL_CONTAINERS
    ∧ (weighted volume a (Dict.values (cylinders (construct rows)))
       == num_to_Q TOTAL_VOLUME)%Q
    ∧ (weighted weight a (Dict.values (cylinders (construct rows)))
       == inject_Z TOTAL_WEIGHT)%Q
    ∧ ∀ k (b : Box num), Dict.get (boxes (construct rows)) k = Some b →
        total a (map cyl_identifier (box_cylinders b)) = a (container b).
Proof.
  intros Hb. split; [by apply feasible_facts|].
  intros (Hbin & Hc & Hv & Hw & Hboxes). by apply (facts_feasible rows).
Qed.

End Meaning.

(** ** Boxes and the containers that own them *)

Section Owner.
Context {num : Type}.
Implicit Types (r : Row num) (rows : list (Row num)).

(** A box object points back to the container of one of its rows. *)
Lemma construct_box_row rows k (b : Box num) :
  Dict.get (boxes (construct rows)) k = Some b →
  ∃ r, r ∈ rows ∧ box_id r = k ∧ container b = container_id r.
Proof.
  revert b. induction rows as [|r rows IH] using rev_ind; intros b; [done|].
  rewrite construct_snoc, construct_row_boxes. case_decide as Hk.
  - intros [= <-]. simpl.
    destruct (Dict.get (boxes (construct rows)) k) as [b0|] eqn:E; simpl.
    + destruct (IH b0 eq_refl) as (r' & Hr' & Hid & Hc).
      exists r'. split_and!; [|done..]. apply elem_of_app. by left.
    + exists r. split_and!; [|done..]. apply elem_of_app. right. left.
  - intros (r' & Hr' & Hid & Hc)%IH.
    exists r'. split_and!; [|done..]. apply elem_of_app. by left.
Qed.

Lemma split_box_id r :
  Str.free_of pipe (row_Container r) = true →
  Str.split pipe (box_id r) = row_Container r :: Str.split pipe (row_Box r).
Proof.
  intros Hfree. unfold box_id, container_id.
  change ("|" +:+ row_Box r) with (String pipe (row_Box r)).
  by rewrite split_app, (split_free _ _ Hfree).
Qed.

(** With container labels free of the separator, the box identifier
    determines the container. *)
Lemma box_id_container r r' :
  Str.free_of pipe (row_Container r) = true →
  Str.free_of pipe (row_Container r') = true →
  box_id r = box_id r' → container_id r = container_id r'.
Proof.
  intros Hr Hr' Heq.
  pose proof (split_box_id r Hr) as H1. pose proof (split_box_id r' Hr') as H2.
  rewrite Heq, H2 in H1. by injection H1.
Qed.

Lemma box_owner rows k (b : Box num) r :
  Forall (fun r => Str.free_of pipe (row_Container r) = true) rows →
  Dict.get (boxes (construct rows)) k = Some b →
  r ∈ rows → box_id r = k → container b = container_id r.
Proof.
  intros Hfree Hget Hr Hk. rewrite Forall_forall in Hfree.
  destruct (construct_box_row _ _ _ Hget) as (r' & Hr' & Hid & ->).
  apply box_id_container; [by apply Hfree..|congruence].
Qed.

(** Every row finds its box under its container. *)
Lemma container_has_box rows r (c : Container) :
  Forall (fun r => Str.free_of pipe (row_Container r) = true) rows →
  r ∈ rows →
  Dict.get (containers (construct rows)) (container_id r) = Some c →
  box_id r ∈ cont_boxes c.
Proof.
  intros Hfree Hr Hget. rewrite (construct_cont_boxes _ _ _ Hget).
  assert (box_id r ∈ Dict.keys (boxes (construct rows))) as Hk.
  { destruct (construct_keys rows) as (_ & -> & _).
    apply elem_of_first_seen, list_elem_of_fmap. by exists r. }
  apply list_elem_of_filter. split; [|done].
  apply get_keys in Hk as [b Hb]. rewrite Hb. simpl. f_equal.
  by eapply box_owner.
Qed.

(** The validator reads the box of a cylinder off its name. *)
Lemma name_box_cylinder_id r :
  Str.free_of pipe (row_Container r) = true →
  Str.free_of pipe (row_Box r) = true →
  name_box (cylinder_id r) = Some (box_id r).
Proof.
  intros Hc Hb. unfold cylinder_id.
  change ("|" +:+ row_Cylinder r) with (String pipe (row_Cylinder r)).
  unfold box_id at 1. 
  change ("|" +:+ row_Box r) with (String pipe (row_Box r)).
  rewrite name_box_prefix. unfold name_box.
  change (container_id r +:+ String pipe (row_Box r)) with (box_id r).
  by rewrite (split_box_id r Hc), (split_free _ _ Hb).
Qed.

End Owner.

(** ** Sums of binary values *)

Lemma total_elem a names n :
  binary a → n ∈ names → (a n ≤ total a names)%Z.
Proof.
  intros Hbin. induction names as [|m names IH]; [by intros ?%elem_of_nil|].
  pose proof (total_bounds a names Hbin) as Hb.
  intros [->|Hin]%elem_of_cons; simpl; [lia|].
  destruct (Hbin m) as [-> | ->]; specialize (IH Hin); lia.
Qed.

Lemma total_two a names n1 n2 :
  binary a → n1 ∈ names → n2 ∈ names → n1 ≠ n2 →
  (a n1 + a n2 ≤ total a names)%Z.
Proof.
  intros Hbin. induction names as [|m names IH]; [by intros ?%elem_of_nil|].
  pose proof (total_bounds a names Hbin) as Hb.
  intros [->|H1]%elem_of_cons [->|H2]%elem_of_cons Hne; simpl; [done|..].
  - pose proof (total_elem a names n2 Hbin H2). lia.
  - pose proof (total_elem a names n1 Hbin H1). lia.
  - destruct (Hbin m) as [-> | ->]; specialize (IH H1 H2 Hne); lia.
Qed.

Lemma total_pos a names :
  binary a → (1 ≤ total a names)%Z → ∃ n, n ∈ names ∧ a n = 1%Z.
Proof.
  intros Hbin. induction names as [|m names IH]; simpl; [lia|].
  destruct (Hbin m) as [Hm|Hm].
  - rewrite Hm. intros (n & Hn & Hone)%IH. exists n. split; [by right|done].
  - intros _. exists m. split; [left|done].
Qed.

(** The variables at one among distinct names are as many as their sum. *)
Lemma total_filter a names :
  binary a →
  total a names = Z.of_nat (length (filter (fun n => a n = 1%Z) names)).
Proof.
  intros Hbin. induction names as [|m names IH]; simpl; [done|].
  rewrite filter_cons. destruct (Hbin m) as [Hm|Hm]; rewrite Hm.
  - rewrite decide_False by done. lia.
  - rewrite decide_True by done. simpl length. lia.
Qed.

(** ** The variables of a problem *)

Lemma NoDup_insert_by_name x l :
  x ∉ l → NoDup l → NoDup (insert_by_name x l).
Proof.
  induction l as [|y l IH]; simpl; intros Hx Hnd.
  - apply NoDup_singleton.
  - destruct (Str.le x y); [by constructor|].
    apply NoDup_cons in Hnd as [Hy Hnd].
    apply not_elem_of_cons in Hx as [Hxy Hx].
    constructor; [|by apply IH].
    rewrite elem_of_insert_by_name. intros [->|?]; done.
Qed.

Lemma NoDup_sort_by_name l : NoDup l → NoDup (sort_by_name l).
Proof.
  induction 1 as [|x l Hx Hnd IH]; simpl; [constructor|].
  apply NoDup_insert_by_name; [|done]. by rewrite elem_of_sort_by_name.
Qed.

Lemma NoDup_variables {num : Type} `{!PyNum num} (p : LpProblem num) :
  NoDup (variables p).
Proof. apply NoDup_sort_by_name, NoDup_remove_dups. Qed.

(** ** Passing the structural checks *)

Section Passing.
Context {num : Type} `{!PyNum num}.
Implicit Types (h : Hierarchy num) (a : assignment)
  (st : Locals (num := num)).

Lemma scan_cylinders_finds a (cs : list (Cylinder num)) flag :
  flag = true ∨ (∃ y, y ∈ cs ∧ a (cyl_identifier y) = 1%Z) →
  scan_cylinders a cs flag = true.
Proof.
  induction cs as [|y cs IH]; simpl.
  - intros [?|(y & ?%elem_of_nil & _)]; done.
  - destruct (is_one a (cyl_identifier y)) eqn:Hy; [done|].
    intros [?|(y' & [->|Hin]%elem_of_cons & Hone)]; apply IH; eauto.
    apply is_one_true in Hone. congruence.
Qed.

Lemma scan_boxes_finds h a bs flag :
  (∀ b, b ∈ bs → is_Some (Dict.get (boxes h) b)) →
  flag = true ∨ (∃ k bx y, k ∈ bs ∧ Dict.get (boxes h) k = Some bx
                   ∧ y ∈ box_cylinders bx ∧ a (cyl_identifier y) = 1%Z) →
  scan_boxes h a bs flag = Ok true.
Proof.
  revert flag. induction bs as [|k bs IH]; intros flag Hbs; simpl.
  - intros [->|(k & bx & y & ?%elem_of_nil & _)]; done.
  - destruct (Hbs k) as [bx Hbx]; [left|]. unfold subscript. rewrite Hbx.
    cbn [mbind result_bind].
    intros Hfound. apply IH; [intros b Hb; apply Hbs; by right|].
    destruct Hfound as [->|(k' & bx' & y & [->|Hin]%elem_of_cons & Hget & Hy & Hone)].
    + left. apply scan_cylinders_finds. by left.
    + left. apply scan_cylinders_finds. right. exists y.
      rewrite Hbx in Hget. injection Hget as ->. done.
    + right. by exists k', bx', y.
Qed.

(** The checks of [visit_all_structure] are all there is to pass. *)
Lemma visit_all_passes h a vars st :
  (∀ n, n ∈ vars → a n = 1%Z → is_container_name n = true →
     ∃ c, Dict.get (containers h) n = Some c
          ∧ scan_boxes h a (cont_boxes c) false = Ok true) →
  (∀ n, n ∈ vars → a n = 1%Z → is_container_name n = false →
     ∃ y bx s, Dict.get (cylinders h) n = Some y ∧ name_box n = Some s
               ∧ Dict.get (boxes h) (box y) = Some bx
               ∧ a (container bx) = 1%Z) →
  NoDup (map name_box (selected_cylinders a vars)) →
  (∀ n s, n ∈ selected_cylinders a vars → name_box n = Some s →
     s ∉ used_boxes st) →
  ∃ st', visit_all h a vars st = Ok (Some st').
Proof.
  unfold selected_cylinders.
  revert st. induction vars as [|n vars IH]; intros st Hc Hy Hnd Hfresh;
    simpl; [by eauto|].
  assert (∀ n0, n0 ∈ vars → a n0 = 1%Z → is_container_name n0 = true →
     ∃ c, Dict.get (containers h) n0 = Some c
          ∧ scan_boxes h a (cont_boxes c) false = Ok true) as Hc'
    by (intros n0 Hn0; apply Hc; by right).
  assert (∀ n0, n0 ∈ vars → a n0 = 1%Z → is_container_name n0 = false →
     ∃ y bx s, Dict.get (cylinders h) n0 = Some y ∧ name_box n0 = Some s
               ∧ Dict.get (boxes h) (box y) = Some bx
               ∧ a (container bx) = 1%Z) as Hy'
    by (intros n0 Hn0; apply Hy; by right).
  unfold visit. destruct (is_one a n) eqn:Hone.
  2:{ cbn [mbind result_bind].
      rewrite filter_cons_False in Hnd, Hfresh
        by (rewrite Hone; by intros [? _]).
      by apply IH. }
  pose proof (proj1 (is_one_true a n) Hone) as Hone'.
  fold (is_container_name n). destruct (is_container_name n) eqn:Hkind.
  - rewrite filter_cons_False in Hnd, Hfresh
      by (rewrite Hkind; by intros [_ ?]).
    destruct (Hc n) as (c & Hget & Hscan); [left|done..|].
    unfold subscript. rewrite Hget. cbn [mbind result_bind].
    rewrite Hscan. cbn [mbind result_bind negb]. by apply IH.
  - rewrite filter_cons_True in Hnd, Hfresh by (by split).
    destruct (Hy n) as (y & bx & s & Hget & Hs & Hbx & Hup); [left|done..|].
    unfold subscript. rewrite Hget. cbn [mbind result_bind].
    pose proof Hs as Hname. unfold name_box in Hs.
    destruct (Str.split pipe n) as [|s0 [|s1 l]] eqn:Hsplit; [done..|].
    injection Hs as Hs. rewrite Hs. cbn [mbind result_bind]. rewrite Hbx.
    cbn [mbind result_bind].
    rewrite (proj2 (is_one_true a (container bx)) Hup). cbn [negb].
    rewrite bool_decide_true by (apply (Hfresh n); [left|done]).
    cbn [mbind result_bind]. apply IH; [done..| |].
    + by apply NoDup_cons in Hnd as [_ ?].
    + intros n' s' Hn' Hs'. cbn [used_boxes].
      apply NoDup_cons in Hnd as [Hnot _].
      apply not_elem_of_union. split; [|apply (Hfresh n'); [by right|done]].
      intros ->%elem_of_singleton. apply Hnot.
      apply list_elem_of_fmap. exists n'. split; [congruence|done].
Qed.

End Passing.

(** ** Consistent selections before the validator *)

Section Base.
Context {num : Type} `{!PyNum num}.

Lemma feasible_base (p0 : LpProblem num)
    (extra : list (string * LpConstraint num)) (a : assignment) :
  feasible a (extend p0 extra) → feasible a p0.
Proof.
  intros [Hbin Hall]. split; [done|].
  unfold extend in Hall. simpl in Hall. by apply Forall_app in Hall as [? _].
Qed.

(** A feasible assignment is a consistent selection. *)
Lemma feasible_consistent (rows : list (Row num)) (p0 : LpProblem num)
    (extra : list (string * LpConstraint num)) (a : assignment) :
  build_model (construct rows) = Ok p0 →
  feasible a (extend p0 extra) → consistent rows a.
Proof.
  intros Hb Hfeas%feasible_base.
  destruct (feasible_facts rows p0 a Hb Hfeas) as (Hbin & Hc & _ & _ & Hbx).
  by split_and!.
Qed.

End Base.

Section Complete.
Context {num : Type} `{!PyNum num}.
Variable rows : list (Row num).
Variable p0 : LpProblem num.
Variable extra : list (string * LpConstraint num).
Variable a : assignment.
Hypothesis Hfree :
  Forall (fun r => Str.free_of pipe (row_Container r) = true) rows.
Hypothesis Hfreeb :
  Forall (fun r => Str.free_of pipe (row_Box r) = true) rows.
Hypothesis Hb : build_model (construct rows) = Ok p0.
Hypothesis Hextra : ∀ x, x ∈ mentioned extra → x ∈ variables p0.
Hypothesis Hcons : consistent rows a.

Lemma vars_iff x :
  x ∈ variables (extend p0 extra)
  ↔ x ∈ Dict.keys (containers (construct rows))
    ∨ x ∈ Dict.keys (cylinders (construct rows)).
Proof.
  rewrite elem_of_variables_extend, <- (variables_built rows p0 x Hb).
  split; [intros [?|?%Hextra]; done|by left].
Qed.

Lemma cylinder_key n :
  n ∈ Dict.keys (cylinders (construct rows)) →
  ∃ r, r ∈ rows ∧ n = cylinder_id r
       ∧ Dict.get (cylinders (construct rows)) n = Some (row_cylinder r).
Proof.
  intros [y Hy]%get_keys.
  destruct (construct_cylinders _ _ _ Hy) as (r & Hr & -> & <-).
  by exists r.
Qed.

Lemma container_var n :
  n ∈ variables (extend p0 extra) → is_container_name n = true →
  n ∈ Dict.keys (containers (construct rows)).
Proof.
  intros [?|(r & _ & -> & _)%cylinder_key]%vars_iff Hkind; [done|].
  by rewrite cylinder_id_not_container in Hkind.
Qed.

Lemma cylinder_var n :
  n ∈ variables (extend p0 extra) → is_container_name n = false →
  n ∈ Dict.keys (cylinders (construct rows)).
Proof.
  intros [Hc|?]%vars_iff Hkind; [|done].
  by rewrite (container_id_is_container rows n Hfree Hc) in Hkind.
Qed.

(** The box of a row, and what consistency says of it. *)
Lemma row_box r :
  r ∈ rows →
  ∃ bx : Box num,
    Dict.get (boxes (construct rows)) (box_id r) = Some bx
    ∧ container bx = container_id r
    ∧ row_cylinder r ∈ box_cylinders bx
    ∧ total a (map cyl_identifier (box_cylinders bx)) = a (container_id r).
Proof.
  intros Hr.
  assert (box_id r ∈ Dict.keys (boxes (construct rows))) as Hk.
  { destruct (construct_keys rows) as (_ & -> & _).
    apply elem_of_first_seen, list_elem_of_fmap. by exists r. }
  apply get_keys in Hk as [bx Hbx]. exists bx.
  pose proof (box_owner rows _ bx r Hfree Hbx Hr eq_refl) as Hown.
  destruct Hcons as (_ & _ & Hboxes).
  split_and!; [done..| |by rewrite (Hboxes _ _ Hbx), Hown].
  destruct (construct_boxes _ _ _ Hbx) as (_ & -> & _).
  apply list_elem_of_fmap. exists r. split; [done|].
  by apply list_elem_of_filter.
Qed.

Lemma binary_a : binary a.
Proof. by destruct Hcons. Qed.

Lemma passes_containers n :
  n ∈ variables (extend p0 extra) → a n = 1%Z → is_container_name n = true →
  ∃ c, Dict.get (containers (construct rows)) n = Some c
       ∧ scan_boxes (construct rows) a (cont_boxes c) false = Ok true.
Proof.
  intros Hn Hone Hkind. pose proof (container_var n Hn Hkind) as Hkey.
  pose proof Hkey as [c Hc]%get_keys. exists c. split; [done|].
  destruct (construct_keys rows) as (Hk & _). rewrite Hk in Hkey.
  apply elem_of_first_seen, list_elem_of_fmap in Hkey as (r & -> & Hr).
  destruct (row_box r Hr) as (bx & Hbx & Hown & _ & Htot).
  destruct (total_pos a _ binary_a ltac:(rewrite Htot, Hone; lia))
    as (m & Hm & Hmone).
  apply list_elem_of_fmap in Hm as (y & -> & Hy).
  apply scan_boxes_finds.
  - intros b Hin. destruct (construct_containers _ _ _ Hc) as [_ Hbs].
    destruct (Hbs b Hin) as (bx' & Hbx' & _). by eauto.
  - right. exists (box_id r), bx, y. split_and!; [|done..].
    by apply (container_has_box rows r c Hfree Hr).
Qed.

Lemma passes_cylinders n :
  n ∈ variables (extend p0 extra) → a n = 1%Z → is_container_name n = false →
  ∃ r bx, r ∈ rows ∧ n = cylinder_id r
    ∧ Dict.get (cylinders (construct rows)) n = Some (row_cylinder r)
    ∧ name_box n = Some (box_id r)
    ∧ Dict.get (boxes (construct rows)) (box_id r) = Some bx
    ∧ row_cylinder r ∈ box_cylinders bx
    ∧ total a (map cyl_identifier (box_cylinders bx)) = a (container bx)
    ∧ a (container bx) = 1%Z.
Proof.
  intros Hn Hone Hkind.
  destruct (cylinder_key n (cylinder_var n Hn Hkind)) as (r & Hr & -> & Hget).
  destruct (row_box r Hr) as (bx & Hbx & Hown & Hin & Htot).
  exists r, bx. rewrite Forall_forall in Hfree, Hfreeb.
  split_and!; try done.
  - apply name_box_cylinder_id; [by apply Hfree|by apply Hfreeb].
  - by rewrite Hown.
  - rewrite Hown.
    pose proof (total_elem a (map cyl_identifier (box_cylinders bx))
                  (cylinder_id r) binary_a) as Hle.
    rewrite Htot in Hle.
    destruct (binary_a (container_id r)) as [Hz|?]; [|done].
    assert (cylinder_id r ∈ map cyl_identifier (box_cylinders bx)) as Hmem
      by (apply list_elem_of_fmap; by exists (row_cylinder r)).
    specialize (Hle Hmem). lia.
Qed.

Lemma passes_boxes :
  NoDup (map name_box (selected_cylinders a (variables (extend p0 extra)))).
Proof.
  apply NoDup_fmap_2_strong; [|apply NoDup_filter, NoDup_variables].
  intros n1 n2 [[Ho1 Hk1] Hn1]%list_elem_of_filter
    [[Ho2 Hk2] Hn2]%list_elem_of_filter Heq.
  apply is_one_true in Ho1, Ho2.
  destruct (passes_cylinders n1 Hn1 Ho1 Hk1)
    as (r1 & bx1 & _ & -> & _ & Hb1 & Hbx1 & Hin1 & Htot1 & _).
  destruct (passes_cylinders n2 Hn2 Ho2 Hk2)
    as (r2 & bx2 & _ & -> & _ & Hb2 & Hbx2 & Hin2 & _).
  rewrite Hb1, Hb2 in Heq. injection Heq as Heq.
  rewrite Heq, Hbx2 in Hbx1. injection Hbx1 as <-.
  destruct (decide (cylinder_id r1 = cylinder_id r2)) as [?|Hne]; [done|].
  assert (cylinder_id r1 ∈ map cyl_identifier (box_cylinders bx2)) as M1
    by (apply list_elem_of_fmap; by exists (row_cylinder r1)).
  assert (cylinder_id r2 ∈ map cyl_identifier (box_cylinders bx2)) as M2
    by (apply list_elem_of_fmap; by exists (row_cylinder r2)).
  pose proof (total_two a _ _ _ binary_a M1 M2 Hne) as Hle.
  rewrite Htot1, Ho1, Ho2 in Hle.
  destruct (binary_a (container bx2)) as [Hz|Hz]; rewrite Hz in Hle; lia.
Qed.

(** The containers at one, as the validator counts them. *)
Lemma selected_containers_count :
  length (selected_containers a (variables (extend p0 extra)))
  = TOTAL_CONTAINERS.
Proof.
  destruct Hcons as (_ & Hc & _).
  rewrite (total_filter a _ binary_a) in Hc. apply Nat2Z.inj in Hc.
  rewrite <- Hc. apply Permutation_length, NoDup_Permutation.
  - apply NoDup_filter, NoDup_variables.
  - apply NoDup_filter, construct_NoDup.
  - intros x. unfold selected_containers. rewrite !list_elem_of_filter.
    rewrite is_one_true. split.
    + intros [[Hone Hkind] Hx]. split; [done|by apply container_var].
    + intros [Hone Hx]. split_and!; [done| |apply vars_iff; by left].
      by eapply container_id_is_container.
Qed.

(** The identifier of a cylinder object is the name of its variable. *)
Lemma selected_objects (names : list string) (ys : list (Cylinder num)) :
  Forall2 (fun n y => Dict.get (cylinders (construct rows)) n = Some y)
    names ys →
  map cyl_identifier ys = names.
Proof.
  induction 1 as [|n y names ys Hget _ IH]; simpl; [done|].
  destruct (construct_cylinders _ _ _ Hget) as (r & _ & -> & <-).
  by rewrite IH.
Qed.

(** Every structural check is passed, and thirty-five containers are
    counted. *)
Lemma consistent_visit_all :
  ∃ st ys,
    visit_all (construct rows) a (variables (extend p0 extra)) initial_locals
    = Ok (Some st)
    ∧ Forall2 (fun n y => Dict.get (cylinders (construct rows)) n = Some y)
        (selected_cylinders a (variables (extend p0 extra))) ys
    ∧ size (used_containers st) = TOTAL_CONTAINERS
    ∧ sum_volumes st = foldl num_add (num_of_Q 0) (map volume ys)
    ∧ sum_weights st = foldl num_add (num_of_Q 0) (map weight ys)
    ∧ chosen_cylinders_ids st
      = selected_cylinders a (variables (extend p0 extra))
    ∧ chosen_cylinders st = ys.
Proof.
  destruct (visit_all_passes (construct rows) a
              (variables (extend p0 extra)) initial_locals) as [st Hst].
  - apply passes_containers.
  - intros n Hn Hone Hkind.
    destruct (passes_cylinders n Hn Hone Hkind)
      as (r & bx & _ & -> & Hget & Hname & Hbx & _ & _ & Hup).
    by exists (row_cylinder r), bx, (box_id r).
  - apply passes_boxes.
  - intros n s _ _. simpl. apply not_elem_of_empty.
  - destruct (visit_all_Some _ _ _ _ _ Hst)
      as (ys & Hys & Hc & Hsv & Hsw & Hids & Hcyl).
    exists st, ys. simpl in *. split_and!; try done.
    + rewrite Hc, (right_id_L ∅ (∪)), size_list_to_set.
      * apply selected_containers_count.
      * apply NoDup_filter, NoDup_variables.
    + by rewrite Hids, (selected_objects _ _ Hys).
Qed.

End Complete.

Section CheckerFacts.
Context {num : Type} `{!PyNum num}.

Lemma holdsb_holds (a : assignment) (c : LpConstraint num) :
  holdsb a c = true ↔ holds a c.
Proof.
  unfold holdsb, holds. destruct (c_sense c).
  - apply Qle_bool_iff.
  - apply Qeq_bool_iff.
  - apply Qle_bool_iff.
Qed.

Lemma all_hold_feasible (a : assignment) (p : LpProblem num) :
  binary a → all_hold a p = true → feasible a p.
Proof.
  intros Hbin Hall. split; [done|]. unfold all_hold in Hall.
  rewrite forallb_forall in Hall. apply Forall_forall.
  intros nc Hin%list_elem_of_In. by apply holdsb_holds, Hall.
Qed.

End CheckerFacts.

(** ** Exact sums *)

Section ExactSums.

Lemma foldl_add_exact (l : list Q) (x : Q) :
  (foldl (num_add (num := Q)) x l == x + foldr Qplus 0 l)%Q.
Proof.
  revert x. induction l as [|y l IH]; intros x; simpl.
  - ring.
  - rewrite IH, Qred_correct. ring.
Qed.

Lemma sum_Permutation (l l' : list Q) :
  l ≡ₚ l' → (foldr Qplus 0 l == foldr Qplus 0 l')%Q.
Proof.
  induction 1 as [|x l l' _ IH|x y l|l1 l2 l3 _ IH1 _ IH2]; simpl.
  - reflexivity.
  - by rewrite IH.
  - ring.
  - by rewrite IH1.
Qed.

Lemma weighted_filter (f : Cylinder Q → Q) (a : assignment)
    (ys : list (Cylinder Q)) :
  binary a →
  (weighted f a ys
   == foldr Qplus 0
        (map f (filter (fun y => a (cyl_identifier y) = 1%Z) ys)))%Q.
Proof.
  intros Hbin. induction ys as [|y ys IH]; simpl; [reflexivity|].
  rewrite filter_cons, IH.
  destruct (Hbin (cyl_identifier y)) as [Hy|Hy]; rewrite Hy.
  - rewrite decide_False by done. ring.
  - rewrite decide_True by done. simpl. ring.
Qed.

(** Rounding to two digits leaves a number with two digits as it is. *)
Lemma round_exact (x : Q) (z : Z) :
  (x * inject_Z 100 == inject_Z z)%Q → (QNum.round 2 x == z # 100)%Q.
Proof.
  intros Hx. unfold QNum.round.
  change (10 ^ Z.of_nat 2)%Z with 100%Z. rewrite Qred_correct.
  change (Z.to_pos 100) with 100%positive.
  assert (QNum.round_half_even (x * inject_Z 100) = z) as ->; [|reflexivity].
  unfold QNum.round_half_even.
  remember (x * inject_Z 100)%Q as q eqn:Eq. clear Eq.
  unfold Qeq in Hx. simpl in Hx. rewrite Z.mul_1_r in Hx. rewrite Hx.
  rewrite Z.div_mul, Z.mod_mul by done. simpl. done.
Qed.

End ExactSums.

Section Completeness.
Context {num : Type} `{!PyNum num}.
Implicit Types (rows : list (Row num)) (a : assignment).

(** X2.  Over a hierarchy built from rows whose labels are stored by the
    library as they are (so that the name of a variable is the identifier
    of its item) and whose container and box labels hold no separator, an
    assignment that is feasible for the model (with any further
    constraints over its variables) passes every structural check of
    [evaluate_solution] and its count of thirty-five containers, whatever
    the number implementation.  The call never raises; what is left to
    decide the outcome is the membership test on the solution string and
    the two rounded sums.  The identifiers returned are the names of the
    cylinder variables at one, in the order of the variables of the
    model. *)
Theorem feasible_assignment_passes_structure rows (p0 : LpProblem num)
    (extra : list (string * LpConstraint num)) a (seen : gset string) :
  Forall (fun r => plain_labels r = true) rows →
  Forall (fun r => Str.free_of pipe (row_Container r) = true) rows →
  Forall (fun r => Str.free_of pipe (row_Box r) = true) rows →
  build_model (construct rows) = Ok p0 →
  (∀ x, x ∈ mentioned extra → x ∈ variables p0) →
  feasible a (extend p0 extra) →
  ∃ ys,
    Forall2 (fun n y => Dict.get (cylinders (construct rows)) n = Some y)
      (selected_cylinders a (variables (extend p0 extra))) ys
    ∧ evaluate_solution (construct rows) (extend p0 extra) a seen
      = let ids := selected_cylinders a (variables (extend p0 extra)) in
        let s := Str.join "," ids in
        if bool_decide (s ∈ seen) then (Ok None, seen)
        else if num_eqb
                  (num_round 2 (foldl num_add (num_of_Q 0) (map volume ys)))
                  TOTAL_VOLUME
                && num_eqb
                     (num_round 2
                        (foldl num_add (num_of_Q 0) (map weight ys)))
                     (num_of_Q (inject_Z TOTAL_WEIGHT))
             then (Ok (Some (ids, ys)), {[s]} ∪ seen)
             else (Ok None, {[s]} ∪ seen).
Proof.
  intros _ Hfree Hfreeb Hb Hextra Hfeas.
  destruct (consistent_visit_all rows p0 extra a Hfree Hfreeb Hb Hextra
              (feasible_consistent rows p0 extra a Hb Hfeas))
    as (st & ys & Hst & Hys & Hsize & Hsv & Hsw & Hids & Hcyl).
  exists ys. split; [done|].
  rewrite evaluate_solution_unfold, Hst. cbn zeta. rewrite Hids.
  unfold targets_met. rewrite Hsize, Hsv, Hsw, Hcyl.
  change (Nat.eqb TOTAL_CONTAINERS TOTAL_CONTAINERS) with true.
  by cbn [andb].
Qed.

(** A consistent selection whose string is new and whose rounded sums are
    on target is accepted. *)
Lemma consistent_on_target_accepted rows (p0 : LpProblem num)
    (extra : list (string * LpConstraint num)) a (seen : gset string) ys :
  Forall (fun r => Str.free_of pipe (row_Container r) = true) rows →
  Forall (fun r => Str.free_of pipe (row_Box r) = true) rows →
  build_model (construct rows) = Ok p0 →
  (∀ x, x ∈ mentioned extra → x ∈ variables p0) →
  consistent rows a →
  Forall2 (fun n y => Dict.get (cylinders (construct rows)) n = Some y)
    (selected_cylinders a (variables (extend p0 extra))) ys →
  Str.join "," (selected_cylinders a (variables (extend p0 extra))) ∉ seen →
  num_eqb (num_round 2 (foldl num_add (num_of_Q 0) (map volume ys)))
    TOTAL_VOLUME = true →
  num_eqb (num_round 2 (foldl num_add (num_of_Q 0) (map weight ys)))
    (num_of_Q (inject_Z TOTAL_WEIGHT)) = true →
  evaluate_solution (construct rows) (extend p0 extra) a seen
  = (Ok (Some (selected_cylinders a (variables (extend p0 extra)), ys)),
     {[Str.join "," (selected_cylinders a (variables (extend p0 extra)))]}
       ∪ seen).
Proof.
  intros Hfree Hfreeb Hb Hextra Hcons Hys Hnew Hv Hw.
  destruct (consistent_visit_all rows p0 extra a Hfree Hfreeb Hb Hextra Hcons)
    as (st & ys' & Hst & Hys' & Hsize & Hsv & Hsw & Hids & Hcyl).
  assert (ys' = ys) as ->.
  { clear -Hys Hys'. revert ys' Hys'.
    induction Hys as [|n y ns ys Hy _ IH]; intros ys' Hys'.
    - by apply Forall2_nil_inv_l in Hys'.
    - apply Forall2_cons_inv_l in Hys' as (y' & ys2 & Hy' & Hrest & ->).
      rewrite Hy in Hy'. injection Hy' as <-. f_equal. by apply IH. }
  rewrite evaluate_solution_unfold, Hst. cbn zeta. rewrite Hids.
  rewrite bool_decide_false by done.
  unfold targets_met. rewrite Hsize, Hsv, Hsw, Hcyl.
  change (Nat.eqb TOTAL_CONTAINERS TOTAL_CONTAINERS) with true.
  change DIGITS_PRECISION with 2%nat. by rewrite Hv, Hw.
Qed.

End Completeness.

Section ExactCompleteness.
Implicit Types (rows : list (Row Q)) (a : assignment).

Lemma values_NoDup rows :
  NoDup (Dict.values (cylinders (construct rows))).
Proof.
  apply (NoDup_fmap_1 cyl_identifier).
  change (NoDup (map cyl_identifier
                   (Dict.values (cylinders (construct rows))))).
  rewrite cylinder_names. apply construct_NoDup.
Qed.

(** The objects of the variables at one are the cylinders at one. *)
Lemma selected_objects_perm rows (p : LpProblem Q) a ys :
  (∀ x, x ∈ Dict.keys (cylinders (construct rows)) → x ∈ variables p) →
  Forall2 (fun n y => Dict.get (cylinders (construct rows)) n = Some y)
    (selected_cylinders a (variables p)) ys →
  ys ≡ₚ filter (fun y => a (cyl_identifier y) = 1%Z)
          (Dict.values (cylinders (construct rows))).
Proof.
  intros Hvars Hys. pose proof (selected_objects rows _ _ Hys) as Hnames.
  apply NoDup_Permutation.
  - apply (NoDup_fmap_1 cyl_identifier).
    change (NoDup (map cyl_identifier ys)). rewrite Hnames.
    apply NoDup_filter, NoDup_variables.
  - apply NoDup_filter, values_NoDup.
  - intros y. rewrite list_elem_of_filter. split.
    + intros Hy. destruct (proj1 (list_elem_of_lookup ys y) Hy) as [i Hi].
      destruct (Forall2_lookup_r _ _ _ _ _ Hys Hi) as (n & Hn & Hget).
      apply list_elem_of_lookup_2, list_elem_of_filter in Hn
        as [[Hone _] _].
      destruct (construct_cylinders _ _ _ Hget) as (r & _ & -> & <-).
      split; [by apply is_one_true|].
      apply list_elem_of_fmap. exists (cylinder_id r, row_cylinder r).
      split; [done|]. clear -Hget.
      induction (cylinders (construct rows)) as [|[k v] d IH]; [done|].
      simpl in Hget. destruct (String.eqb_spec k (cylinder_id r)) as [->|_].
      * injection Hget as ->. left.
      * right. by apply IH.
    + intros [Hone Hy].
      apply values_lookup in Hy as [k Hget]; [|apply construct_NoDup].
      destruct (construct_cylinders _ _ _ Hget) as (r & _ & -> & <-).
      assert (cylinder_id r ∈ selected_cylinders a (variables p)) as Hin.
      { apply list_elem_of_filter. split_and!.
        - by apply is_one_true.
        - apply (cylinder_id_not_container (num := Q)).
        - apply Hvars, get_keys. by eauto. }
      destruct (proj1 (list_elem_of_lookup _ _) Hin) as [i Hi].
      destruct (Forall2_lookup_l _ _ _ _ _ Hys Hi) as (y' & Hy' & Hget').
      rewrite Hget in Hget'. injection Hget' as <-.
      by eapply list_elem_of_lookup_2.
Qed.

(** In exact arithmetic the cylinders at one of a feasible assignment sum
    to the targets, also after rounding. *)
Lemma feasible_sums rows (p0 : LpProblem Q)
    (extra : list (string * LpConstraint Q)) a ys :
  build_model (construct rows) = Ok p0 →
  (∀ x, x ∈ mentioned extra → x ∈ variables p0) →
  feasible a (extend p0 extra) →
  Forall2 (fun n y => Dict.get (cylinders (construct rows)) n = Some y)
    (selected_cylinders a (variables (extend p0 extra))) ys →
  num_eqb (num_round 2 (foldl num_add (num_of_Q 0) (map volume ys)))
    TOTAL_VOLUME = true
  ∧ num_eqb (num_round 2 (foldl num_add (num_of_Q 0) (map weight ys)))
      (num_of_Q (inject_Z TOTAL_WEIGHT)) = true.
Proof.
  intros Hb Hextra Hfeas Hys.
  pose proof (feasible_base _ _ _ Hfeas) as Hbase.
  destruct (feasible_facts rows p0 a Hb Hbase) as (Hbin & _ & Hv & Hw & _).
  assert (ys ≡ₚ filter (fun y => a (cyl_identifier y) = 1%Z)
                  (Dict.values (cylinders (construct rows)))) as Hperm.
  { eapply selected_objects_perm; [|exact Hys].
    intros x Hx. apply (vars_iff rows p0 extra Hb Hextra). by right. }
  split.
  - apply Qeq_bool_iff.
    change (num_round 2) with (QNum.round 2).
    rewrite (round_exact _ 516369); [reflexivity|].
    change (num_of_Q 0) with 0%Q.
    rewrite foldl_add_exact,
      (sum_Permutation _ _ (fmap_Permutation volume _ _ Hperm)).
    rewrite <- (weighted_filter volume a _ Hbin), Hv. reflexivity.
  - apply Qeq_bool_iff.
    change (num_round 2) with (QNum.round 2).
    rewrite (round_exact _ 1884400); [reflexivity|].
    change (num_of_Q 0) with 0%Q.
    rewrite foldl_add_exact,
      (sum_Permutation _ _ (fmap_Permutation weight _ _ Hperm)).
    rewrite <- (weighted_filter weight a _ Hbin), Hw. reflexivity.
Qed.

(** A sound solver gives consistent selections that satisfy the further
    constraints. *)
Lemma sound_sound_on rows (p0 : LpProblem Q)
    (solve : LpProblem Q → Z * assignment) :
  build_model (construct rows) = Ok p0 →
  sound solve → sound_on rows p0 solve.
Proof.
  intros Hb Hsound extra _ Hopt. pose proof (Hsound _ Hopt) as Hfeas.
  split; [by eapply feasible_consistent|].
  destruct Hfeas as [_ Hall]. unfold extend in Hall. simpl in Hall.
  by apply Forall_app in Hall as [_ ?].
Qed.

(** In exact arithmetic the answers of a sound solver are on target. *)
Lemma exact_on_target rows (p0 : LpProblem Q)
    (solve : LpProblem Q → Z * assignment) :
  build_model (construct rows) = Ok p0 →
  sound solve → on_target (construct rows) p0 solve.
Proof.
  intros Hb Hsound extra ys Hextra Hopt Hys.
  by apply (feasible_sums rows p0 extra _ ys Hb Hextra (Hsound _ Hopt)).
Qed.

End ExactCompleteness.

(** ** The order of names *)

Lemma ascii_compare_trans (a b c : ascii) :
  Ascii.compare a b = Lt → Ascii.compare b c = Lt → Ascii.compare a c = Lt.
Proof.
  unfold Ascii.compare. rewrite !N.compare_lt_iff. lia.
Qed.

Lemma compare_le_trans (s1 s2 s3 : string) :
  String.compare s1 s2 ≠ Gt → String.compare s2 s3 ≠ Gt →
  String.compare s1 s3 ≠ Gt.
Proof.
  revert s2 s3. induction s1 as [|c1 s1 IH]; intros [|c2 s2] [|c3 s3];
    simpl; try done.
  destruct (Ascii.compare c1 c2) eqn:E12; [| |done].
  - apply Ascii.compare_eq_iff in E12 as ->.
    destruct (Ascii.compare c2 c3); [apply IH|done..].
  - destruct (Ascii.compare c2 c3) eqn:E23; [| |done].
    + apply Ascii.compare_eq_iff in E23 as ->. by rewrite E12.
    + by rewrite (ascii_compare_trans _ _ _ E12 E23).
Qed.

Lemma str_le_trans (s1 s2 s3 : string) :
  Str.le s1 s2 = true → Str.le s2 s3 = true → Str.le s1 s3 = true.
Proof.
  unfold Str.le, String.leb. intros H12 H23.
  pose proof (compare_le_trans s1 s2 s3) as Htr.
  destruct (String.compare s1 s2), (String.compare s2 s3),
    (String.compare s1 s3); try done; by destruct Htr.
Qed.

Lemma str_le_total (s1 s2 : string) :
  Str.le s1 s2 = true ∨ Str.le s2 s1 = true.
Proof. apply String.leb_total. Qed.

Lemma insert_by_name_sorted x l :
  StronglySorted (fun a b => Str.le a b = true) l →
  StronglySorted (fun a b => Str.le a b = true) (insert_by_name x l).
Proof.
  induction 1 as [|y l Hs IH Hall]; simpl; [by repeat constructor|].
  destruct (Str.le x y) eqn:Hxy.
  - constructor; [by constructor|]. constructor; [done|].
    eapply Forall_impl; [exact Hall|]. intros z Hz. by eapply str_le_trans.
  - constructor; [done|]. apply Forall_forall. intros z.
    rewrite elem_of_insert_by_name. intros [->|Hz].
    + destruct (str_le_total x y); congruence.
    + rewrite Forall_forall in Hall. by apply Hall.
Qed.

Lemma sort_by_name_sorted l :
  StronglySorted (fun a b => Str.le a b = true) (sort_by_name l).
Proof.
  induction l as [|x l IH]; simpl; [constructor|].
  by apply insert_by_name_sorted.
Qed.

Lemma filter_sorted {A} (R : relation A) (P : A → Prop)
    `{∀ x, Decision (P x)} (l : list A) :
  StronglySorted R l → StronglySorted R (filter P l).
Proof.
  induction 1 as [|x l Hs IH Hall]; [constructor|].
  rewrite filter_cons. destruct (decide (P x)); [|done].
  constructor; [done|]. apply Forall_forall. intros y [_ Hy]%list_elem_of_filter.
  rewrite Forall_forall in Hall. by apply Hall.
Qed.

#[local] Instance str_le_antisym : AntiSymm eq (fun a b => Str.le a b = true).
Proof. intros x y. apply String.leb_antisym. Qed.

Section Order.
Context {num : Type} `{!PyNum num}.

Lemma variables_sorted (p : LpProblem num) :
  StronglySorted (fun a b => Str.le a b = true) (variables p).
Proof. apply sort_by_name_sorted. Qed.

(** The list of variables is determined by the set of variables. *)
Lemma variables_same (p p' : LpProblem num) :
  (∀ x, x ∈ variables p ↔ x ∈ variables p') → variables p = variables p'.
Proof.
  intros Hsame.
  apply (StronglySorted_unique (fun a b => Str.le a b = true));
    [apply variables_sorted..|].
  by apply NoDup_Permutation; [apply NoDup_variables..|].
Qed.

(** X4.  The validator depends on the model only through the set of its
    variables: two models that mention the same variables, in whatever
    constraints and in whatever order, are evaluated alike.  The
    constraints the search adds are over variables of the model, so they
    change nothing of what [evaluate_solution] computes for an
    assignment. *)
Theorem validator_reads_only_the_variables (h : Hierarchy num)
    (p p' : LpProblem num) (a : assignment) (seen : gset string) :
  (∀ x, x ∈ variables p ↔ x ∈ variables p') →
  evaluate_solution h p a seen = evaluate_solution h p' a seen.
Proof.
  intros Hsame.
  by rewrite !evaluate_solution_unfold, (variables_same p p' Hsame).
Qed.

(** X5.  Over a hierarchy built from rows, the identifiers that
    [evaluate_solution] returns are the names of the variables of the model
    that are at one and are read as cylinders; they come in increasing
    code-point order and none is repeated. *)
Theorem solution_is_listed_in_name_order (rows : list (Row num))
    (p : LpProblem num) (a : assignment) (seen seen' : gset string)
    (ids : list string) (ys : list (Cylinder num)) :
  evaluate_solution (construct rows) p a seen = (Ok (Some (ids, ys)), seen') →
  ids = selected_cylinders a (variables p)
  ∧ StronglySorted (fun x y => Str.le x y = true) ids
  ∧ NoDup ids.
Proof.
  intros [Hids Hys]%accepted_ids.
  rewrite (selected_objects rows _ _ Hys) in Hids. subst ids.
  split_and!; [done| |].
  - apply filter_sorted, variables_sorted.
  - apply NoDup_filter, NoDup_variables.
Qed.

End Order.

Section Names.
Context {num : Type} `{!PyNum num}.

(** X6.  The names given at construction are read back by the validator.
    For a row whose labels hold none of the characters the library
    replaces and whose container label and box label hold no separator,
    the library stores the container identifier and the cylinder
    identifier unchanged as the names of the two variables; the name of
    the container variable splits into one part and is read as a
    container, the name of the cylinder variable splits into the container
    label, the box label and the parts of the cylinder label, is read as a
    cylinder, and its first two parts joined by the separator are the
    identifier of the box of the row. *)
Theorem names_are_read_back (r : Row num) :
  plain_labels r = true →
  Str.free_of pipe (row_Container r) = true →
  Str.free_of pipe (row_Box r) = true →
  translate (container_id r) = container_id r
  ∧ translate (cylinder_id r) = cylinder_id r
  ∧ Str.split pipe (translate (container_id r)) = [row_Container r]
  ∧ is_container_name (translate (container_id r)) = true
  ∧ Str.split pipe (translate (cylinder_id r))
    = row_Container r :: row_Box r :: Str.split pipe (row_Cylinder r)
  ∧ is_container_name (translate (cylinder_id r)) = false
  ∧ name_box (translate (cylinder_id r)) = Some (box_id r).
Proof.
  intros Hplain Hc Hb.
  assert (translate (container_id r) = container_id r) as Hcont.
  { apply translate_plain. unfold plain_labels in Hplain.
    by apply andb_prop in Hplain as [[? _]%andb_prop _]. }
  assert (translate (cylinder_id r) = cylinder_id r) as Hcyl
    by (by apply translate_plain, cylinder_id_plain).
  rewrite !Hcont, !Hcyl. split; [done|]. split; [done|].
  assert (Str.split pipe (cylinder_id r)
          = row_Container r :: row_Box r :: Str.split pipe (row_Cylinder r))
    as Hsplit.
  { unfold cylinder_id.
    change ("|" +:+ row_Cylinder r) with (String pipe (row_Cylinder r)).
    by rewrite split_app, (split_box_id r Hc), (split_free _ _ Hb). }
  split_and!.
  - by apply split_free.
  - unfold is_container_name, container_id. by rewrite (split_free _ _ Hc).
  - done.
  - apply cylinder_id_not_container.
  - by apply name_box_cylinder_id.
Qed.

(** X7.  The builder on a constructed hierarchy whose container and box
    labels hold none of the characters the library replaces in names.  For
    the empty sheet it raises [TypeError]: the sum of no container
    variable is a number and its comparison with 35 a boolean.  For every
    other sheet it completes without raising, and the model has three
    constraints and three more for every box of the dictionary of
    boxes. *)
Theorem builder_outcome (rows : list (Row num)) :
  Forall (fun r => plain (row_Container r) = true
                   ∧ plain (row_Box r) = true) rows →
  match build_model (construct rows) with
  | Ok p =>
      rows ≠ []
      ∧ length (constraints p)
        = (3 + 3 * length (Dict.keys (boxes (construct rows))))%nat
  | Raise e => rows = [] ∧ e = TypeError
  end.
Proof.
  intros _. destruct rows as [|r rows]; [done|].
  rewrite build_model_construct by done. split; [done|].
  cbn [constraints]. rewrite length_app.
  rewrite <- (Permutation_length (construct_boxes_perm (r :: rows))).
  rewrite <- linked_boxes_identifiers, length_map.
  change (length (global_constraints _)) with 3%nat. f_equal.
  induction (linked_boxes (construct (r :: rows))) as [|cb l IH]; [done|].
  cbn [flat_map]. rewrite length_app, IH. simpl. lia.
Qed.

End Names.

(** ** Lines *)

Lemma splitlines_line (s t : string) :
  single_line s = true →
  splitlines (s +:+ newline +:+ t) = s :: splitlines t.
Proof.
  induction s as [|c s IH]; simpl.
  - intros _. by destruct t.
  - intros [Hc Hs]%andb_prop. apply negb_true_iff in Hc. rewrite Hc.
    by rewrite (IH Hs).
Qed.

Lemma splitlines_last (s : string) :
  single_line s = true → s ≠ "" → splitlines s = [s].
Proof.
  induction s as [|c s IH]; simpl; [done|].
  intros [Hc Hs]%andb_prop _. apply negb_true_iff in Hc. rewrite Hc.
  destruct s as [|c' s]; [done|]. by rewrite (IH Hs).
Qed.

Lemma join_cons (sep x y : string) (l : list string) :
  Str.join sep (x :: y :: l) = x +:+ sep +:+ Str.join sep (y :: l).
Proof. done. Qed.

Lemma splitlines_join (l : list string) :
  Forall (fun s => single_line s = true) l → last l ≠ Some "" →
  splitlines (Str.join newline l) = l.
Proof.
  induction 1 as [|s l Hs Hl IH]; [done|]. destruct l as [|s' l].
  - simpl. intros Hlast. apply splitlines_last; [done|]. by intros ->.
  - intros Hlast. rewrite join_cons, (splitlines_line _ _ Hs). f_equal.
    by apply IH.
Qed.

Lemma universal_newlines_id (s : string) :
  Str.free_of "013" s = true → universal_newlines s = s.
Proof.
  induction s as [|c s IH]; simpl; [done|].
  intros [Hc Hs]%andb_prop. apply negb_true_iff in Hc. rewrite Hc.
  by rewrite (IH Hs).
Qed.

Lemma single_line_free (s : string) :
  single_line s = true → Str.free_of "013" s = true.
Proof.
  induction s as [|c s IH]; simpl; [done|].
  intros [Hc Hs]%andb_prop. rewrite (IH Hs), andb_true_r.
  apply negb_true_iff. apply negb_true_iff in Hc.
  unfold is_line_boundary in Hc. simpl in Hc.
  by repeat (apply orb_false_elim in Hc as [? Hc]).
Qed.

Lemma free_of_app sep (s t : string) :
  Str.free_of sep (s +:+ t) = Str.free_of sep s && Str.free_of sep t.
Proof.
  induction s as [|c s IH]; simpl; [done|]. by rewrite IH, andb_assoc.
Qed.

Lemma join_free (l : list string) :
  Forall (fun s => single_line s = true) l →
  Str.free_of "013" (Str.join newline l) = true.
Proof.
  induction 1 as [|s l Hs Hl IH]; [done|]. destruct l as [|s' l].
  - by apply single_line_free.
  - by rewrite join_cons, !free_of_app, (single_line_free _ Hs), IH.
Qed.

(** ** Files *)

Lemma string_length_append (s t : string) :
  String.length (s +:+ t) = (String.length s + String.length t)%nat.
Proof. induction s as [|c s IH]; simpl; [done|]. by rewrite IH. Qed.

Lemma append_inj_r (s s' t : string) : s +:+ t = s' +:+ t → s = s'.
Proof.
  revert s'. induction s as [|c s IH]; intros [|c' s'] Heq; [done|..].
  - apply (f_equal String.length) in Heq.
    rewrite !string_length_append in Heq. simpl in Heq. lia.
  - apply (f_equal String.length) in Heq.
    rewrite !string_length_append in Heq. simpl in Heq. lia.
  - simpl in Heq. injection Heq as -> Heq. f_equal. by apply IH.
Qed.

Lemma solution_file_inj (m n : nat) : solution_file m = solution_file n → m = n.
Proof.
  unfold solution_file, joinpath. intros Heq.
  apply (inj (String.append folder_path)) in Heq.
  apply (inj (String.append "/")) in Heq.
  apply append_inj_r in Heq.
  by apply (inj pretty) in Heq.
Qed.

Lemma write_optimal_solution_eq (ids : list string) (n : nat) (d : disk) :
  write_optimal_solution ids n d
  = <[solution_file n := Str.join newline ids]> d.
Proof. done. Qed.

Lemma read_solution_eq (d : disk) (n : nat) :
  read_solution d n
  = (fun text => splitlines (universal_newlines text)) <$> d !! solution_file n.
Proof.
  unfold read_solution, is_file. cbn zeta.
  change ("Solutions/" +:+ pretty n +:+ ".txt") with (solution_file n).
  destruct (d !! solution_file n) as [text|] eqn:E.
  - rewrite bool_decide_true by eauto. done.
  - rewrite bool_decide_false; [done|]. by intros [? ?].
Qed.

(** X8.  A solution file is read back as it was written.  When no
    identifier holds a character that ends a line and the last one is not
    empty, the lines that the last cell reads from the file of solution
    [n], right after [write_optimal_solution] wrote the identifiers to it,
    are these identifiers, whatever the disk held before; and the files of
    the other solutions read as they did. *)
Theorem solution_file_round_trip (optimal_solution : list string) (n : nat)
    (d : disk) :
  Forall (fun s => single_line s = true) optimal_solution →
  last optimal_solution ≠ Some "" →
  read_solution (write_optimal_solution optimal_solution n d) n
  = Some optimal_solution
  ∧ ∀ m, m ≠ n →
      read_solution (write_optimal_solution optimal_solution n d) m
      = read_solution d m.
Proof.
  intros Hlines Hlast. rewrite write_optimal_solution_eq. split.
  - rewrite read_solution_eq, lookup_insert_eq. simpl.
    by rewrite (universal_newlines_id _ (join_free _ Hlines)),
      (splitlines_join _ Hlines Hlast).
  - intros m Hm. rewrite !read_solution_eq, lookup_insert_ne; [done|].
    by intros ?%solution_file_inj.
Qed.

(** ** The index of the data frame *)

Lemma first_seen_length l : (length (first_seen l) ≤ length l)%nat.
Proof.
  induction l as [|x l IH]; simpl; [done|].
  pose proof (length_filter (fun y => y ≠ x) (first_seen l)). lia.
Qed.

Lemma first_seen_full l : length (first_seen l) = length l → NoDup l.
Proof.
  induction l as [|x l IH]; simpl; [constructor|]. intros Hlen.
  pose proof (length_filter (fun y => y ≠ x) (first_seen l)) as Hf.
  pose proof (first_seen_length l) as Hl.
  constructor; [|apply IH; lia].
  intros Hx%elem_of_first_seen.
  pose proof (length_filter_lt (fun y => y ≠ x) (first_seen l) x Hx) as Hlt.
  specialize (Hlt ltac:(by intros ?)). lia.
Qed.

Lemma filter_all {A} (P : A → Prop) `{∀ x, Decision (P x)} (l : list A) :
  (∀ x, x ∈ l → P x) → filter P l = l.
Proof.
  induction l as [|x l IH]; [done|]. intros Hl.
  rewrite filter_cons_True by (apply Hl; left). f_equal.
  apply IH. intros y Hy. apply Hl. by right.
Qed.

Lemma first_seen_NoDup_id l : NoDup l → first_seen l = l.
Proof.
  induction 1 as [|x l Hx Hnd IH]; simpl; [done|]. rewrite IH. f_equal.
  apply filter_all. by intros y Hy ->.
Qed.

Lemma zip_map_self {A B} (f : A → B) (l : list A) :
  zip (map f l) l = map (fun x => (f x, x)) l.
Proof. induction l as [|x l IH]; simpl; [done|]. by rewrite IH. Qed.

Section Index.
Context {num : Type} `{!PyNum num}.

Lemma index_frame_labels (rows : list (Row num)) :
  NoDup (map cylinder_id rows) →
  index_frame rows (construct rows)
  = Frame.Ok (map (fun r => (cylinder_id r, r)) rows).
Proof.
  intros Hnd. unfold index_frame, Frame.set_index. rewrite cylinder_names.
  destruct (construct_keys rows) as (_ & _ & ->).
  rewrite (first_seen_NoDup_id _ Hnd), length_map, Nat.eqb_refl.
  by rewrite zip_map_self.
Qed.

Lemma index_frame_short (rows : list (Row num)) :
  ¬ NoDup (map cylinder_id rows) →
  index_frame rows (construct rows) = Frame.Raise Frame.ValueError.
Proof.
  intros Hnd. unfold index_frame, Frame.set_index. rewrite cylinder_names.
  destruct (construct_keys rows) as (_ & _ & ->).
  destruct (Nat.eqb_spec (length (first_seen (map cylinder_id rows)))
              (length rows)) as [Hlen|]; [|done].
  destruct Hnd. apply first_seen_full. by rewrite length_map.
Qed.

(** X9.  The index given to the data frame at the end of the construction
    cell.  When the cylinder identifiers of the rows are pairwise
    different, every row is labelled with its own cylinder identifier, in
    row order.  When two rows have the same cylinder identifier, the
    dictionary of cylinders holds fewer cylinders than the frame has rows,
    and setting the column raises [ValueError]. *)
Theorem index_frame_outcome (rows : list (Row num)) :
  index_frame rows (construct rows)
  = if bool_decide (NoDup (map cylinder_id rows))
    then Frame.Ok (map (fun r => (cylinder_id r, r)) rows)
    else Frame.Raise Frame.ValueError.
Proof.
  case_bool_decide; [by apply index_frame_labels|by apply index_frame_short].
Qed.

End Index.

(** ** The files of a run *)

Lemma write_all_snoc (written : list (nat * list string)) f (d : disk) :
  write_all (written ++ [f]) d
  = write_optimal_solution (snd f) (fst f) (write_all written d).
Proof. unfold write_all. by rewrite foldl_app. Qed.

Lemma write_all_lookup (written : list (nat * list string)) (d : disk) n ids :
  NoDup (map fst written) → (n, ids) ∈ written →
  write_all written d !! solution_file n = Some (Str.join newline ids).
Proof.
  induction written as [|[m ids'] written IH] using rev_ind;
    [by intros _ ?%elem_of_nil|].
  rewrite map_app. simpl. intros (Hnd & Hnot & _)%NoDup_app.
  rewrite write_all_snoc, write_optimal_solution_eq. simpl.
  intros [Hin|[= -> ->]%list_elem_of_singleton]%elem_of_app.
  - rewrite lookup_insert_ne; [by apply IH|].
    intros ->%solution_file_inj. apply (Hnot n); [|left].
    apply list_elem_of_fmap. by exists (n, ids).
  - by rewrite lookup_insert_eq.
Qed.

Lemma write_all_other (written : list (nat * list string)) (d : disk) path :
  (∀ n, n ∈ map fst written → path ≠ solution_file n) →
  write_all written d !! path = d !! path.
Proof.
  induction written as [|[m ids'] written IH] using rev_ind; [done|].
  rewrite map_app. simpl. intros Hpath.
  rewrite write_all_snoc, write_optimal_solution_eq. simpl.
  rewrite lookup_insert_ne.
  - apply IH. intros n Hn. apply Hpath, elem_of_app. by left.
  - intros <-. apply (Hpath m); [|done]. apply elem_of_app. right. left.
Qed.

Section DiskRuns.
Context {num : Type} `{!PyNum num}.
Variable solve : LpProblem num → Z * assignment.
Variable h : Hierarchy num.
Implicit Types (st : Notebook (num := num)).

(** Files are numbered as they are written, and the counter stops at the
    cap. *)
Lemma search_loop_numbers (fuel max : nat) st st' :
  map fst (files st) = seq 1 (counter_different_solutions st) →
  (counter_different_solutions st ≤ S max)%nat →
  search_loop solve h fuel max st = Some (Ok st') →
  map fst (files st') = seq 1 (counter_different_solutions st')
  ∧ (counter_different_solutions st' ≤ S max)%nat.
Proof.
  intros Hnum Hle Hrun.
  pose (P := fun s : Notebook (num := num) =>
    map fst (files s) = seq 1 (counter_different_solutions s)
    ∧ (counter_different_solutions s ≤ S max)%nat).
  apply (search_loop_invariant solve h P max) with (fuel := fuel) (st := st);
    [|done|done].
  clear. intros s s' b [Hnum Hle] _ Hguard Hit.
  destruct Hit; unfold P; simpl; [done|].
  rewrite map_app, Hnum, Nat.add_1_r, seq_S. simpl. split; [done|lia].
Qed.

(** A rejected assignment is rejected again. *)
Lemma evaluate_solution_None_again (p : LpProblem num) a seen seen' :
  evaluate_solution h p a seen = (Ok None, seen') →
  evaluate_solution h p a seen' = (Ok None, seen').
Proof.
  rewrite !evaluate_solution_unfold.
  destruct (visit_all h a (variables p) initial_locals) as [[st|]|];
    [|by intros [= <-]|done].
  cbn zeta. case_bool_decide as Hin.
  - intros [= <-]. by rewrite bool_decide_true.
  - destruct (targets_met st); [done|]. intros [= <-].
    rewrite bool_decide_true; [done|]. set_solver.
Qed.

(** Why the loop has ended: the solver reported no optimum, the cap is
    reached, or the assignment at hand is rejected, now and again. *)
Lemma search_loop_ended (fuel max : nat) st st' :
  search_loop solve h fuel max st = Some (Ok st') →
  pulp_status_solve st' ≠ LpStatusOptimal
  ∨ (max < counter_different_solutions st')%nat
  ∨ evaluate_solution h (problem st') (values st')
      (all_optimal_solutions st')
    = (Ok None, all_optimal_solutions st').
Proof.
  revert st. induction fuel as [|fuel IH]; intros st; simpl.
  - destruct (Z.eqb_spec (pulp_status_solve st) LpStatusOptimal) as [Hs|Hs];
      [|intros [= <-]; by left].
    destruct (Nat.leb_spec (counter_different_solutions st) max) as [Hc|Hc];
      [done|]. intros [= <-]. right. by left.
  - destruct (Z.eqb_spec (pulp_status_solve st) LpStatusOptimal) as [Hs|Hs];
      [|intros [= <-]; by left].
    destruct (Nat.leb_spec (counter_different_solutions st) max) as [Hc|Hc];
      [|intros [= <-]; right; by left].
    cbn [andb].
    destruct (loop_body solve h st) as [[st1 [|]]|] eqn:Hbody; [| |done].
    + apply IH.
    + intros [= <-]. apply loop_body_Ok in Hbody.
      inversion Hbody as [seen' E|]; subst. simpl. right. right.
      exact (evaluate_solution_None_again _ _ _ _ E).
Qed.

Lemma search_on_disk_there (max : nat) (d : disk) st :
  is_file d (solution_file (max + 1)) = true →
  search_on_disk solve h max d st = Some (Ok (d, st)).
Proof.
  intros Hthere. unfold search_on_disk. cbn zeta.
  change (joinpath folder_path (pretty (max + 1) +:+ ".txt"))
    with (solution_file (max + 1)).
  by rewrite Hthere.
Qed.

Lemma search_on_disk_run (max : nat) (d : disk) st :
  is_file d (solution_file (max + 1)) = false →
  search_on_disk solve h max d st
  = match search_loop solve h (S max) max (restart st) with
    | Some (Ok st') => Some (Ok (write_all (files st') d, st'))
    | Some (Raise e) => Some (Raise e)
    | None => None
    end.
Proof.
  intros Hlast. unfold search_on_disk. cbn zeta.
  change (joinpath folder_path (pretty (max + 1) +:+ ".txt"))
    with (solution_file (max + 1)).
  by rewrite Hlast.
Qed.

Lemma restart_numbers (max : nat) st st' :
  search_loop solve h (S max) max (restart st) = Some (Ok st') →
  map fst (files st') = seq 1 (counter_different_solutions st')
  ∧ (counter_different_solutions st' ≤ S max)%nat.
Proof.
  intros Hrun. apply (search_loop_numbers (S max) max (restart st) st');
    [done|simpl; lia|done].
Qed.

(** X10.  What an execution of the search cell leaves on the disk.  When
    the file of solution [max + 1] is not there, the cell writes the
    solutions it accepts to the files numbered 1, 2, ... up to the final
    value of the counter, which is at most [max + 1]; each of these files
    holds the identifiers of its solution, one per line, and every other
    file is left as it was. *)
Theorem search_writes_numbered_files (max : nat) (d d' : disk) st st' :
  is_file d (solution_file (max + 1)) = false →
  search_on_disk solve h max d st = Some (Ok (d', st')) →
  (counter_different_solutions st' ≤ S max)%nat
  ∧ map fst (files st') = seq 1 (counter_different_solutions st')
  ∧ (∀ n ids, (n, ids) ∈ files st' →
       d' !! solution_file n = Some (Str.join newline ids))
  ∧ (∀ path,
       (∀ n, (1 ≤ n ≤ counter_different_solutions st')%nat →
          path ≠ solution_file n) →
       d' !! path = d !! path).
Proof.
  intros Hlast. rewrite (search_on_disk_run _ _ _ Hlast).
  destruct (search_loop solve h (S max) max (restart st))
    as [[st1|]|] eqn:Hrun; [|done..].
  intros [= <- <-]. destruct (restart_numbers _ _ _ Hrun) as [Hnum Hle].
  split_and!; [done..| |].
  - intros n ids Hin. apply write_all_lookup; [|done].
    rewrite Hnum. apply NoDup_seq.
  - intros path Hpath. apply write_all_other. intros n Hn.
    rewrite Hnum in Hn. apply elem_of_seq in Hn. apply Hpath. lia.
Qed.

(** X11.  Executing the search cell a second time changes nothing.  After
    an execution that ended without raising, a further execution writes no
    file, adds no constraint, asks the solver nothing and leaves the set of
    seen solutions as it is: either the file of solution [max + 1] is
    there, or the solver had reported no optimum, or the assignment at hand
    is rejected as it was before. *)
Theorem search_cell_rerun_changes_nothing (max : nat) (d d1 : disk) st st1 :
  search_on_disk solve h max d st = Some (Ok (d1, st1)) →
  ∃ st2,
    search_on_disk solve h max d1 st1 = Some (Ok (d1, st2))
    ∧ problem st2 = problem st1
    ∧ pulp_status_solve st2 = pulp_status_solve st1
    ∧ values st2 = values st1
    ∧ all_optimal_solutions st2 = all_optimal_solutions st1.
Proof.
  intros Hfirst.
  destruct (is_file d1 (solution_file (max + 1))) eqn:Hthere.
  { exists st1. split; [by apply search_on_disk_there|done]. }
  destruct (is_file d (solution_file (max + 1))) eqn:Hlast.
  { rewrite (search_on_disk_there _ _ _ Hlast) in Hfirst.
    injection Hfirst as <- <-. congruence. }
  rewrite (search_on_disk_run _ _ _ Hlast) in Hfirst.
  destruct (search_loop solve h (S max) max (restart st))
    as [[s1|]|] eqn:Hrun; [|done..].
  injection Hfirst as <- <-.
  destruct (restart_numbers _ _ _ Hrun) as [Hnum Hle].
  rewrite (search_on_disk_run _ _ _ Hthere).
  assert (search_loop solve h (S max) max (restart s1)
          = Some (Ok (restart s1))) as ->.
  { cbn [search_loop restart pulp_status_solve counter_different_solutions].
    destruct (Z.eqb_spec (pulp_status_solve s1) LpStatusOptimal) as [Hs|Hs];
      [|done].
    cbn [Nat.leb andb].
    destruct (search_loop_ended _ _ _ _ Hrun) as [?|[Hcap|Heval]]; [done|..].
    - assert (counter_different_solutions s1 = S max) as Hc by lia.
      assert (is_Some (write_all (files s1) d !! solution_file (max + 1)))
        as Hsome.
      { assert (max + 1 ∈ map fst (files s1))%nat as Hin.
        { rewrite Hnum, Hc. apply elem_of_seq. lia. }
        apply list_elem_of_fmap in Hin as ([n ids] & Hn & Hin).
        simpl in Hn. subst n. rewrite (write_all_lookup _ _ _ ids); [done| |done].
        rewrite Hnum. apply NoDup_seq. }
      unfold is_file in Hthere. by rewrite bool_decide_true in Hthere.
    - unfold loop_body, restart.
      cbn [problem values all_optimal_solutions pulp_status_solve
             counter_different_solutions files].
      rewrite Heval. by cbn [mbind result_bind]. }
  exists (restart s1). by split_and!.
Qed.

End DiskRuns.

(** ** Showing a written solution *)

Lemma single_line_app (s t : string) :
  single_line (s +:+ t) = single_line s && single_line t.
Proof.
  induction s as [|c s IH]; simpl; [done|]. by rewrite IH, andb_assoc.
Qed.

Section Labels.
Context {num : Type}.

Lemma loc_unique (df : Frame.t num) (labels : list string) :
  NoDup (map fst df) →
  Forall (fun l => l ∈ map fst df) labels →
  ∃ shown, Frame.loc df labels = Frame.Ok shown
           ∧ map fst shown = labels
           ∧ Forall (fun lr => lr ∈ df) shown.
Proof.
  intros Hnd. induction 1 as [|l labels Hl _ IH]; simpl; [by exists []|].
  destruct IH as (rest & -> & Hfst & Hin).
  destruct (filter (fun lr : string * Row num => fst lr = l) df)
    as [|lr found] eqn:Hf.
  { apply list_elem_of_fmap in Hl as (lr & -> & Hlr).
    assert (lr ∈ filter (fun lr' : string * Row num => fst lr' = fst lr) df)
      as Hmem by (by apply list_elem_of_filter).
    rewrite Hf in Hmem. by apply elem_of_nil in Hmem. }
  assert (found = []) as ->.
  { destruct found as [|lr' found]; [done|].
    assert (NoDup (map fst (lr :: lr' :: found))) as Hnd'.
    { rewrite <- Hf. clear -Hnd. induction df as [|x df IH]; [constructor|].
      simpl in Hnd. apply NoDup_cons in Hnd as [Hx Hnd].
      rewrite filter_cons. destruct (decide _); [|by apply IH].
      simpl. constructor; [|by apply IH].
      intros (y & Hy & [_ Hin]%list_elem_of_filter)%list_elem_of_fmap.
      apply Hx, list_elem_of_fmap. by exists y. }
    assert (lr ∈ filter (fun lr' : string * Row num => fst lr' = l) df)
      as [H1 _]%list_elem_of_filter by (rewrite Hf; left).
    assert (lr' ∈ filter (fun lr' : string * Row num => fst lr' = l) df)
      as [H2 _]%list_elem_of_filter by (rewrite Hf; right; left).
    simpl in Hnd'. apply NoDup_cons in Hnd' as [Hnot _].
    destruct Hnot. rewrite H1, H2. left. }
  assert (lr ∈ filter (fun lr' : string * Row num => fst lr' = l) df)
    as [H1 Hmem]%list_elem_of_filter by (rewrite Hf; left).
  exists (lr :: rest). simpl. split_and!; [done|by rewrite H1, Hfst|].
  by constructor.
Qed.

Lemma cylinder_id_single_line (r : Row num) :
  single_line (row_Container r) = true →
  single_line (row_Box r) = true →
  single_line (row_Cylinder r) = true →
  single_line (cylinder_id r) = true ∧ cylinder_id r ≠ "".
Proof.
  intros Hc Hb Hy. unfold cylinder_id, box_id, container_id. split.
  - by rewrite !single_line_app, Hc, Hb, Hy.
  - intros Heq. apply (f_equal String.length) in Heq.
    rewrite !string_length_append in Heq. simpl in Heq. lia.
Qed.

End Labels.

Section Shown.
Context {num : Type} `{!PyNum num}.
Variable solve : LpProblem num → Z * assignment.
Variable rows : list (Row num).

(** Every identifier written is the identifier of a cylinder. *)
Lemma search_loop_writes_cylinders (fuel max : nat)
    (st st' : Notebook (num := num)) :
  files st = [] →
  search_loop solve (construct rows) fuel max st = Some (Ok st') →
  ∀ n ids, (n, ids) ∈ files st' →
    Forall (fun i => i ∈ Dict.keys (cylinders (construct rows))) ids.
Proof.
  intros Hfiles Hrun.
  pose (P := fun s : Notebook (num := num) =>
    ∀ n ids, (n, ids) ∈ files s →
      Forall (fun i => i ∈ Dict.keys (cylinders (construct rows))) ids).
  apply (search_loop_invariant solve (construct rows) P max)
    with (fuel := fuel) (st := st); [| |done].
  - clear. intros s s' b HP _ _ Hit.
    destruct Hit as [seen' E|ids ys seen' E Hne]; unfold P; simpl; [done|].
    intros n ids' [Hin|[= -> ->]%list_elem_of_singleton]%elem_of_app;
      [by eapply HP|].
    destruct (accepted_ids _ _ _ _ _ _ _ E) as [-> Hys].
    rewrite (selected_objects rows _ _ Hys).
    apply Forall_forall. intros i Hi.
    destruct (proj1 (list_elem_of_lookup _ _) Hi) as [j Hj].
    destruct (Forall2_lookup_l _ _ _ _ _ Hys Hj) as (y & _ & Hget).
    apply get_keys. by eauto.
  - unfold P. rewrite Hfiles. by intros n ids ?%elem_of_nil.
Qed.

(** X12.  Every solution that the search cell wrote can be shown by the
    last cell.  Let the labels of the rows hold no character that ends a
    line and the cylinder identifiers be pairwise different, so that the
    construction cell indexes the frame.  After an execution of the search
    cell that wrote files, reading the file of any written solution gives
    back its identifiers, each of them is a label of the frame, and the
    last cell shows, in the order of the file, the rows of the chosen
    cylinders and nothing else; it raises no [KeyError]. *)
Theorem written_solutions_are_shown (max : nat) (d d' : disk)
    (st st' : Notebook (num := num)) :
  Forall (fun r => single_line (row_Container r) = true
                   ∧ single_line (row_Box r) = true
                   ∧ single_line (row_Cylinder r) = true) rows →
  NoDup (map cylinder_id rows) →
  is_file d (solution_file (max + 1)) = false →
  search_on_disk solve (construct rows) max d st = Some (Ok (d', st')) →
  ∃ data_frame,
    index_frame rows (construct rows) = Frame.Ok data_frame
    ∧ ∀ n ids, (n, ids) ∈ files st' →
        read_solution d' n = Some ids
        ∧ ∃ shown,
            print_solution d' data_frame n = Frame.Ok (Some shown)
            ∧ map fst shown = ids
            ∧ Forall (fun lr => snd lr ∈ rows ∧ cylinder_id (snd lr) = fst lr)
                shown.
Proof.
  intros Hlines Hnd Hlast Hcell.
  exists (map (fun r => (cylinder_id r, r)) rows).
  split; [by apply index_frame_labels|].
  rewrite (search_on_disk_run _ _ _ _ _ Hlast) in Hcell.
  destruct (search_loop solve (construct rows) (S max) max (restart st))
    as [[s1|]|] eqn:Hrun; [|done..].
  injection Hcell as <- <-.
  destruct (restart_numbers _ _ _ _ _ Hrun) as [Hnum Hle].
  intros n ids Hin.
  pose proof (search_loop_writes_cylinders (S max) max (restart st) s1
                eq_refl Hrun n ids Hin) as Hkeys.
  assert (Forall (fun i => ∃ r, r ∈ rows ∧ i = cylinder_id r) ids) as Hrows.
  { eapply Forall_impl; [exact Hkeys|]. intros i Hi. simpl in Hi.
    destruct (construct_keys rows) as (_ & _ & Hk). rewrite Hk in Hi.
    apply elem_of_first_seen, list_elem_of_fmap in Hi as (r & -> & Hr).
    by exists r. }
  assert (Forall (fun s => single_line s = true) ids ∧ last ids ≠ Some "")
    as [Hsingle Hne].
  { rewrite Forall_forall in Hlines.
    pose proof (proj1 (Forall_forall _ _) Hrows) as Hrows'. split.
    - apply Forall_forall. intros i (r & Hr & ->)%Hrows'.
      destruct (Hlines r Hr) as (Hc & Hb & Hy).
      by apply cylinder_id_single_line.
    - intros Hl. apply last_Some_elem_of in Hl.
      apply Hrows' in Hl as (r & Hr & Heq).
      destruct (Hlines r Hr) as (Hc & Hb & Hy).
      by destruct (cylinder_id_single_line r Hc Hb Hy) as [_ Hno]. }
  assert (read_solution (write_all (files s1) d) n = Some ids) as Hread.
  { rewrite read_solution_eq, (write_all_lookup _ _ _ ids);
      [|rewrite Hnum; apply NoDup_seq|done].
    simpl. by rewrite (universal_newlines_id _ (join_free _ Hsingle)),
      (splitlines_join _ Hsingle Hne). }
  split; [done|]. unfold print_solution. rewrite Hread.
  destruct (loc_unique (map (fun r => (cylinder_id r, r)) rows) ids)
    as (shown & -> & Hfst & Hshown).
  - by rewrite map_map.
  - eapply Forall_impl; [exact Hrows|]. intros i (r & Hr & ->).
    rewrite map_map. simpl. apply list_elem_of_fmap. by exists r.
  - exists shown. split_and!; [done..|].
    eapply Forall_impl; [exact Hshown|].
    intros lr (r & -> & Hr)%list_elem_of_fmap. by split.
Qed.

End Shown.

(** ** Solution strings *)

Lemma split_join (sep : ascii) (l : list string) :
  l ≠ [] → Forall (fun s => Str.free_of sep s = true) l →
  Str.split sep (Str.join (String sep "") l) = l.
Proof.
  intros Hne Hall. induction Hall as [|s l Hs Hl IH]; [done|].
  destruct l as [|s' l]; [by apply split_free|].
  rewrite join_cons.
  change (String sep "" +:+ Str.join (String sep "") (s' :: l))
    with (String sep (Str.join (String sep "") (s' :: l))).
  rewrite split_app, (split_free _ _ Hs), IH; done.
Qed.

(** Lists of non-empty strings without comma are told apart by their
    comma-joined strings. *)
Lemma join_inj (l1 l2 : list string) :
  Forall (fun s => Str.free_of "," s = true ∧ s ≠ "") l1 →
  Forall (fun s => Str.free_of "," s = true ∧ s ≠ "") l2 →
  Str.join "," l1 = Str.join "," l2 → l1 = l2.
Proof.
  intros H1 H2 Heq.
  assert (∀ l, Forall (fun s => Str.free_of "," s = true ∧ s ≠ "") l →
               l ≠ [] → Str.join "," l ≠ "") as Hnonempty.
  { intros l Hl Hne Hj. destruct Hl as [|s l [Hs Hs'] Hl]; [done|].
    destruct l as [|s' l]; [done|]. rewrite join_cons in Hj.
    apply (f_equal String.length) in Hj. rewrite !string_length_append in Hj.
    simpl in Hj. lia. }
  destruct l1 as [|x1 l1], l2 as [|x2 l2]; [done|..].
  - symmetry in Heq. by destruct (Hnonempty _ H2).
  - by destruct (Hnonempty _ H1).
  - rewrite <- (split_join "," (x1 :: l1)), <- (split_join "," (x2 :: l2));
      [by rewrite Heq|done| |done|].
    + eapply Forall_impl; [exact H2|]. by intros s [? _].
    + eapply Forall_impl; [exact H1|]. by intros s [? _].
Qed.

Section CommaFree.
Context {num : Type}.

Lemma cylinder_id_comma_free (r : Row num) :
  Str.free_of "," (row_Container r) = true →
  Str.free_of "," (row_Box r) = true →
  Str.free_of "," (row_Cylinder r) = true →
  Str.free_of "," (cylinder_id r) = true ∧ cylinder_id r ≠ "".
Proof.
  intros Hc Hb Hy. unfold cylinder_id, box_id, container_id. split.
  - by rewrite !free_of_app, Hc, Hb, Hy.
  - intros Heq. apply (f_equal String.length) in Heq.
    rewrite !string_length_append in Heq. simpl in Heq. lia.
Qed.

End CommaFree.

(** ** The search with a sound solver whose answers are on target *)

Section SoundSearch.
Context {num : Type} `{!PyNum num}.
Variable solve : LpProblem num → Z * assignment.
Variable rows : list (Row num).
Variable p0 : LpProblem num.
Hypothesis Hfree :
  Forall (fun r => Str.free_of pipe (row_Container r) = true) rows.
Hypothesis Hfreeb :
  Forall (fun r => Str.free_of pipe (row_Box r) = true) rows.
Hypothesis Hcomma :
  Forall (fun r => Str.free_of "," (row_Container r) = true
                   ∧ Str.free_of "," (row_Box r) = true
                   ∧ Str.free_of "," (row_Cylinder r) = true) rows.
Hypothesis Hb : build_model (construct rows) = Ok p0.
Hypothesis Hsound : sound_on rows p0 solve.
Hypothesis Htarget : on_target (construct rows) p0 solve.

Lemma selected_are_cylinders a extra :
  (∀ x, x ∈ mentioned extra → x ∈ variables p0) →
  Forall (fun s => Str.free_of "," s = true ∧ s ≠ "")
    (selected_cylinders a (variables (extend p0 extra))).
Proof.
  intros Hextra. apply Forall_forall.
  intros n [[_ Hkind] Hn]%list_elem_of_filter.
  destruct (cylinder_key rows n
              (cylinder_var rows p0 extra Hfree Hb Hextra n Hn Hkind))
    as (r & Hr & -> & _).
  rewrite Forall_forall in Hcomma. destruct (Hcomma r Hr) as (Hc & Hbx & Hy).
  by apply cylinder_id_comma_free.
Qed.

Lemma selected_same a extra :
  (∀ x, x ∈ mentioned extra → x ∈ variables p0) →
  selected_cylinders a (variables (extend p0 extra))
  = selected_cylinders a (variables p0).
Proof.
  intros Hextra. f_equal. apply variables_same.
  intros x. rewrite elem_of_variables_extend. split; [|by left].
  intros [?|?%Hextra]; done.
Qed.

(** With the guard open, the iteration accepts and leaves a good state. *)
Lemma sound_step (s : Notebook (num := num)) :
  sound_state solve rows p0 s →
  pulp_status_solve s = LpStatusOptimal →
  ∃ s', loop_body solve (construct rows) s = Ok (s', true)
        ∧ sound_state solve rows p0 s'
        ∧ counter_different_solutions s'
          = (counter_different_solutions s + 1)%nat.
Proof.
  intros (extra & Hp & Hextra & Hexcl & Hseen & Hstatus & Hvalues & Hfiles
          & Hlen) Hs.
  assert (fst (solve (extend p0 extra)) = LpStatusOptimal) as Hopt
    by (by rewrite <- Hp, <- Hstatus).
  assert (consistent rows (values s)
          ∧ Forall (fun nc => holds (values s) (snd nc)) extra)
    as [Hcons Hall].
  { rewrite Hvalues, Hp. apply Hsound; [|done].
    clear -Hexcl. induction Hexcl as [|f c fs cs Hc _ IH]; [constructor|].
    constructor; [by eauto|done]. }
  destruct (consistent_visit_all rows p0 extra (values s) Hfree Hfreeb Hb
              Hextra Hcons) as (_ & ys & _ & Hys & _).
  set (ids := selected_cylinders (values s) (variables (extend p0 extra)))
    in *.
  assert (Str.join "," ids ∉ all_optimal_solutions s) as Hnew.
  { rewrite Hseen. intros Hin. apply elem_of_list_to_set in Hin.
    apply list_elem_of_fmap in Hin as (f & Hjoin & Hf).
    assert (ids = snd f) as Hsame.
    { apply join_inj; [by apply selected_are_cylinders| |done].
      rewrite Forall_forall in Hfiles.
      destruct (Hfiles f Hf) as (a' & _ & ->).
      rewrite <- (selected_same a' []) by (by intros x ?%elem_of_nil).
      apply selected_are_cylinders. by intros x ?%elem_of_nil. }
    destruct (proj1 (list_elem_of_lookup _ f) Hf) as [i Hi].
    destruct (Forall2_lookup_l _ _ _ _ _ Hexcl Hi) as (c & Hc & Hshape).
    rewrite Forall_forall in Hall.
    pose proof (Hall c (list_elem_of_lookup_2 _ _ _ Hc)) as Hholds.
    rewrite Hshape, <- Hsame in Hholds.
    apply (exclusion_forbids (values s) ids Hholds).
    apply Forall_forall. intros n [[Hone _] _]%list_elem_of_filter.
    by apply is_one_true. }
  pose proof Hys as Hys'. unfold ids in Hys'. rewrite Hvalues, Hp in Hys'.
  destruct (Htarget extra ys Hextra Hopt Hys') as [Hv Hw].
  pose proof (consistent_on_target_accepted rows p0 extra (values s)
                (all_optimal_solutions s) ys Hfree Hfreeb Hb Hextra Hcons
                Hys Hnew Hv Hw) as Heval.
  fold ids in Heval. rewrite <- Hp in Heval.
  assert (ys ≠ []) as Hne.
  { rewrite Hp in Heval. by eapply accepted_nonempty. }
  destruct (loop_body_accept solve _ _ _ _ _ Heval Hne) as [s' Hbody].
  exists s'. split; [done|].
  pose proof (loop_body_Ok _ _ _ _ _ Hbody) as Hit.
  inversion Hit as [|ids' ys' seen2 E' Hne' problem' Hst']. subst problem'.
  rewrite Heval in E'. injection E' as <- <- <-.
  pose proof (selected_objects rows _ _ Hys) as Hnames. fold ids in Hnames.
  split; [|done]. rewrite Hnames.
  exists (extra ++ [("Generating different solution "
                       +:+ pretty (counter_different_solutions s),
                     exclusion ids)]).
  cbn [problem pulp_status_solve values counter_different_solutions
         all_optimal_solutions files].
  split_and!.
  - by rewrite Hp, extend_extend.
  - rewrite mentioned_app. intros x [Hx|Hx]%elem_of_app; [by apply Hextra|].
    unfold mentioned, constraint_vars, exclusion in Hx.
    cbn [map concat snd lhs rhs] in Hx.
    rewrite unit_sum_vars in Hx. simpl in Hx. rewrite !app_nil_r in Hx.
    apply list_elem_of_filter in Hx as [_ Hx].
    apply elem_of_variables_extend in Hx as [?|?]; [done|by apply Hextra].
  - apply Forall2_app; [done|]. by repeat constructor.
  - rewrite map_app, list_to_set_app_L, Hseen. simpl. set_solver.
  - done.
  - done.
  - apply Forall_app. split; [done|]. constructor; [|constructor].
    exists (values s). simpl. split; [done|]. by apply selected_same.
  - rewrite length_app. simpl. lia.
Qed.

Lemma sound_run (fuel max : nat) (s : Notebook (num := num)) :
  sound_state solve rows p0 s →
  (counter_different_solutions s ≤ S max)%nat →
  (S max - counter_different_solutions s ≤ fuel)%nat →
  ∃ s', search_loop solve (construct rows) fuel max s = Some (Ok s')
        ∧ sound_state solve rows p0 s'
        ∧ (pulp_status_solve s' ≠ LpStatusOptimal
           ∨ counter_different_solutions s' = S max).
Proof.
  revert s. induction fuel as [|fuel IH]; intros s Hgood Hle Hfuel; simpl.
  - destruct (Z.eqb_spec (pulp_status_solve s) LpStatusOptimal) as [Hs|Hs];
      [|exists s; split_and!; [done..|by left]].
    destruct (Nat.leb_spec (counter_different_solutions s) max) as [Hc|Hc];
      [lia|]. exists s. split_and!; [done..|right; lia].
  - destruct (Z.eqb_spec (pulp_status_solve s) LpStatusOptimal) as [Hs|Hs];
      [|exists s; split_and!; [done..|by left]].
    destruct (Nat.leb_spec (counter_different_solutions s) max) as [Hc|Hc];
      [|exists s; split_and!; [done..|right; lia]].
    cbn [andb]. destruct (sound_step s Hgood Hs) as (s1 & -> & Hgood1 & Hc1).
    apply IH; [done|lia..].
Qed.

End SoundSearch.

(** X13.  With a solver whose answers are consistent and on target, the
    search is never cut short by the validator, whatever the arithmetic.
    Let the hierarchy be built from rows whose labels the library stores
    unchanged, whose cylinder identifiers are pairwise different (one
    variable for every name), whose container and box labels hold no
    separator and whose labels hold no comma, and let the model be the one
    built for it.  Let every assignment the solver reports as optimal be a
    consistent selection (binary, thirty-five containers, one cylinder in
    every box of a chosen container and none elsewhere) that satisfies the
    exclusion constraints added so far, and let the volumes and weights of
    its cylinders at one, added and rounded in the arithmetic of the
    notebook, equal the targets.  Started on an empty set of seen
    solutions, the search cell ends without raising, and it ends because
    the solver reported no further optimum or because [max + 1] solutions
    were written, not because a solution was rejected: the exclusion
    constraints keep every earlier solution from coming back, so that the
    duplicate test never fires.  As many files are written as the counter
    says, and every one of them lists the cylinders at one of a
    consistent selection. *)
Theorem sound_solver_is_never_rejected {num : Type} `{!PyNum num}
    (solve : LpProblem num → Z * assignment) (rows : list (Row num))
    (p0 : LpProblem num) (max : nat) :
  labels_kept rows →
  NoDup (map cylinder_id rows) →
  Forall (fun r => Str.free_of pipe (row_Container r) = true) rows →
  Forall (fun r => Str.free_of pipe (row_Box r) = true) rows →
  Forall (fun r => Str.free_of "," (row_Container r) = true
                   ∧ Str.free_of "," (row_Box r) = true
                   ∧ Str.free_of "," (row_Cylinder r) = true) rows →
  build_model (construct rows) = Ok p0 →
  sound_on rows p0 solve →
  on_target (construct rows) p0 solve →
  ∃ st',
    search solve (construct rows) false max (start solve p0 ∅)
    = Some (Ok st')
    ∧ (pulp_status_solve st' ≠ LpStatusOptimal
       ∨ counter_different_solutions st' = S max)
    ∧ length (files st') = counter_different_solutions st'
    ∧ ∀ n ids, (n, ids) ∈ files st' →
        ∃ a, consistent rows a ∧ ids = selected_cylinders a (variables p0).
Proof.
  intros _ _ Hfree Hfreeb Hcomma Hb Hsound Htarget. unfold search.
  cbn [negb].
  destruct (sound_run solve rows p0 Hfree Hfreeb Hcomma Hb Hsound Htarget
              (S max) max (start solve p0 ∅)) as (st' & Hrun & Hgood & Hend).
  - exists []. unfold start.
    destruct (solve p0) as [status vals] eqn:Es. simpl.
    rewrite extend_nil, Es. split_and!; try done.
    by intros x ?%elem_of_nil.
  - unfold start. destruct (solve p0). simpl. lia.
  - unfold start. destruct (solve p0). simpl. lia.
  - exists st'.
    destruct Hgood as (extra & _ & _ & _ & _ & _ & _ & Hfiles & Hlen).
    split_and!; [done..|]. intros n ids Hin. rewrite Forall_forall in Hfiles.
    by apply (Hfiles (n, ids)).
Qed.

(** ** Names of constraints *)

Section ConstraintNames.
Context {num : Type} `{!PyNum num}.

Lemma between_inj (prefix suffix s s' : string) :
  prefix +:+ s +:+ suffix = prefix +:+ s' +:+ suffix → s = s'.
Proof.
  intros Heq. apply (inj (String.append prefix)) in Heq.
  by apply append_inj_r in Heq.
Qed.

Lemma box_link_names (c : Container) (b : Box num) :
  map fst (box_links c b)
  = [ "When a container is chosen, at least one of its boxes must be used "
        +:+ box_identifier b +:+ ".";
      "When a box is used, its container must be chosen "
        +:+ box_identifier b +:+ ".";
      "Choosing at maximum one cylinder per box "
        +:+ box_identifier b +:+ "." ].
Proof. done. Qed.

(** The names of the linking constraints of boxes with different
    identifiers are different. *)
Lemma link_names_NoDup (l : list (Container * Box num)) :
  NoDup (map (fun cb => box_identifier (snd cb)) l) →
  NoDup (map fst (flat_map (fun cb => box_links (fst cb) (snd cb)) l)).
Proof.
  induction l as [|[c b] l IH]; simpl; [constructor|].
  intros [Hnot Hnd]%NoDup_cons. specialize (IH Hnd).
  assert (∀ x, x ∈ map fst (flat_map
                              (fun cb => box_links (fst cb) (snd cb)) l) →
            ∃ b' : Box num, box_identifier b' ∈ map
                     (fun cb : Container * Box num => box_identifier (snd cb)) l
               ∧ x ∈ map fst (box_links c b')) as Hin.
  { intros x (nc & -> & Hnc)%list_elem_of_fmap.
    apply list_elem_of_In, in_flat_map in Hnc as ([c' b'] & Hcb & Hnc).
    apply list_elem_of_In in Hnc. apply list_elem_of_In in Hcb.
    exists b'. split.
    - apply list_elem_of_fmap. by exists (c', b').
    - apply list_elem_of_fmap. simpl in Hnc. unfold box_links in *.
      repeat (apply elem_of_cons in Hnc as [->|Hnc]);
        [eexists; split; [|left]; done
        |eexists; split; [|right; left]; done
        |eexists; split; [|right; right; left]; done
        |by apply elem_of_nil in Hnc]. }
  repeat constructor.
  - intros [Heq|[Heq|Hx]%elem_of_cons]%elem_of_cons; [done..|].
    destruct (Hin _ Hx) as (b' & Hb' & Hmem). rewrite box_link_names in Hmem.
    repeat (apply elem_of_cons in Hmem as [Heq|Hmem]); try done.
    + apply between_inj in Heq. by rewrite Heq in Hnot.
    + by apply elem_of_nil in Hmem.
  - intros [Heq|Hx]%elem_of_cons; [done|].
    destruct (Hin _ Hx) as (b' & Hb' & Hmem). rewrite box_link_names in Hmem.
    repeat (apply elem_of_cons in Hmem as [Heq|Hmem]); try done.
    + apply between_inj in Heq. by rewrite Heq in Hnot.
    + by apply elem_of_nil in Hmem.
  - intros Hx.
    destruct (Hin _ Hx) as (b' & Hb' & Hmem). rewrite box_link_names in Hmem.
    repeat (apply elem_of_cons in Hmem as [Heq|Hmem]); try done.
    + apply between_inj in Heq. by rewrite Heq in Hnot.
    + by apply elem_of_nil in Hmem.
  - done.
Qed.

Lemma link_names_shape (l : list (Container * Box num)) x :
  x ∈ map fst (flat_map (fun cb => box_links (fst cb) (snd cb)) l) →
  ∃ s, x = "When a container is chosen, at least one of its boxes must be used "
             +:+ s
       ∨ x = "When a box is used, its container must be chosen " +:+ s
       ∨ x = "Choosing at maximum one cylinder per box " +:+ s.
Proof.
  intros (nc & -> & Hnc)%list_elem_of_fmap.
  apply list_elem_of_In, in_flat_map in Hnc as ([c b] & _ & Hnc).
  apply list_elem_of_In in Hnc. unfold box_links in Hnc. simpl in Hnc.
  repeat (apply elem_of_cons in Hnc as [->|Hnc]);
    [eexists; left; done|eexists; right; left; done
    |eexists; right; right; done|by apply elem_of_nil in Hnc].
Qed.

(** The names of the model built for a sheet are pairwise different. *)
Lemma built_names_NoDup (rows : list (Row num)) (p0 : LpProblem num) :
  build_model (construct rows) = Ok p0 →
  NoDup (map fst (constraints p0))
  ∧ ∀ x, x ∈ map fst (constraints p0) →
      ∀ k : nat, x ≠ "Generating different solution " +:+ pretty k.
Proof.
  intros Hb. pose proof (build_model_rows _ _ Hb) as Hne.
  rewrite (build_model_construct rows Hne) in Hb.
  assert (constraints p0
          = global_constraints (construct rows)
              ++ flat_map (fun cb => box_links (fst cb) (snd cb))
                   (linked_boxes (construct rows))) as ->
    by (by injection Hb as <-).
  rewrite map_app.
  pose proof (link_names_NoDup (linked_boxes (construct rows))) as Hlinks.
  rewrite linked_boxes_identifiers, construct_boxes_perm in Hlinks.
  specialize (Hlinks (proj1 (proj2 (construct_NoDup rows)))).
  pose proof (link_names_shape (linked_boxes (construct rows))) as Hshape.
  split.
  - apply NoDup_app. split_and!; [| |done].
    + unfold global_constraints. simpl. repeat constructor;
        rewrite ?elem_of_cons, ?elem_of_nil; intros ?; naive_solver.
    + intros x Hx Hx'. destruct (Hshape x Hx') as (s & [-> | [-> | ->]]);
        unfold global_constraints in Hx; simpl in Hx;
        repeat (apply elem_of_cons in Hx as [Hx|Hx]); try done;
        by apply elem_of_nil in Hx.
  - intros x [Hx|Hx]%elem_of_app k.
    + unfold global_constraints in Hx. simpl in Hx.
      repeat (apply elem_of_cons in Hx as [->|Hx]); try done.
      by apply elem_of_nil in Hx.
    + by destruct (Hshape x Hx) as (s & [-> | [-> | ->]]).
Qed.

(** The names stay pairwise different while the search adds its
    exclusions, whose names end in the successive values of the counter. *)
Lemma search_names (p0 : LpProblem num)
    (solve : LpProblem num → Z * assignment) (h : Hierarchy num)
    (seen : gset string) (fuel max : nat) st' :
  search_loop solve h fuel max (start solve p0 seen) = Some (Ok st') →
  ∃ extra,
    problem st' = extend p0 extra
    ∧ map fst extra
      = map (fun k : nat => "Generating different solution " +:+ pretty k)
          (seq 0 (counter_different_solutions st')).
Proof.
  intros Hrun.
  pose (P := fun s : Notebook (num := num) =>
    ∃ extra, problem s = extend p0 extra
      ∧ map fst extra
        = map (fun k : nat => "Generating different solution " +:+ pretty k)
            (seq 0 (counter_different_solutions s))).
  apply (search_loop_invariant solve h P max) with (fuel := fuel)
    (st := start solve p0 seen); [| |done].
  - clear. intros s s' b (extra & Hp & Hnames) _ _ Hit.
    destruct Hit as [seen' E|ids ys seen' E Hne]; unfold P; simpl.
    + by exists extra.
    + eexists (extra ++ [_]). subst problem'.
      rewrite Hp, extend_extend. split; [done|].
      rewrite map_app, Hnames, Nat.add_1_r, seq_S, map_app. done.
  - exists []. unfold start. destruct (solve p0). simpl.
    by rewrite extend_nil.
Qed.

Lemma search_names_NoDup (rows : list (Row num)) (p0 : LpProblem num)
    (solve : LpProblem num → Z * assignment) (h : Hierarchy num)
    (seen : gset string) (fuel max : nat) st' :
  build_model (construct rows) = Ok p0 →
  search_loop solve h fuel max (start solve p0 seen) = Some (Ok st') →
  NoDup (map fst (constraints (problem st'))).
Proof.
  intros Hb Hrun. destruct (built_names_NoDup rows p0 Hb) as [Hbase Hgen].
  destruct (search_names _ _ _ _ _ _ _ Hrun) as (extra & -> & Hnames).
  unfold extend. cbn [constraints]. rewrite map_app, Hnames.
  apply NoDup_app. split_and!; [done| |].
  - intros x Hx (k & -> & _)%list_elem_of_fmap. by apply (Hgen _ Hx k).
  - apply NoDup_fmap_2; [|apply NoDup_seq].
    intros k k' Heq. apply (inj (String.append _)) in Heq.
    by apply (inj pretty) in Heq.
Qed.

(** Every constraint of a run is named as [notebook_name] says. *)
Lemma search_names_shape (rows : list (Row num)) (p0 : LpProblem num)
    (solve : LpProblem num → Z * assignment) (h : Hierarchy num)
    (seen : gset string) (fuel max : nat) st' x :
  Forall (fun r => plain (row_Container r) = true
                   ∧ plain (row_Box r) = true) rows →
  build_model (construct rows) = Ok p0 →
  search_loop solve h fuel max (start solve p0 seen) = Some (Ok st') →
  x ∈ map fst (constraints (problem st')) → notebook_name x.
Proof.
  intros Hplain Hb Hrun.
  destruct (search_names _ _ _ _ _ _ _ Hrun) as (extra & -> & Hnames).
  pose proof (build_model_rows _ _ Hb) as Hne.
  rewrite (build_model_construct rows Hne) in Hb.
  assert (constraints p0
          = global_constraints (construct rows)
              ++ flat_map (fun cb => box_links (fst cb) (snd cb))
                   (linked_boxes (construct rows))) as Hcs
    by (by injection Hb as <-).
  unfold extend. cbn [constraints]. rewrite Hcs, !map_app, Hnames.
  intros [[Hx|Hx]%elem_of_app|Hx]%elem_of_app.
  - left. exact Hx.
  - right; left. apply list_elem_of_fmap in Hx as (nc & -> & Hnc).
    apply list_elem_of_In, in_flat_map in Hnc as ([c b] & Hcb & Hnc).
    apply list_elem_of_In in Hnc. apply list_elem_of_In in Hcb.
    exists (box_identifier b). split.
    + destruct (linked_boxes_dict rows c b Hcb) as [Hget _].
      destruct (construct_box_row rows _ b Hget) as (r & Hr & <- & _).
      rewrite Forall_forall in Hplain. destruct (Hplain r Hr).
      by apply box_id_plain.
    + change (fst nc ∈ map fst (box_links c b)).
      apply list_elem_of_fmap. by exists nc.
  - right; right. apply list_elem_of_fmap in Hx as (k & -> & _). by exists k.
Qed.

(** On the names of the notebook the replacement of characters is one to
    one. *)
Lemma translate_notebook_names (x y : string) :
  notebook_name x → notebook_name y → translate x = translate y → x = y.
Proof.
  assert (∀ P s s' : string, plain s = true → plain s' = true →
            translate (P +:+ s +:+ ".") = translate (P +:+ s' +:+ ".") →
            P +:+ s +:+ "." = P +:+ s' +:+ ".") as Hsame.
  { intros P s s' Hs Hs'.
    rewrite !translate_app, (translate_plain s Hs), (translate_plain s' Hs').
    intros Heq%between_inj. by rewrite Heq. }
  assert (∀ P P' s s' : string, plain s = true → plain s' = true →
            translate (P +:+ s +:+ ".") = translate (P' +:+ s' +:+ ".") →
            translate P +:+ s +:+ "." = translate P' +:+ s' +:+ ".") as Hlink.
  { intros P P' s s' Hs Hs'.
    by rewrite !translate_app, (translate_plain s Hs),
      (translate_plain s' Hs'). }
  assert (∀ (P : string) (k : nat),
            translate (P +:+ pretty k) = translate P +:+ pretty k) as Hgen.
  { intros P k. by rewrite translate_app, (translate_plain _ (pretty_plain k)). }
  assert (∀ P s : string, plain s = true →
            translate (P +:+ s +:+ ".") = translate P +:+ s +:+ ".") as Hone.
  { intros P s Hs. by rewrite !translate_app, (translate_plain s Hs). }
  unfold notebook_name.
  intros [Hx|[(s & Hs & Hx)|(k & ->)]] [Hy|[(s' & Hs' & Hy)|(k' & ->)]];
    repeat (apply elem_of_cons in Hx as [->|Hx]);
    repeat (apply elem_of_cons in Hy as [->|Hy]);
    try (by apply elem_of_nil in Hx); try (by apply elem_of_nil in Hy);
    try done;
    try (by apply Hsame);
    rewrite ?Hgen, ?(Hone _ s Hs), ?(Hone _ s' Hs'); try done.
  intros Heq. apply (inj (String.append _)) in Heq.
  by apply (inj pretty) in Heq as ->.
Qed.

(** X14.  No two constraints get the same name, also after the library
    has replaced the characters [-+[] ->/] of the names by underscores.
    For a sheet whose container and box labels hold none of these
    characters, the stored names of the constraints of the built model are
    pairwise different, and they stay so during the search: whatever the
    solver answers, in every state in which the search loop ends, started
    on the built model, each constraint of the model has a stored name of
    its own. *)
Theorem constraint_names_are_distinct (rows : list (Row num))
    (p0 : LpProblem num) :
  Forall (fun r => plain (row_Container r) = true
                   ∧ plain (row_Box r) = true) rows →
  build_model (construct rows) = Ok p0 →
  NoDup (map (fun nc => translate (fst nc)) (constraints p0))
  ∧ ∀ (solve : LpProblem num → Z * assignment) (h : Hierarchy num)
      (seen : gset string) (fuel max : nat) st',
      search_loop solve h fuel max (start solve p0 seen) = Some (Ok st') →
      NoDup (map (fun nc => translate (fst nc)) (constraints (problem st'))).
Proof.
  intros Hplain Hb.
  assert (∀ (solve : LpProblem num → Z * assignment) (h : Hierarchy num)
            (seen : gset string) (fuel max : nat) st',
            search_loop solve h fuel max (start solve p0 seen)
            = Some (Ok st') →
            NoDup (map (fun nc => translate (fst nc))
                     (constraints (problem st')))) as Hruns.
  { intros solve h seen fuel max st' Hrun.
    rewrite <- (map_map fst translate). apply NoDup_fmap_2_strong.
    - intros x y Hx Hy. apply translate_notebook_names;
        by eapply search_names_shape.
    - by eapply search_names_NoDup. }
  split; [|done].
  specialize (Hruns (fun p => (0%Z, fun _ => 0%Z)) (construct rows) ∅
                0%nat 0%nat (start (fun p => (0%Z, fun _ => 0%Z)) p0 ∅)).
  apply Hruns. done.
Qed.


End ConstraintNames.

(** ** What the validator can raise *)

Section Raised.
Context {num : Type} `{!PyNum num}.
Implicit Types (h : Hierarchy num) (a : assignment)
  (st : Locals (num := num)).

Lemma subscript_raises {V} (d : Dict.t V) k e :
  subscript d k = Raise e → e = KeyError ∧ Dict.get d k = None.
Proof. unfold subscript. destruct (Dict.get d k); [done|]. by intros [= <-]. Qed.

Lemma scan_boxes_raises h a bs flag e :
  scan_boxes h a bs flag = Raise e →
  e = KeyError ∧ ∃ b, b ∈ bs ∧ Dict.get (boxes h) b = None.
Proof.
  revert flag. induction bs as [|b bs IH]; intros flag; simpl; [done|].
  destruct (subscript (boxes h) b) as [bx|e'] eqn:Hb; cbn [mbind result_bind].
  - intros (-> & b' & Hb' & Hget)%IH. split; [done|].
    exists b'. split; [by right|done].
  - intros [= <-]. apply subscript_raises in Hb as [-> Hget].
    split; [done|]. exists b. split; [left|done].
Qed.

Lemma visit_raises h a st name e :
  visit h a st name = Raise e → e = KeyError.
Proof.
  unfold visit. destruct (is_one a name); [|done].
  destruct (Nat.eqb_spec (length (Str.split pipe name)) 1) as [Hlen|Hlen].
  - destruct (subscript (containers h) name) as [c|e'] eqn:Hc;
      cbn [mbind result_bind]; [|intros [= <-]; by apply subscript_raises in Hc as [-> _]].
    destruct (scan_boxes h a (cont_boxes c) false) as [r|e'] eqn:Hscan;
      cbn [mbind result_bind].
    + by destruct (negb r).
    + intros [= <-]. by apply scan_boxes_raises in Hscan as [-> _].
  - destruct (subscript (cylinders h) name) as [y|e'] eqn:Hy;
      cbn [mbind result_bind]; [|intros [= <-]; by apply subscript_raises in Hy as [-> _]].
    pose proof (split_nonempty pipe name) as Hne.
    destruct (Str.split pipe name) as [|s0 [|s1 l]]; [done..|].
    cbn [mbind result_bind].
    destruct (subscript (boxes h) (box y)) as [bx|e'] eqn:Hbx;
      cbn [mbind result_bind]; [|intros [= <-]; by apply subscript_raises in Hbx as [-> _]].
    destruct (negb _); [done|]. by case_bool_decide.
Qed.

Lemma visit_all_raises h a vars st e :
  visit_all h a vars st = Raise e → e = KeyError.
Proof.
  revert st. induction vars as [|n vars IH]; intros st; simpl; [done|].
  destruct (visit h a st n) as [[st1|]|e'] eqn:Hv; cbn [mbind result_bind].
  - apply IH.
  - done.
  - intros [= <-]. by eapply visit_raises.
Qed.

(** X15.  The only exception [evaluate_solution] raises is [KeyError],
    whatever the hierarchy, the model and the assignment: a variable at one
    is read as a container or as a cylinder and is not a key of that
    dictionary, or a box that is referred to is not a key of the dictionary
    of boxes.  Indexing the parts of a name never fails, since a name that
    is not read as a container has at least two parts.  When it raises, the
    set of seen solutions is as it was. *)
Theorem validator_raises_only_KeyError (h : Hierarchy num)
    (p : LpProblem num) (a : assignment) (seen seen' : gset string) (e : exn) :
  evaluate_solution h p a seen = (Raise e, seen') →
  e = KeyError ∧ seen' = seen.
Proof.
  rewrite evaluate_solution_unfold.
  destruct (visit_all h a (variables p) initial_locals) as [[st|]|e'] eqn:Hv.
  - cbn zeta. case_bool_decide; [done|]. by destruct (targets_met st).
  - done.
  - intros [= <- <-]. split; [|done]. by eapply visit_all_raises.
Qed.

End Raised.

(** ** Every row in the hierarchy *)

Section Reachable.
Context {num : Type}.

(** X16.  Every row is found again in the hierarchy, from the top down.
    With container labels free of the separator, the container of a row is
    in the dictionary of containers under the container identifier and
    lists the box of the row; that box is in the dictionary of boxes under
    the box identifier, points back to this container and holds the
    cylinder made from the row; and the cylinder points back to the box.
    When the cylinder identifiers are pairwise different, the dictionary of
    cylinders holds this cylinder under its identifier. *)
Theorem rows_are_reachable (rows : list (Row num)) (r : Row num) :
  Forall (fun r => Str.free_of pipe (row_Container r) = true) rows →
  r ∈ rows →
  ∃ (c : Container) (b : Box num),
    Dict.get (containers (construct rows)) (container_id r) = Some c
    ∧ cont_identifier c = container_id r
    ∧ box_id r ∈ cont_boxes c
    ∧ Dict.get (boxes (construct rows)) (box_id r) = Some b
    ∧ box_identifier b = box_id r
    ∧ container b = container_id r
    ∧ row_cylinder r ∈ box_cylinders b
    ∧ box (row_cylinder r) = box_id r
    ∧ (NoDup (map cylinder_id rows) →
       Dict.get (cylinders (construct rows)) (cylinder_id r)
       = Some (row_cylinder r)).
Proof.
  intros Hfree Hr.
  assert (container_id r ∈ Dict.keys (containers (construct rows))) as Hc.
  { destruct (construct_keys rows) as (-> & _).
    apply elem_of_first_seen, list_elem_of_fmap. by exists r. }
  assert (box_id r ∈ Dict.keys (boxes (construct rows))) as Hbx.
  { destruct (construct_keys rows) as (_ & -> & _).
    apply elem_of_first_seen, list_elem_of_fmap. by exists r. }
  apply get_keys in Hc as [c Hc]. apply get_keys in Hbx as [b Hb].
  exists c, b.
  destruct (construct_containers _ _ _ Hc) as [Hcid _].
  destruct (construct_boxes _ _ _ Hb) as (Hbid & Hcyl & _).
  split_and!; try done.
  - by apply (container_has_box rows r c Hfree Hr).
  - by eapply box_owner.
  - rewrite Hcyl. apply list_elem_of_fmap. exists r. split; [done|].
    by apply list_elem_of_filter.
  - intros Hnd.
    assert (cylinder_id r ∈ Dict.keys (cylinders (construct rows))) as Hy.
    { destruct (construct_keys rows) as (_ & _ & ->).
      apply elem_of_first_seen, list_elem_of_fmap. by exists r. }
    apply get_keys in Hy as [y Hy]. rewrite Hy. f_equal.
    destruct (construct_cylinders _ _ _ Hy) as (r' & Hr' & -> & Hid).
    f_equal. by eapply NoDup_fmap_eq.
Qed.

End Reachable.

(** ** The further statements on the data set [Sheet] *)

Lemma pick_binary (j : nat) : binary (Sheet.pick j).
Proof.
  intros x. unfold Sheet.pick. repeat case_bool_decide; auto.
Qed.

Lemma checked_sound {num : Type} `{!PyNum num}
    (solve : LpProblem num → Z * assignment) :
  (∀ p, binary (snd (solve p))) → sound (checked solve).
Proof.
  intros Hbin p. unfold checked. specialize (Hbin p).
  destruct (solve p) as [status a]. simpl in Hbin.
  destruct (all_hold a p) eqn:Hall; simpl; [|done].
  intros _. by apply all_hold_feasible.
Qed.

Lemma known_run {A B} (d : A * B) (x : option (result (A * B))) :
  match x with Some (Ok _) => true | _ => false end = true →
  x = Some (Ok (fst (state_or d x), snd (state_or d x))).
Proof. by destruct x as [[[? ?]|]|]. Qed.

Lemma feasible_iff_one_cylinder_per_box_witness :
  build_model (construct Sheet.rows) = Ok Sheet.model
  ∧ (feasible (Sheet.pick 1) Sheet.model
     ↔ binary (Sheet.pick 1)
       ∧ total (Sheet.pick 1) (Dict.keys (containers (construct Sheet.rows)))
         = Z.of_nat TOTAL_CONTAINERS
       ∧ (weighted volume (Sheet.pick 1)
            (Dict.values (cylinders (construct Sheet.rows)))
          == num_to_Q TOTAL_VOLUME)%Q
       ∧ (weighted weight (Sheet.pick 1)
            (Dict.values (cylinders (construct Sheet.rows)))
          == inject_Z TOTAL_WEIGHT)%Q
       ∧ ∀ k (b : Box Q),
           Dict.get (boxes (construct Sheet.rows)) k = Some b →
           total (Sheet.pick 1) (map cyl_identifier (box_cylinders b))
           = Sheet.pick 1 (container b)).
Proof.
  assert (build_model (construct Sheet.rows) = Ok Sheet.model) as Hb
    by (vm_compute; reflexivity).
  split; [exact Hb|].
  exact (feasible_iff_one_cylinder_per_box Sheet.rows Sheet.model
           (Sheet.pick 1) Hb).
Defined.

Lemma feasible_assignment_passes_structure_witness :
  (Forall (fun r : Row Q => plain_labels r = true) Sheet.rows
   ∧ Forall (fun r : Row Q => Str.free_of pipe (row_Container r) = true)
       Sheet.rows
   ∧ Forall (fun r : Row Q => Str.free_of pipe (row_Box r) = true) Sheet.rows
   ∧ build_model (construct Sheet.rows) = Ok Sheet.model
   ∧ (∀ x, x ∈ mentioned sheet_extra → x ∈ variables Sheet.model)
   ∧ feasible (Sheet.pick 2) sheet_later)
  ∧ ∃ ys,
      Forall2 (fun n y => Dict.get (cylinders (construct Sheet.rows)) n = Some y)
        (selected_cylinders (Sheet.pick 2) (variables sheet_later)) ys
      ∧ evaluate_solution (construct Sheet.rows) sheet_later (Sheet.pick 2) ∅
        = let ids := selected_cylinders (Sheet.pick 2) (variables sheet_later) in
          let s := Str.join "," ids in
          if bool_decide (s ∈ (∅ : gset string)) then (Ok None, ∅)
          else if num_eqb
                    (num_round 2
                       (foldl num_add (num_of_Q 0) (map volume ys)))
                    TOTAL_VOLUME
                  && num_eqb
                       (num_round 2
                          (foldl num_add (num_of_Q 0) (map weight ys)))
                       (num_of_Q (inject_Z TOTAL_WEIGHT))
               then (Ok (Some (ids, ys)), {[s]} ∪ ∅)
               else (Ok None, {[s]} ∪ ∅).
Proof.
  assert (Forall (fun r : Row Q => plain_labels r = true) Sheet.rows)
    as Hplain by (apply (bool_decide_unpack _); vm_compute; exact I).
  assert (Forall (fun r : Row Q => Str.free_of pipe (row_Container r) = true)
            Sheet.rows) as Hfree
    by (apply (bool_decide_unpack _); vm_compute; exact I).
  assert (Forall (fun r : Row Q => Str.free_of pipe (row_Box r) = true)
            Sheet.rows) as Hfreeb
    by (apply (bool_decide_unpack _); vm_compute; exact I).
  assert (build_model (construct Sheet.rows) = Ok Sheet.model) as Hb
    by (vm_compute; reflexivity).
  assert (∀ x, x ∈ mentioned sheet_extra → x ∈ variables Sheet.model)
    as Hextra
    by (apply Forall_forall, (bool_decide_unpack _); vm_compute; exact I).
  assert (feasible (Sheet.pick 2) sheet_later) as Hfeas
    by (apply all_hold_feasible; [apply pick_binary|vm_compute; reflexivity]).
  split; [by split_and!|].
  exact (feasible_assignment_passes_structure Sheet.rows Sheet.model
           sheet_extra (Sheet.pick 2) ∅ Hplain Hfree Hfreeb Hb Hextra Hfeas).
Defined.

Lemma validator_reads_only_the_variables_witness :
  (∀ x, x ∈ variables sheet_later ↔ x ∈ variables Sheet.model)
  ∧ evaluate_solution Sheet.items sheet_later (Sheet.pick 2) ∅
    = evaluate_solution Sheet.items Sheet.model (Sheet.pick 2) ∅.
Proof.
  assert (∀ x, x ∈ variables sheet_later ↔ x ∈ variables Sheet.model)
    as Hsame.
  { assert (variables sheet_later = variables Sheet.model) as ->
      by (vm_compute; reflexivity). done. }
  split; [exact Hsame|].
  exact (validator_reads_only_the_variables Sheet.items sheet_later
           Sheet.model (Sheet.pick 2) ∅ Hsame).
Defined.

Lemma solution_is_listed_in_name_order_witness :
  evaluate_solution (construct Sheet.rows) Sheet.model (Sheet.pick 1) ∅
  = (Ok (Some (fst (Sheet.answer 1), snd (Sheet.answer 1))),
     snd (evaluate_solution (construct Sheet.rows) Sheet.model
            (Sheet.pick 1) ∅))
  ∧ fst (Sheet.answer 1)
    = selected_cylinders (Sheet.pick 1) (variables Sheet.model)
  ∧ StronglySorted (fun x y => Str.le x y = true) (fst (Sheet.answer 1))
  ∧ NoDup (fst (Sheet.answer 1)).
Proof.
  assert (evaluate_solution (construct Sheet.rows) Sheet.model
            (Sheet.pick 1) ∅
          = (Ok (Some (fst (Sheet.answer 1), snd (Sheet.answer 1))),
             snd (evaluate_solution (construct Sheet.rows) Sheet.model
                    (Sheet.pick 1) ∅))) as Hrun
    by (apply pair_fst; vm_compute; reflexivity).
  split; [exact Hrun|].
  exact (solution_is_listed_in_name_order Sheet.rows Sheet.model
           (Sheet.pick 1) ∅ _ _ _ Hrun).
Defined.

Lemma names_are_read_back_witness :
  (plain_labels (Sheet.last 2) = true
   ∧ Str.free_of pipe (row_Container (Sheet.last 2)) = true
   ∧ Str.free_of pipe (row_Box (Sheet.last 2)) = true)
  ∧ translate (container_id (Sheet.last 2)) = container_id (Sheet.last 2)
  ∧ translate (cylinder_id (Sheet.last 2)) = cylinder_id (Sheet.last 2)
  ∧ Str.split pipe (translate (container_id (Sheet.last 2)))
    = [row_Container (Sheet.last 2)]
  ∧ is_container_name (translate (container_id (Sheet.last 2))) = true
  ∧ Str.split pipe (translate (cylinder_id (Sheet.last 2)))
    = row_Container (Sheet.last 2) :: row_Box (Sheet.last 2)
        :: Str.split pipe (row_Cylinder (Sheet.last 2))
  ∧ is_container_name (translate (cylinder_id (Sheet.last 2))) = false
  ∧ name_box (translate (cylinder_id (Sheet.last 2)))
    = Some (box_id (Sheet.last 2)).
Proof.
  assert (plain_labels (Sheet.last 2) = true) as Hplain by reflexivity.
  assert (Str.free_of pipe (row_Container (Sheet.last 2)) = true) as Hc
    by reflexivity.
  assert (Str.free_of pipe (row_Box (Sheet.last 2)) = true) as Hb
    by reflexivity.
  split; [by split_and!|].
  exact (names_are_read_back (num := Q) (Sheet.last 2) Hplain Hc Hb).
Defined.

Lemma builder_outcome_witness :
  Forall (fun r : Row Q => plain (row_Container r) = true
                           ∧ plain (row_Box r) = true) Sheet.rows
  ∧ match build_model (construct Sheet.rows) with
    | Ok p =>
        Sheet.rows ≠ []
        ∧ length (constraints p)
          = (3 + 3 * length (Dict.keys (boxes (construct Sheet.rows))))%nat
    | Raise e => Sheet.rows = [] ∧ e = TypeError
    end.
Proof.
  assert (Forall (fun r : Row Q => plain (row_Container r) = true
                                   ∧ plain (row_Box r) = true) Sheet.rows)
    as Hplain by (apply (bool_decide_unpack _); vm_compute; exact I).
  split; [exact Hplain|].
  pose proof (builder_outcome (num := Q) Sheet.rows Hplain) as Hout.
  exact Hout.
Defined.

Lemma solution_file_round_trip_witness :
  (Forall (fun s => single_line s = true) ["K1|LB_1|1"; "K35|LB_1|2"]
   ∧ last ["K1|LB_1|1"; "K35|LB_1|2"] ≠ Some "")
  ∧ read_solution
      (write_optimal_solution ["K1|LB_1|1"; "K35|LB_1|2"] 1 ∅) 1
    = Some ["K1|LB_1|1"; "K35|LB_1|2"]
  ∧ ∀ m, m ≠ 1%nat →
      read_solution
        (write_optimal_solution ["K1|LB_1|1"; "K35|LB_1|2"] 1 ∅) m
      = read_solution ∅ m.
Proof.
  assert (Forall (fun s => single_line s = true)
            ["K1|LB_1|1"; "K35|LB_1|2"]) as Hlines
    by (by repeat constructor).
  assert (last ["K1|LB_1|1"; "K35|LB_1|2"] ≠ Some "") as Hlast by done.
  split; [by split|].
  exact (solution_file_round_trip ["K1|LB_1|1"; "K35|LB_1|2"] 1 ∅
           Hlines Hlast).
Defined.

Lemma search_writes_numbered_files_witness :
  (is_file ∅ (solution_file (2 + 1)) = false
   ∧ search_on_disk Sheet.solver Sheet.items 2 ∅ Sheet.initial
     = Some (Ok (fst sheet_cell, snd sheet_cell)))
  ∧ (counter_different_solutions (snd sheet_cell) ≤ 3)%nat
  ∧ map fst (files (snd sheet_cell))
    = seq 1 (counter_different_solutions (snd sheet_cell))
  ∧ (∀ n ids, (n, ids) ∈ files (snd sheet_cell) →
       fst sheet_cell !! solution_file n = Some (Str.join newline ids))
  ∧ (∀ path,
       (∀ n, (1 ≤ n ≤ counter_different_solutions (snd sheet_cell))%nat →
          path ≠ solution_file n) →
       fst sheet_cell !! path = (∅ : disk) !! path).
Proof.
  assert (is_file ∅ (solution_file (2 + 1)) = false) as Hlast
    by (vm_compute; reflexivity).
  assert (search_on_disk Sheet.solver Sheet.items 2 ∅ Sheet.initial
          = Some (Ok (fst sheet_cell, snd sheet_cell))) as Hrun
    by (apply known_run; vm_compute; reflexivity).
  split; [by split|].
  exact (search_writes_numbered_files Sheet.solver Sheet.items 2 ∅
           (fst sheet_cell) Sheet.initial (snd sheet_cell) Hlast Hrun).
Defined.

Lemma search_cell_rerun_changes_nothing_witness :
  search_on_disk Sheet.solver Sheet.items 2 ∅ Sheet.initial
  = Some (Ok (fst sheet_cell, snd sheet_cell))
  ∧ ∃ st2,
      search_on_disk Sheet.solver Sheet.items 2 (fst sheet_cell)
        (snd sheet_cell)
      = Some (Ok (fst sheet_cell, st2))
      ∧ problem st2 = problem (snd sheet_cell)
      ∧ pulp_status_solve st2 = pulp_status_solve (snd sheet_cell)
      ∧ values st2 = values (snd sheet_cell)
      ∧ all_optimal_solutions st2 = all_optimal_solutions (snd sheet_cell).
Proof.
  assert (search_on_disk Sheet.solver Sheet.items 2 ∅ Sheet.initial
          = Some (Ok (fst sheet_cell, snd sheet_cell))) as Hrun
    by (apply known_run; vm_compute; reflexivity).
  split; [exact Hrun|].
  exact (search_cell_rerun_changes_nothing Sheet.solver Sheet.items 2 ∅
           (fst sheet_cell) Sheet.initial (snd sheet_cell) Hrun).
Defined.

Lemma written_solutions_are_shown_witness :
  (Forall (fun r : Row Q => single_line (row_Container r) = true
                            ∧ single_line (row_Box r) = true
                            ∧ single_line (row_Cylinder r) = true) Sheet.rows
   ∧ NoDup (map (fun r : Row Q => cylinder_id r) Sheet.rows)
   ∧ is_file ∅ (solution_file (2 + 1)) = false
   ∧ search_on_disk Sheet.solver (construct Sheet.rows) 2 ∅ Sheet.initial
     = Some (Ok (fst sheet_shown, snd sheet_shown)))
  ∧ ∃ data_frame,
      index_frame Sheet.rows (construct Sheet.rows) = Frame.Ok data_frame
      ∧ ∀ n ids, (n, ids) ∈ files (snd sheet_shown) →
          read_solution (fst sheet_shown) n = Some ids
          ∧ ∃ shown,
              print_solution (fst sheet_shown) data_frame n
              = Frame.Ok (Some shown)
              ∧ map fst shown = ids
              ∧ Forall (fun lr => snd lr ∈ Sheet.rows
                                  ∧ cylinder_id (snd lr) = fst lr) shown.
Proof.
  assert (Forall (fun r : Row Q => single_line (row_Container r) = true
                                   ∧ single_line (row_Box r) = true
                                   ∧ single_line (row_Cylinder r) = true)
            Sheet.rows) as Hlines
    by (apply (bool_decide_unpack _); vm_compute; exact I).
  assert (NoDup (map (fun r : Row Q => cylinder_id r) Sheet.rows)) as Hnd
    by (apply (bool_decide_unpack _); vm_compute; exact I).
  assert (is_file ∅ (solution_file (2 + 1)) = false) as Hlast
    by (vm_compute; reflexivity).
  assert (search_on_disk Sheet.solver (construct Sheet.rows) 2 ∅ Sheet.initial
          = Some (Ok (fst sheet_shown, snd sheet_shown))) as Hrun
    by (apply known_run; vm_compute; reflexivity).
  split; [by split_and!|].
  exact (written_solutions_are_shown Sheet.solver Sheet.rows 2 ∅
           (fst sheet_shown) Sheet.initial (snd sheet_shown)
           Hlines Hnd Hlast Hrun).
Defined.

Lemma sound_solver_is_never_rejected_witness :
  (labels_kept Sheet.rows
   ∧ NoDup (map (fun r : Row Q => cylinder_id r) Sheet.rows)
   ∧ Forall (fun r : Row Q => Str.free_of pipe (row_Container r) = true)
       Sheet.rows
   ∧ Forall (fun r : Row Q => Str.free_of pipe (row_Box r) = true) Sheet.rows
   ∧ Forall (fun r : Row Q => Str.free_of "," (row_Container r) = true
                              ∧ Str.free_of "," (row_Box r) = true
                              ∧ Str.free_of "," (row_Cylinder r) = true)
       Sheet.rows
   ∧ build_model (construct Sheet.rows) = Ok Sheet.model
   ∧ sound_on Sheet.rows Sheet.model (checked Sheet.solver)
   ∧ on_target (construct Sheet.rows) Sheet.model (checked Sheet.solver))
  ∧ ∃ st',
      search (checked Sheet.solver) (construct Sheet.rows) false 2
        (start (checked Sheet.solver) Sheet.model ∅)
      = Some (Ok st')
      ∧ (pulp_status_solve st' ≠ LpStatusOptimal
         ∨ counter_different_solutions st' = 3%nat)
      ∧ length (files st') = counter_different_solutions st'
      ∧ ∀ n ids, (n, ids) ∈ files st' →
          ∃ a, consistent Sheet.rows a
               ∧ ids = selected_cylinders a (variables Sheet.model).
Proof.
  assert (labels_kept Sheet.rows) as Hkept
    by (unfold labels_kept; apply (bool_decide_unpack _); vm_compute;
        exact I).
  assert (NoDup (map (fun r : Row Q => cylinder_id r) Sheet.rows)) as Hnd
    by (apply (bool_decide_unpack _); vm_compute; exact I).
  assert (Forall (fun r : Row Q => Str.free_of pipe (row_Container r) = true)
            Sheet.rows) as Hfree
    by (apply (bool_decide_unpack _); vm_compute; exact I).
  assert (Forall (fun r : Row Q => Str.free_of pipe (row_Box r) = true)
            Sheet.rows) as Hfreeb
    by (apply (bool_decide_unpack _); vm_compute; exact I).
  assert (Forall (fun r : Row Q => Str.free_of "," (row_Container r) = true
                                   ∧ Str.free_of "," (row_Box r) = true
                                   ∧ Str.free_of "," (row_Cylinder r) = true)
            Sheet.rows) as Hcomma
    by (apply (bool_decide_unpack _); vm_compute; exact I).
  assert (build_model (construct Sheet.rows) = Ok Sheet.model) as Hb
    by (vm_compute; reflexivity).
  assert (sound (checked Sheet.solver)) as Hsound.
  { apply checked_sound. intros p. unfold Sheet.solver.
    destruct (Nat.ltb _ 5); apply pick_binary. }
  assert (sound_on Sheet.rows Sheet.model (checked Sheet.solver)) as Hon
    by (by apply sound_sound_on).
  assert (on_target (construct Sheet.rows) Sheet.model
            (checked Sheet.solver)) as Htarget
    by (by apply exact_on_target).
  split; [by split_and!|].
  exact (sound_solver_is_never_rejected (checked Sheet.solver) Sheet.rows
           Sheet.model 2 Hkept Hnd Hfree Hfreeb Hcomma Hb Hon Htarget).
Defined.

Lemma constraint_names_are_distinct_witness :
  (Forall (fun r : Row Q => plain (row_Container r) = true
                            ∧ plain (row_Box r) = true) Sheet.rows
   ∧ build_model (construct Sheet.rows) = Ok Sheet.model)
  ∧ NoDup (map (fun nc => translate (fst nc)) (constraints Sheet.model))
  ∧ ∀ (solve : LpProblem Q → Z * assignment) (h : Hierarchy Q)
      (seen : gset string) (fuel max : nat) st',
      search_loop solve h fuel max (start solve Sheet.model seen)
      = Some (Ok st') →
      NoDup (map (fun nc => translate (fst nc)) (constraints (problem st'))).
Proof.
  assert (Forall (fun r : Row Q => plain (row_Container r) = true
                                   ∧ plain (row_Box r) = true) Sheet.rows)
    as Hplain by (apply (bool_decide_unpack _); vm_compute; exact I).
  assert (build_model (construct Sheet.rows) = Ok Sheet.model) as Hb
    by (vm_compute; reflexivity).
  split; [by split|].
  exact (constraint_names_are_distinct Sheet.rows Sheet.model Hplain Hb).
Defined.


Lemma validator_raises_only_KeyError_witness :
  evaluate_solution no_items Sheet.model (Sheet.pick 1) ∅
  = (Raise KeyError,
     snd (evaluate_solution no_items Sheet.model (Sheet.pick 1) ∅))
  ∧ KeyError = KeyError
  ∧ snd (evaluate_solution no_items Sheet.model (Sheet.pick 1) ∅) = ∅.
Proof.
  assert (evaluate_solution no_items Sheet.model (Sheet.pick 1) ∅
          = (Raise KeyError,
             snd (evaluate_solution no_items Sheet.model (Sheet.pick 1) ∅)))
    as Hrun by (apply pair_fst; vm_compute; reflexivity).
  split; [exact Hrun|].
  exact (validator_raises_only_KeyError no_items Sheet.model (Sheet.pick 1)
           ∅ _ KeyError Hrun).
Defined.

Lemma rows_are_reachable_witness :
  (Forall (fun r : Row Q => Str.free_of pipe (row_Container r) = true)
     [Sheet.last 1; Sheet.last 2]
   ∧ Sheet.last 2 ∈ [Sheet.last 1; Sheet.last 2])
  ∧ ∃ (c : Container) (b : Box Q),
      Dict.get (containers (construct [Sheet.last 1; Sheet.last 2]))
        (container_id (Sheet.last 2)) = Some c
      ∧ cont_identifier c = container_id (Sheet.last 2)
      ∧ box_id (Sheet.last 2) ∈ cont_boxes c
      ∧ Dict.get (boxes (construct [Sheet.last 1; Sheet.last 2]))
          (box_id (Sheet.last 2)) = Some b
      ∧ box_identifier b = box_id (Sheet.last 2)
      ∧ container b = container_id (Sheet.last 2)
      ∧ row_cylinder (Sheet.last 2) ∈ box_cylinders b
      ∧ box (row_cylinder (Sheet.last 2)) = box_id (Sheet.last 2)
      ∧ (NoDup (map cylinder_id [Sheet.last 1; Sheet.last 2]) →
         Dict.get (cylinders (construct [Sheet.last 1; Sheet.last 2]))
           (cylinder_id (Sheet.last 2))
         = Some (row_cylinder (Sheet.last 2))).
Proof.
  assert (Forall (fun r : Row Q => Str.free_of pipe (row_Container r) = true)
            [Sheet.last 1; Sheet.last 2]) as Hfree
    by (by repeat constructor).
  assert (Sheet.last 2 ∈ [Sheet.last 1; Sheet.last 2]) as Hin
    by (right; left).
  split; [by split|].
  exact (rows_are_reachable [Sheet.last 1; Sheet.last 2] (Sheet.last 2)
           Hfree Hin).
Defined.
